(** * Server.js: tunnel control server, shallow embedding and properties

    The development follows the layout of [src/Server.js]:
    - [JS]: the fragment of JavaScript values the handlers touch
      (strings as UTF-16 code units, JSON request bodies, truthiness,
      string conversion);
    - [Regex]: a backtracking matcher for the regular expressions of
      [isSafeSelectQuery], with [test], global [replace] and global
      [match];
    - [Validator]: [isSafeSelectQuery];
    - [Server]: the module-level variables, the response and broadcast
      effects, and one function per handler or callback;
    - [RegexSpec], [ValidatorSpec], [ServerSpec], [ExtraSpec]: the
      vocabulary of the statements (a declarative match relation,
      keywords as whole words, the states and effects handlers end in,
      whole connect attempts, sample requests);
    - [RegexFacts], [ValidatorFacts], [ServerFacts], [ValidatorExtra],
      [ServerExtra]: the proofs. *)

From Stdlib Require Import List ZArith NArith String Ascii Bool Lia DecimalString.
Import ListNotations.

Set Implicit Arguments.
Set Warnings "-register-all".

(* ===================================================================== *)
(** ** JavaScript values *)
(* ===================================================================== *)

Module JS.

Local Open Scope N_scope.

(** A JavaScript string is a sequence of UTF-16 code units. *)
Definition jstring := list N.

(** String literals of the source, written as Rocq strings. *)
Definition lit (s : string) : jstring :=
  map N_of_ascii (list_ascii_of_string s).

Fixpoint str_eqb (a b : jstring) : bool :=
  match a, b with
  | [], [] => true
  | x :: a', y :: b' => (x =? y) && str_eqb a' b'
  | _, _ => false
  end.

(** The characters matched by [\s] and removed by [String.prototype.trim]
    (ECMAScript WhiteSpace and LineTerminator): TAB, LF, VT, FF, CR, SP,
    NBSP, U+1680, U+2000..U+200A, U+2028, U+2029, U+202F, U+205F, U+3000,
    U+FEFF. *)
Definition is_space (c : N) : bool :=
  existsb (N.eqb c)
    [9; 10; 11; 12; 13; 32; 160; 5760; 8232; 8233; 8239; 8287; 12288; 65279]
  || ((8192 <=? c) && (c <=? 8202)).

(** The characters matched by [\w]: [A-Za-z0-9_]. *)
Definition is_word (c : N) : bool :=
  ((48 <=? c) && (c <=? 57)) || ((65 <=? c) && (c <=? 90))
  || (c =? 95) || ((97 <=? c) && (c <=? 122)).

Fixpoint trimStart (s : jstring) : jstring :=
  match s with
  | c :: s' => if is_space c then trimStart s' else s
  | [] => []
  end.

Definition trimEnd (s : jstring) : jstring := rev (trimStart (rev s)).

(** [String.prototype.trim] *)
Definition trim (s : jstring) : jstring := trimEnd (trimStart s).

(** ASCII upper-casing; [toUpperCase] is only applied to the keys of
    [envTunnel], which are ASCII. *)
Definition toUpperCase (s : jstring) : jstring :=
  map (fun c => if (97 <=? c) && (c <=? 122) then c - 32 else c) s.

(** [s.toLowerCase() === l] for an ASCII lower-case literal [l] without
    the letters i and k: the only code points outside ASCII whose lower
    case contains an ASCII letter are U+0130 (giving i) and U+212A
    (giving k), so the comparison holds exactly when [s] equals [l] up to
    ASCII case. *)
Definition lower_equals (s l : jstring) : bool :=
  str_eqb (map (fun c => if (65 <=? c) && (c <=? 90) then c + 32 else c) s) l.

(** *** Number values and Number::toString *)

(** The decimal digits of a natural number. *)
Definition digits (n : Z) : jstring := lit (NilZero.string_of_uint (N.to_uint (Z.to_N n))).

Definition ndigits (n : Z) : Z := Z.of_nat (List.length (digits n)).

(** [a / b] rounded to the nearest integer, ties to even. *)
Definition div_half_even (a b : Z) : Z :=
  let q := (a / b)%Z in
  let r := (a mod b)%Z in
  if (2 * r <? b)%Z then q
  else if (b <? 2 * r)%Z then (q + 1)%Z
  else if Z.even q then q else (q + 1)%Z.

(** The Number value for the positive rational [p / q]: the nearest
    binary64 value, ties to even.  A finite value is the pair [(M, E)]
    standing for [M * 2^E], with [2^52 <= M < 2^53] for a normal value,
    and with [E = -1074] and [M < 2^52] for a subnormal one and for zero;
    [None] is Infinity. *)
Definition to_double (p q : Z) : option (Z * Z) :=
  let d := (Z.log2 p - Z.log2 q)%Z in
  let ex := if (p * 2 ^ Z.max 0 (- d) <? q * 2 ^ Z.max 0 d)%Z then (d - 1)%Z else d in
  let E := Z.max (ex - 52) (-1074) in
  let M := div_half_even (p * 2 ^ Z.max 0 (- E)) (q * 2 ^ Z.max 0 E) in
  let (M', E') := if (M =? 2 ^ 53)%Z then ((2 ^ 52)%Z, (E + 1)%Z) else (M, E) in
  if (971 <? E')%Z then None else Some (M', E').

Definition same_double (x y : Z * Z) : bool :=
  (fst x =? fst y)%Z && (snd x =? snd y)%Z.

(** The Number value for the literal [m * 10^e], without its sign. *)
Definition number_value (m e : Z) : option (Z * Z) :=
  if (m =? 0)%Z then Some (0%Z, (-1074)%Z)
  else to_double (Z.abs m * 10 ^ Z.max 0 e) (10 ^ Z.max 0 (- e)).

(** The [n] with [10^(n-1) <= xp / xq < 10^n]. *)
Definition decimal_exponent (xp xq : Z) : Z :=
  let t := (ndigits xp - ndigits xq)%Z in
  if (xq * 10 ^ Z.max 0 t <=? xp * 10 ^ Z.max 0 (- t))%Z then (t + 1)%Z else t.

(** The positive value [xp / xq], of Number value [x] and decimal
    exponent [n], cut to [k] significant digits, when the Number value
    of that decimal is still [x]: of the decimal below and the one
    above, the one closer to [xp / xq] (the even one on a tie) if it
    qualifies, the other one otherwise. *)
Definition cut (xp xq : Z) (x : Z * Z) (n k : Z) : option Z :=
  let up := (10 ^ Z.max 0 (n - k))%Z in
  let uq := (10 ^ Z.max 0 (k - n))%Z in
  let lo := ((xp * uq) / (xq * up))%Z in
  let hi := (lo + 1)%Z in
  let ok c := match to_double (c * up) uq with
              | Some y => same_double y x
              | None => false
              end in
  let lo_first := (2 * xp * uq <? (2 * lo + 1) * up * xq)%Z
                  || ((2 * xp * uq =? (2 * lo + 1) * up * xq)%Z && Z.even lo) in
  if lo_first then
    if ok lo then Some lo else if ok hi then Some hi else None
  else
    if ok hi then Some hi else if ok lo then Some lo else None.

(** The decimal with the fewest significant digits whose Number value is
    [x], tried from [k] digits on; 17 digits always suffice. *)
Fixpoint shortest (xp xq : Z) (x : Z * Z) (n k : Z) (fuel : nat) : Z * Z :=
  match fuel with
  | O => (((xp * 10 ^ Z.max 0 (k - n)) / (xq * 10 ^ Z.max 0 (n - k)))%Z, k)
  | S fuel' =>
      match cut xp xq x n k with
      | Some c => (c, k)
      | None => shortest xp xq x n (k + 1) fuel'
      end
  end.

Fixpoint strip_zeros (ds : jstring) : jstring :=
  match ds with
  | c :: ds' => if c =? 48 then strip_zeros ds' else ds
  | [] => []
  end.

Definition zeros (n : Z) : jstring := repeat 48 (Z.to_nat n).

(** The digits [ds] of a decimal and its decimal exponent [n], written
    the way Number::toString does: in full for [0 < n <= 21], with
    leading zeros for [-6 < n <= 0], and in exponent form otherwise. *)
Definition format (ds : jstring) (n : Z) : jstring :=
  let k := Z.of_nat (List.length ds) in
  if (k <=? n)%Z && (n <=? 21)%Z then ds ++ zeros (n - k)
  else if (0 <? n)%Z && (n <=? 21)%Z then
    firstn (Z.to_nat n) ds ++ lit "." ++ skipn (Z.to_nat n) ds
  else if (-6 <? n)%Z && (n <=? 0)%Z then lit "0." ++ zeros (- n) ++ ds
  else
    let e := (n - 1)%Z in
    let ex := (if (e <? 0)%Z then lit "e-" else lit "e+") ++ digits (Z.abs e) in
    match ds with
    | [] => []
    | [d] => d :: ex
    | d :: rest => d :: lit "." ++ rest ++ ex
    end.

(** Number::toString on a positive finite Number value. *)
Definition show_double (x : Z * Z) : jstring :=
  let xp := (fst x * 2 ^ Z.max 0 (snd x))%Z in
  let xq := (2 ^ Z.max 0 (- snd x))%Z in
  let n0 := decimal_exponent xp xq in
  let (c, k) := shortest xp xq x n0 1 17 in
  format (rev (strip_zeros (rev (digits c)))) (n0 + (ndigits c - k)).

(** Number::toString on the Number value for the literal [m * 10^e]. *)
Definition show_number (m e : Z) : jstring :=
  match number_value m e with
  | None => (if (m <? 0)%Z then lit "-" else []) ++ lit "Infinity"
  | Some x =>
      if (fst x =? 0)%Z then lit "0"
      else (if (m <? 0)%Z then lit "-" else []) ++ show_double x
  end.

(** Number::toString on the Number value for the integer [n]. *)
Definition show_Z (n : Z) : jstring := show_number n 0.

(** The Number value for the literal [m * 10^e] is a zero. *)
Definition is_zero (m e : Z) : bool :=
  match number_value m e with
  | Some x => (fst x =? 0)%Z
  | None => false
  end.

(** Values that reach the handlers: the result of [JSON.parse] on a
    request body, plus [undefined] for absent properties.  A number is
    given by its literal: [JNum n] is the Number value for the integer
    literal [n], and [JDec m e] the one for a literal with a fraction or
    an exponent, of value [m * 10^e]; the Number value is the binary64
    value nearest to the literal.  An object is the list of its own
    properties, each key once. *)
Inductive JSValue :=
| JUndefined
| JNull
| JBool (b : bool)
| JNum (n : Z)
| JDec (mantissa exponent : Z)
| JStr (s : jstring)
| JArr (items : list JSValue)
| JObj (props : list (jstring * JSValue)).

(** ToBoolean *)
Definition truthy (v : JSValue) : bool :=
  match v with
  | JUndefined | JNull => false
  | JBool b => b
  | JNum n => negb (n =? 0)%Z
  | JDec m e => negb (is_zero m e)
  | JStr s => match s with [] => false | _ => true end
  | JArr _ | JObj _ => true
  end.

Fixpoint assoc (k : jstring) (props : list (jstring * JSValue)) : option JSValue :=
  match props with
  | [] => None
  | (k', v) :: rest => if str_eqb k k' then Some v else assoc k rest
  end.

(** Property read [v.k] (also through destructuring) for the names the
    handlers read ([query], [dbConfig], [host], [port], [user],
    [password], [database], [env]); no prototype defines them, so only
    own properties of objects answer. *)
Definition get (v : JSValue) (k : string) : JSValue :=
  match v with
  | JObj props =>
      match assoc (lit k) props with Some x => x | None => JUndefined end
  | _ => JUndefined
  end.

(** Thrown values: an [Error] with its message. *)
Inductive JsError :=
| TypeError (message : jstring)
| RangeError (message : jstring)
| Error (message : jstring).

Definition error_message (e : JsError) : jstring :=
  match e with TypeError m | RangeError m | Error m => m end.

(** ToString.  A parsed JSON object has no callable own property, so an
    own [toString] property hides [Object.prototype.toString] and the
    conversion throws; otherwise an object prints as "[object Object]".
    Arrays print through [join], where null and undefined elements print
    as the empty string. *)
Fixpoint ToString (v : JSValue) : JsError + jstring :=
  match v with
  | JUndefined => inr (lit "undefined")
  | JNull => inr (lit "null")
  | JBool true => inr (lit "true")
  | JBool false => inr (lit "false")
  | JNum n => inr (show_Z n)
  | JDec m e => inr (show_number m e)
  | JStr s => inr s
  | JArr items =>
      (fix join (l : list JSValue) : JsError + jstring :=
         match l with
         | [] => inr []
         | x :: l' =>
             let sx := match x with
                       | JUndefined | JNull => inr []
                       | _ => ToString x
                       end in
             match sx with
             | inl e => inl e
             | inr a =>
                 match l' with
                 | [] => inr a
                 | _ => match join l' with
                        | inl e => inl e
                        | inr b => inr (a ++ lit "," ++ b)
                        end
                 end
             end
         end) items
  | JObj props =>
      match assoc (lit "toString") props with
      | Some _ => inl (TypeError (lit "Cannot convert object to primitive value"))
      | None => inr (lit "[object Object]")
      end
  end.

(** The method call [receiver.toString()], where [receiver] is the text
    of the receiver expression as the engine prints it in its message
    and [v] its value.  An own [toString] property of a parsed JSON
    object is never callable. *)
Definition toString_call (receiver : jstring) (v : JSValue) : JsError + jstring :=
  match v with
  | JUndefined =>
      inl (TypeError (lit "Cannot read properties of undefined (reading 'toString')"))
  | JNull =>
      inl (TypeError (lit "Cannot read properties of null (reading 'toString')"))
  | JObj props =>
      match assoc (lit "toString") props with
      | Some _ => inl (TypeError (receiver ++ lit ".toString is not a function"))
      | None => inr (lit "[object Object]")
      end
  | _ => ToString v
  end.

End JS.

(* ===================================================================== *)
(** ** Regular expressions *)
(* ===================================================================== *)

Module Regex.

Import JS.
Local Open Scope N_scope.

(** Character classes of the source's patterns. *)
Inductive cset :=
| CLit (c : N)               (* a literal character *)
| CLitI (c : N)              (* a lower-case letter under the [i] flag *)
| CSpace                     (* \s *)
| CNonSpace                  (* \S *)
| CUnion (a b : cset)        (* [ab] *)
| CNoneOf (cs : list N).     (* [^...] *)

Fixpoint cset_mem (cs : cset) (c : N) : bool :=
  match cs with
  | CLit l => c =? l
  | CLitI l => (c =? l) || (c =? l - 32)
  | CSpace => is_space c
  | CNonSpace => negb (is_space c)
  | CUnion a b => cset_mem a c || cset_mem b c
  | CNoneOf l => negb (existsb (N.eqb c) l)
  end.

(** Patterns.  The source applies [*] and [*?] to character classes only. *)
Inductive re :=
| Eps
| Chr (cs : cset)
| Cat (r1 r2 : re)
| Alt (r1 r2 : re)
| Star (greedy : bool) (cs : cset)
| Bol                        (* ^ *)
| Eol                        (* $ *)
| WordB.                     (* \b *)

Definition word_opt (c : option N) : bool :=
  match c with Some x => is_word x | None => false end.

Section Matcher.

Variable R : Type.

(** A continuation receives the character before the current position
    and the rest of the input. *)
Definition cont := option N -> jstring -> option R.

Fixpoint star_greedy (cs : cset) (k : cont) (prev : option N) (s : jstring) : option R :=
  match s with
  | c :: s' =>
      if cset_mem cs c then
        match star_greedy cs k (Some c) s' with
        | Some x => Some x
        | None => k prev s
        end
      else k prev s
  | [] => k prev s
  end.

Fixpoint star_lazy (cs : cset) (k : cont) (prev : option N) (s : jstring) : option R :=
  match k prev s with
  | Some x => Some x
  | None =>
      match s with
      | c :: s' => if cset_mem cs c then star_lazy cs k (Some c) s' else None
      | [] => None
      end
  end.

(** Backtracking matcher in the priority order of ECMAScript: the first
    alternative first, greedy stars longest first, lazy stars shortest
    first. *)
Fixpoint mt (r : re) (prev : option N) (s : jstring) (k : cont) : option R :=
  match r with
  | Eps => k prev s
  | Chr cs =>
      match s with
      | c :: s' => if cset_mem cs c then k (Some c) s' else None
      | [] => None
      end
  | Cat r1 r2 => mt r1 prev s (fun prev' s' => mt r2 prev' s' k)
  | Alt r1 r2 =>
      match mt r1 prev s k with
      | Some x => Some x
      | None => mt r2 prev s k
      end
  | Star true cs => star_greedy cs k prev s
  | Star false cs => star_lazy cs k prev s
  | Bol => match prev with None => k prev s | Some _ => None end
  | Eol => match s with [] => k prev s | _ :: _ => None end
  | WordB =>
      if xorb (word_opt prev) (word_opt (hd_error s)) then k prev s else None
  end.

End Matcher.

(** Length of the match of [r] starting at the current position. *)
Definition match_len (r : re) (prev : option N) (s : jstring) : option nat :=
  mt r prev s (fun _ rest => Some (List.length s - List.length rest)%nat).

(** [r.test(s)] for a pattern without the [g] flag: is there a match
    starting at some position. *)
Fixpoint test_from (r : re) (prev : option N) (s : jstring) : bool :=
  match match_len r prev s with
  | Some _ => true
  | None =>
      match s with
      | [] => false
      | c :: s' => test_from r (Some c) s'
      end
  end.

Definition test (r : re) (s : jstring) : bool := test_from r None s.

(** [s.replace(r, '')] for a pattern with the [g] flag.  [skip] counts
    the characters of the current match still to be dropped. *)
Fixpoint remove_from (r : re) (prev : option N) (s : jstring) (skip : nat) : jstring :=
  match s with
  | [] => []
  | c :: s' =>
      match skip with
      | S n => remove_from r (Some c) s' n
      | O =>
          match match_len r prev s with
          | Some (S n) => remove_from r (Some c) s' n
          | _ => c :: remove_from r (Some c) s' 0
          end
      end
  end.

Definition remove_all (r : re) (s : jstring) : jstring := remove_from r None s 0.

(** [(s.match(r) || []).length] for a pattern with the [g] flag: the
    number of successive matches. *)
Fixpoint count_from (r : re) (prev : option N) (s : jstring) (skip : nat) : nat :=
  match s with
  | [] => match skip, match_len r prev [] with O, Some _ => 1%nat | _, _ => 0%nat end
  | c :: s' =>
      match skip with
      | S n => count_from r (Some c) s' n
      | O =>
          match match_len r prev s with
          | Some (S n) => S (count_from r (Some c) s' n)
          | Some O => S (count_from r (Some c) s' 0)
          | None => count_from r (Some c) s' 0
          end
      end
  end.

Definition count_matches (r : re) (s : jstring) : nat := count_from r None s 0.

(** A literal word, character by character. *)
Fixpoint word (s : jstring) : re :=
  match s with
  | [] => Eps
  | c :: s' => Cat (Chr (CLit c)) (word s')
  end.

(** A lower-case word under the [i] flag. *)
Fixpoint wordI (s : jstring) : re :=
  match s with
  | [] => Eps
  | c :: s' => Cat (Chr (CLitI c)) (wordI s')
  end.

Fixpoint alts (rs : list re) : re :=
  match rs with
  | [] => Eps
  | [r] => r
  | r :: rs' => Alt r (alts rs')
  end.

End Regex.

(* ===================================================================== *)
(** ** isSafeSelectQuery *)
(* ===================================================================== *)

Module Validator.

Import JS Regex.

(** [/\/\*[\s\S]*?\*\//g] *)
Definition re_block_comment : re :=
  Cat (word (lit "/*")) (Cat (Star false (CUnion CSpace CNonSpace)) (word (lit "*/"))).

(** [/--[^\n\r]*/g] *)
Definition re_line_comment : re :=
  Cat (word (lit "--")) (Star true (CNoneOf [10; 13]%N)).

(** [/^select\b/i] *)
Definition re_select : re := Cat Bol (Cat (wordI (lit "select")) WordB).

(** [/\bfrom\b/i] *)
Definition re_from : re := Cat WordB (Cat (wordI (lit "from")) WordB).

Definition forbidden_words : list string :=
  ["update"; "delete"; "insert"; "drop"; "alter"; "create"; "truncate";
   "grant"; "revoke"]%string.

(** [/\b(update|delete|insert|drop|alter|create|truncate|grant|revoke)\b/i] *)
Definition forbidden : re :=
  Cat WordB (Cat (alts (map (fun w => wordI (lit w)) forbidden_words)) WordB).

(** [/;/g] *)
Definition re_semicolon : re := Chr (CLit 59%N).

(** [/;\s*$/] *)
Definition re_semicolon_end : re :=
  Cat (Chr (CLit 59%N)) (Cat (Star true CSpace) Eol).

(** The text the checks run on: comments removed, then trimmed. *)
Definition stripped (query : jstring) : jstring :=
  trim (remove_all re_line_comment (remove_all re_block_comment query)).

Definition isSafeSelectQuery_string (query : jstring) : bool :=
  let text := stripped query in
  if negb (test re_select text) then false
  else if negb (test re_from text) then false
  else if test forbidden text then false
  else
    let semicolons := count_matches re_semicolon text in
    if (1 <? semicolons)%nat then false
    else if (semicolons =? 1)%nat && negb (test re_semicolon_end text) then false
    else true.

Definition isSafeSelectQuery (query : JSValue) : bool :=
  match query with
  | JStr s => isSafeSelectQuery_string s
  | _ => false
  end.

End Validator.

(* ===================================================================== *)
(** ** The server: variables, effects, handlers *)
(* ===================================================================== *)

Module Server.

Import JS.

(** An HTTP response object ([res]), by identity. *)
Definition Res := nat.

(** A [ChildProcess]; [pid] is undefined when the spawn failed. *)
Record ChildProcess := { handle : nat; pid : option Z }.

(** The module-level variables. *)
Record Vars := {
  tunnelProcess : option ChildProcess;
  connectedEnv : JSValue;
  tunnelLocalPort : option Z;
  sseClients : list Res
}.

Definition initial : Vars :=
  {| tunnelProcess := None; connectedEnv := JNull;
     tunnelLocalPort := None; sseClients := [] |}.

(** The object built by [getCurrentStatus]. *)
Record Status := {
  st_status : jstring;
  st_env : JSValue;
  st_pid : option Z;
  st_localPort : option Z
}.

Definition getCurrentStatus (v : Vars) : Status :=
  {| st_status := match tunnelProcess v with
                  | Some _ => lit "connected"
                  | None => lit "disconnected"
                  end;
     st_env := connectedEnv v;
     st_pid := match tunnelProcess v with
               | Some p => match pid p with
                           | Some n => if (n =? 0)%Z then None else Some n
                           | None => None
                           end
               | None => None
               end;
     st_localPort := tunnelLocalPort v |}.

(** JSON bodies sent to callers. *)
Inductive Body :=
| Failure (message : jstring)
| Success (message : jstring)
| ConnectSuccess (data : jstring) (tunnelPort : Z) (message : jstring)
| StatusBody (s : Status)
| Data (rows : JSValue)
| ErrorPage (e : JsError).

(** Settings handed to [mysql.createConnection]. *)
Record DbConfig := {
  db_host : jstring;
  db_port : JSValue;
  db_user : JSValue;
  db_password : JSValue;
  db_database : JSValue
}.

(** What the process does to the outside, in order. *)
Inductive Effect :=
| Respond (res : Res) (code : N) (body : Body)
| SseWrite (res : Res) (payload : Status)
| SsePing (res : Res)
| Kill (p : ChildProcess) (signal : option jstring)
| Spawn (p : ChildProcess) (command : jstring) (args : list jstring)
| Exec (command : jstring)
| NetConnect (host : jstring) (port : JSValue)
| CreateConnection (cfg : DbConfig)
| Execute (query : jstring)
| ConnectionEnd.

Record Machine := { vars : Vars; trace : list Effect }.

(** *** A monad for handler bodies: variables, effects, exceptions *)

Inductive Result (A : Type) :=
| Return (a : A) (m : Machine)
| Throw (e : JsError) (m : Machine).

Arguments Throw {A} e m.

Definition M (A : Type) := Machine -> Result A.

Definition ret {A} (a : A) : M A := fun m => Return a m.

Definition bind {A B} (c : M A) (f : A -> M B) : M B :=
  fun m => match c m with
           | Return a m' => f a m'
           | Throw e m' => Throw e m'
           end.

Definition throw {A} (e : JsError) : M A := fun m => Throw e m.

(** [try { c } catch (e) { h e }] *)
Definition try_catch {A} (c : M A) (h : JsError -> M A) : M A :=
  fun m => match c m with
           | Return a m' => Return a m'
           | Throw e m' => h e m'
           end.

Declare Scope js_scope.
Delimit Scope js_scope with js.
Notation "x <- c ;; k" := (bind c (fun x => k))
  (at level 61, c at next level, right associativity) : js_scope.
Notation "c ;; k" := (bind c (fun _ => k))
  (at level 61, right associativity) : js_scope.
Local Open Scope js_scope.

Definition lift {A} (r : JsError + A) : M A :=
  match r with inl e => throw e | inr a => ret a end.

Definition read : M Vars := fun m => Return (vars m) m.

Definition write (f : Vars -> Vars) : M unit :=
  fun m => Return tt {| vars := f (vars m); trace := trace m |}.

Definition emit (e : Effect) : M unit :=
  fun m => Return tt {| vars := vars m; trace := trace m ++ [e] |}.

Definition set_tunnelProcess (p : option ChildProcess) : M unit :=
  write (fun v => {| tunnelProcess := p; connectedEnv := connectedEnv v;
                     tunnelLocalPort := tunnelLocalPort v;
                     sseClients := sseClients v |}).

Definition set_connectedEnv (e : JSValue) : M unit :=
  write (fun v => {| tunnelProcess := tunnelProcess v; connectedEnv := e;
                     tunnelLocalPort := tunnelLocalPort v;
                     sseClients := sseClients v |}).

Definition set_tunnelLocalPort (p : option Z) : M unit :=
  write (fun v => {| tunnelProcess := tunnelProcess v;
                     connectedEnv := connectedEnv v;
                     tunnelLocalPort := p; sseClients := sseClients v |}).

Definition set_sseClients (l : list Res) : M unit :=
  write (fun v => {| tunnelProcess := tunnelProcess v;
                     connectedEnv := connectedEnv v;
                     tunnelLocalPort := tunnelLocalPort v; sseClients := l |}).

Fixpoint for_each {A} (l : list A) (body : A -> M unit) : M unit :=
  match l with
  | [] => ret tt
  | x :: l' => body x ;; for_each l' body
  end.

(** *** Responses *)

Definition responds_on (res : Res) (e : Effect) : bool :=
  match e with
  | Respond r _ _ => Nat.eqb r res
  | _ => false
  end.

(** [res.headersSent] *)
Definition headersSent (res : Res) : M bool :=
  fun m => Return (existsb (responds_on res) (trace m)) m.

(** [res.status(code).json(body)]; Node throws when the headers of [res]
    have been sent already. *)
Definition respond (res : Res) (code : N) (body : Body) : M unit :=
  sent <- headersSent res ;;
  if sent then throw (Error (lit "Cannot set headers after they are sent to the client"))
  else emit (Respond res code body).

(** *** Static configuration *)

Record Profile := { defaultLocalPort : Z; remoteHost : jstring }.

Definition envTunnel : list (jstring * Profile) :=
  [ (lit "sit",  {| defaultLocalPort := 4085;
                    remoteHost := lit "cdx-sit2-crs-tidb.int-np.cardx.co.th" |});
    (lit "uat1", {| defaultLocalPort := 4023;
                    remoteHost := lit "cdx-uat-crs-tidb.int-np.cardx.co.th" |});
    (lit "uat2", {| defaultLocalPort := 4022;
                    remoteHost := lit "cdx-uat2-crs-tidb.int-np.cardx.co.th" |}) ].

Fixpoint own_property (k : jstring) (o : list (jstring * Profile)) : option Profile :=
  match o with
  | [] => None
  | (k', p) :: rest => if str_eqb k k' then Some p else own_property k rest
  end.

(** The names [envTunnel], an object literal, inherits from
    [Object.prototype]. *)
Definition inherited_names : list string :=
  ["constructor"; "__defineGetter__"; "__defineSetter__"; "hasOwnProperty";
   "__lookupGetter__"; "__lookupSetter__"; "isPrototypeOf";
   "propertyIsEnumerable"; "toString"; "valueOf"; "__proto__";
   "toLocaleString"]%string.

(** What [envTunnel[key]] holds when it is not undefined: a profile of
    the configuration, or an inherited member (a function, or
    [Object.prototype] itself under "__proto__"), which is truthy and has
    neither a [defaultLocalPort] nor a [remoteHost]. *)
Inductive Entry :=
| Configured (prof : Profile)
| Inherited.

Definition envTunnel_get (k : jstring) : option Entry :=
  match own_property k envTunnel with
  | Some prof => Some (Configured prof)
  | None =>
      if existsb (fun name => str_eqb k (lit name)) inherited_names
      then Some Inherited else None
  end.

(** [envTunnel[env]] for a truthy [env]: the key is [ToString env]. *)
Definition envTunnel_lookup (env : JSValue) : JsError + option Entry :=
  match ToString env with
  | inl e => inl e
  | inr k => inr (envTunnel_get k)
  end.

(** The RangeError of [net.Server.listen] for a port that is no integer
    of 0..65535 (ERR_SOCKET_BAD_PORT, with the message of current Node
    releases); [received] is the port as printed. *)
Definition bad_port (received : jstring) : JsError :=
  RangeError (lit "options.port should be >= 0 and < 65536. Received type number ("
              ++ received ++ lit ").").

Definition user : jstring := lit "Manuchet@cardx.co.th".
Definition proxy : jstring := lit "cardx.teleport.sh:443".

Definition loginCommand : jstring :=
  lit "tsh login --proxy=" ++ proxy ++ lit " --auth=local --user="
  ++ [34%N] ++ user ++ [34%N].

Definition statusCommand : jstring := lit "tsh status".
Definition logoutCommand : jstring := lit "tsh logout".

Definition sshTunnelCommand (chosenPort : Z) (remoteHost : jstring) : jstring :=
  lit "tsh ssh -N -L " ++ show_Z chosenPort ++ lit ":" ++ remoteHost
  ++ lit ":4000 devops@cdx-sit-nonprod-pci-acn-bastion-host".

(** [s.split(' ')] *)
Fixpoint split_space (s : jstring) : list jstring :=
  match s with
  | [] => [[]]
  | c :: s' =>
      if (c =? 32)%N then [] :: split_space s'
      else match split_space s' with
           | [] => [[c]]
           | w :: ws => (c :: w) :: ws
           end
  end.

(** *** Port scan of POST /connect *)

(** [Array.from({ length: 51 }, (_, i) => defaultLocalPort + i)] *)
Definition range (defaultLocalPort : Z) : list Z :=
  map (fun i => (defaultLocalPort + Z.of_nat i)%Z) (seq 0 51).

(** [for (const p of range) if (await isPortFree(p)) { chosenPort = p; break; }]
    Each port is probed at most once, so the outcomes of the probes are a
    function of the port.  The ports of the configured profiles and the
    fifty above them (4022..4135) are legal ports, on which [listen] does
    not throw, so each probe resolves to a boolean. *)
Fixpoint scan (isPortFree : Z -> bool) (ps : list Z) (chosenPort : Z) : Z :=
  match ps with
  | [] => chosenPort
  | p :: ps' => if isPortFree p then p else scan isPortFree ps' chosenPort
  end.

Definition choosePortForTunnel (isPortFree : Z -> bool) (defaultLocalPort : Z) : Z :=
  scan isPortFree (range defaultLocalPort) defaultLocalPort.

(** *** Closures of a connect attempt *)

(** After validation: [res], [env] and the profile. *)
Record Pending := { p_res : Res; p_env : JSValue; p_profile : Profile }.

(** A request that passed the check of its environment: for a profile of
    the configuration, or for an inherited member of [envTunnel], where
    [defaultLocalPort] and [remoteHost] are undefined. *)
Inductive Validated :=
| Known (c : Pending)
| Unconfigured (res : Res).

Definition v_res (r : Validated) : Res :=
  match r with Known c => p_res c | Unconfigured res => res end.

(** After the launch: what the subprocess handlers and the timer close
    over. *)
Record Attempt := {
  a_res : Res;
  a_env : JSValue;
  a_chosenPort : Z;
  a_statusStdout : jstring
}.

Section Handlers.

(** The error [res.write] throws on an event stream, if it throws. *)
Variable write_error : Res -> option JsError.

Definition sse_write (res : Res) (payload : Status) : M unit :=
  match write_error res with
  | Some e => throw e
  | None => emit (SseWrite res payload)
  end.

Definition broadcastStatus : M unit :=
  v <- read ;;
  let payload := getCurrentStatus v in
  for_each (sseClients v)
    (fun res => try_catch (sse_write res payload) (fun _ => ret tt)).

(** [tunnelProcess = null; connectedEnv = null; tunnelLocalPort = null] *)
Definition clear_slot : M unit :=
  set_tunnelProcess None ;; set_connectedEnv JNull ;; set_tunnelLocalPort None.

(** GET /events *)
Definition events (res : Res) : M unit :=
  v <- read ;;
  sse_write res (getCurrentStatus v) ;;
  set_sseClients (if existsb (Nat.eqb res) (sseClients v)
                  then sseClients v else sseClients v ++ [res]).

(** The heartbeat of an event stream. *)
Definition heartbeat (res : Res) : M unit :=
  try_catch (match write_error res with
             | Some e => throw e
             | None => emit (SsePing res)
             end) (fun _ => ret tt).

(** The 'close' handler of an event stream. *)
Definition events_close (res : Res) : M unit :=
  v <- read ;;
  set_sseClients (filter (fun r => negb (Nat.eqb r res)) (sseClients v)).

(** GET /status *)
Definition status (res : Res) : M unit :=
  v <- read ;;
  respond res 200 (StatusBody (getCurrentStatus v)).

(** POST /connect, up to the call of [exec(loginCommand, ...)].  Returns
    the closure of the login callback when the command was started. *)
Definition connect (res : Res) (body : JSValue) : M (option Validated) :=
  v <- read ;;
  match tunnelProcess v with
  | Some p => emit (Kill p None) ;; clear_slot ;; broadcastStatus
  | None => ret tt
  end ;;
  match body with
  | JUndefined | JNull =>
      throw (TypeError (lit "Cannot destructure property 'env' of 'req.body' as it is undefined."))
  | _ =>
      let env := get body "env" in
      if negb (truthy env) then
        respond res 400 (Failure (lit "Invalid or missing environment specified.")) ;;
        ret None
      else
        o <- lift (envTunnel_lookup env) ;;
        match o with
        | None =>
            respond res 400 (Failure (lit "Invalid or missing environment specified.")) ;;
            ret None
        | Some (Configured prof) =>
            emit (Exec loginCommand) ;;
            ret (Some (Known {| p_res := res; p_env := env; p_profile := prof |}))
        | Some Inherited =>
            emit (Exec loginCommand) ;;
            ret (Some (Unconfigured res))
        end
  end.

(** The callback of [exec(loginCommand, ...)].  Returns [true] when the
    status command was started. *)
Definition login_callback (res : Res) (loginError : bool) (loginStderr : jstring)
  : M bool :=
  if loginError then
    respond res 500
      (Failure (lit "Login failed. Please check credentials and Teleport setup. "
                ++ [10%N; 10%N] ++ lit "Error: " ++ loginStderr)) ;;
    ret false
  else emit (Exec statusCommand) ;; ret true.

(** The callback of [exec(statusCommand, ...)], up to the start of the
    asynchronous block.  Returns [true] when the block was started. *)
Definition status_callback (res : Res) (statusError : bool) (statusStderr : jstring)
  : M bool :=
  if statusError then
    respond res 500
      (Failure (lit "Failed to get TSH status: " ++ statusStderr)) ;;
    ret false
  else ret true.

(** The asynchronous block: port scan, then (without yielding again)
    publication of the port, spawn, registration of the handlers and
    the timer.  [child] is the object [spawn] returns. *)
Definition create_tunnel (isPortFree : Z -> bool) (c : Pending)
    (statusStdout : jstring) (child : ChildProcess) : M Attempt :=
  let chosenPort := choosePortForTunnel isPortFree (defaultLocalPort (p_profile c)) in
  let words := split_space (sshTunnelCommand chosenPort (remoteHost (p_profile c))) in
  set_tunnelLocalPort (Some chosenPort) ;;
  broadcastStatus ;;
  emit (Spawn child (hd [] words) (tl words)) ;;
  set_tunnelProcess (Some child) ;;
  ret {| a_res := p_res c; a_env := p_env c; a_chosenPort := chosenPort;
         a_statusStdout := statusStdout |}.

(** The asynchronous block when [defaultLocalPort] is undefined: every
    port of the range is [undefined + i], that is NaN, and the first
    [isPortFree(NaN)] is rejected, since [listen] throws on it; the block
    ends there, before anything is published or spawned. *)
Definition create_tunnel_unconfigured : M Attempt := throw (bad_port (lit "NaN")).

(** [tunnelProcess.on('error', ...)] *)
Definition on_error (a : Attempt) : M unit :=
  sent <- headersSent (a_res a) ;;
  (if negb sent then
     respond (a_res a) 500 (Failure (lit "Failed to spawn SSH tunnel process."))
   else ret tt) ;;
  clear_slot ;;
  broadcastStatus.

(** [tunnelProcess.stderr.on('data', ...)] *)
Definition on_stderr_data (a : Attempt) (errorMessage : jstring) : M unit :=
  sent <- headersSent (a_res a) ;;
  (if negb sent then
     v <- read ;;
     match tunnelProcess v with
     | None => throw (TypeError (lit "Cannot read properties of null (reading 'kill')"))
     | Some p =>
         emit (Kill p None) ;;
         clear_slot ;;
         respond (a_res a) 500
           (Failure (lit "Failed to establish SSH tunnel: " ++ errorMessage))
     end
   else ret tt) ;;
  broadcastStatus.

(** [tunnelProcess.on('close', ...)] *)
Definition on_close (a : Attempt) : M unit :=
  clear_slot ;;
  broadcastStatus.

(** The confirmation timer. *)
Definition on_timer (a : Attempt) : M unit :=
  sent <- headersSent (a_res a) ;;
  if negb sent then
    match a_env a with
    | JStr env =>
        set_connectedEnv (a_env a) ;;
        broadcastStatus ;;
        respond (a_res a) 200
          (ConnectSuccess (a_statusStdout a) (a_chosenPort a)
             (lit "SSH tunnel for " ++ toUpperCase env
              ++ lit " environment initiated on port "
              ++ show_Z (a_chosenPort a) ++ lit "."))
    | JUndefined =>
        throw (TypeError (lit "Cannot read properties of undefined (reading 'toUpperCase')"))
    | JNull =>
        throw (TypeError (lit "Cannot read properties of null (reading 'toUpperCase')"))
    | _ => throw (TypeError (lit "env.toUpperCase is not a function"))
    end
  else ret tt.

(** POST /disconnect, up to the call of [exec(logoutCommand, ...)]. *)
Definition disconnect : M unit :=
  v <- read ;;
  match tunnelProcess v with
  | Some p =>
      emit (Kill p (Some (lit "SIGTERM"))) ;;
      set_tunnelProcess None ;;
      set_connectedEnv JNull ;;
      broadcastStatus
  | None => ret tt
  end ;;
  emit (Exec logoutCommand).

(** The callback of [exec(logoutCommand, ...)]; [error] only decides
    what is logged. *)
Definition logout_callback (res : Res) (error : bool) : M unit :=
  respond res 200 (Success (lit "Tunnel terminated and successfully logged out.")) ;;
  broadcastStatus.

End Handlers.

(** *** POST /execute-sql *)

Section ExecuteSql.

Import Validator.

(** The collaborators: the TCP probe ([net.connect], answering with the
    error or timeout it reports, if any; its port argument stands for
    [Number(dbPort)]), the database client, and the n-th call of
    [connection.end()]. *)
Variable net_connect : jstring -> JSValue -> option JsError.
Variable createConnection : DbConfig -> option JsError.
Variable execute : jstring -> JsError + JSValue.
Variable connection_end : nat -> option JsError.

(** [x || undefined] *)
Definition or_undefined (v : JSValue) : JSValue :=
  if truthy v then v else JUndefined.

(** [e.message || fallback] *)
Definition message_or (e : JsError) (fallback : jstring) : jstring :=
  match error_message e with [] => fallback | m => m end.

(** Lines 141-144: the host after normalization. *)
Definition normalize_host (host : JSValue) : JsError + jstring :=
  match toString_call (lit "(host || " ++ [34%N] ++ lit "127.0.0.1" ++ [34%N] ++ lit ")")
          (if truthy host then host else JStr (lit "127.0.0.1")) with
  | inl e => inl e
  | inr s =>
      let h := trim s in
      inr (if lower_equals h (lit "localhost") || str_eqb h [] || str_eqb h (lit "::1")
           then lit "127.0.0.1" else h)
  end.

(** The promise around [net.connect].  [Number(dbPort)] throws inside the
    executor exactly when [ToString dbPort] does, and the promise is then
    rejected without any connection attempt. *)
Definition tcp_probe (host : jstring) (dbPort : JSValue) : M (option JsError) :=
  match ToString dbPort with
  | inl e => ret (Some e)
  | inr _ => emit (NetConnect host dbPort) ;; ret (net_connect host dbPort)
  end.

Definition is_connection_end (e : Effect) : bool :=
  match e with ConnectionEnd => true | _ => false end.

(** [await connection.end()] *)
Definition end_connection : M unit :=
  n <- (fun m => Return (List.length (filter is_connection_end (trace m))) m) ;;
  emit ConnectionEnd ;;
  match connection_end n with
  | Some e => throw e
  | None => ret tt
  end.

Definition unreachable_message (host port_s diagnostic : jstring) : jstring :=
  lit "Cannot reach " ++ host ++ lit ":" ++ port_s
  ++ lit ". Ensure SSH tunnel is connected for the selected environment and the local port is open. ("
  ++ diagnostic ++ lit ")".

Definition execute_sql (res : Res) (body : JSValue) : M unit :=
  try_catch
    (let b := if truthy body then body else JObj [] in
     let query := get b "query" in
     let dbConfig := get b "dbConfig" in
     if negb (truthy query) || negb (truthy dbConfig) then
       respond res 400 (Failure (lit "Missing query or dbConfig"))
     else if negb (isSafeSelectQuery query) then
       respond res 400
         (Failure (lit "Only single-statement SELECT queries are allowed."))
     else
       let dbPort := get dbConfig "port" in
       let user := get dbConfig "user" in
       host <- lift (normalize_host (get dbConfig "host")) ;;
       if negb (truthy (JStr host)) || negb (truthy dbPort) || negb (truthy user) then
         respond res 400
           (Failure (lit "Incomplete DB configuration (host, port, user required)"))
       else
         probe <- tcp_probe host dbPort ;;
         match probe with
         | Some tcpErr =>
             port_s <- lift (ToString dbPort) ;;
             respond res 502
               (Failure (unreachable_message host port_s (error_message tcpErr)))
         | None =>
             let cfg := {| db_host := host; db_port := dbPort; db_user := user;
                           db_password := or_undefined (get dbConfig "password");
                           db_database := or_undefined (get dbConfig "database") |} in
             emit (CreateConnection cfg) ;;
             match createConnection cfg with
             | Some e => throw e
             | None =>
                 let q := match query with JStr q => q | _ => [] end in
                 try_catch
                   (emit (Execute q) ;;
                    rows <- lift (execute q) ;;
                    end_connection ;;
                    respond res 200 (Data rows))
                   (fun err =>
                      try_catch end_connection (fun _ => ret tt) ;;
                      respond res 500
                        (Failure (message_or err (lit "Query execution failed"))))
             end
         end)
    (fun e =>
       respond res 500 (Failure (message_or e (lit "Unexpected server error")))).

End ExecuteSql.

(** *** POST /sso-login *)

Definition ssoLoginCommand : jstring :=
  lit "tsh login --proxy " ++ proxy ++ lit " --auth=sso".

Definition psArgs : list jstring :=
  [lit "/c"; lit "start"; []; lit "powershell"; lit "-NoExit"; lit "-Command";
   ssoLoginCommand].

(** [spawned] is what [spawn('cmd.exe', psArgs, ...)] does: it throws, or
    it returns the child, which is then detached with [unref]. *)
Definition sso_login (spawned : JsError + ChildProcess) (res : Res) : M unit :=
  try_catch
    (child <- lift spawned ;;
     emit (Spawn child (lit "cmd.exe") psArgs) ;;
     respond res 200 (Success (lit "Opened a new PowerShell window for SSO login.")))
    (fun e =>
       respond res 500 (Failure (message_or e (lit "Failed to launch terminal")))).

(** *** The port of the control server *)

(** [envPort]: the value of
    [process.env.PORT ? Number(process.env.PORT) : undefined]. *)
Inductive EnvPort :=
| PortUnset                      (* undefined, or NaN for a PORT that is no numeral *)
| PortInt (p : Z)                (* an integer *)
| PortOther (printed : jstring). (* any other number, with its printed form *)

(** [isPortFree]: the promise around
    [net.createServer()...listen(portToTest, '0.0.0.0')].  [listen] throws
    inside the executor for a port that is no integer of 0..65535, and
    the promise is then rejected; otherwise the server emits 'listening'
    (the promise resolves to true) or 'error' (to false), as [listening]
    tells. *)
Definition isPortFree (listening : Z -> bool) (portToTest : Z) : JsError + bool :=
  if (0 <=? portToTest)%Z && (portToTest <=? 65535)%Z
  then inr (listening portToTest)
  else inl (bad_port (show_Z portToTest)).

(** The candidates of [choosePort]: 3100..3110, then 3001..3009. *)
Definition candidates : list Z :=
  map Z.of_nat (seq 3100 11) ++ map Z.of_nat (seq 3001 9).

(** [for (const p of candidates) if (await isPortFree(p)) return p;]
    followed by [return 0]. *)
Fixpoint first_free (listening : Z -> bool) (ps : list Z) : JsError + Z :=
  match ps with
  | [] => inr 0%Z
  | p :: ps' =>
      match isPortFree listening p with
      | inl e => inl e
      | inr true => inr p
      | inr false => first_free listening ps'
      end
  end.

(** [choosePort].  [envPortFree] is the outcome of [listen] on the
    configured port, and [listening] gives its outcomes on the
    candidates, each probed at most once.  The result is the port the
    promise resolves to, or the error it is rejected with. *)
Definition choosePort (envPort : EnvPort) (envPortFree : bool)
    (listening : Z -> bool) : JsError + Z :=
  match envPort with
  | PortUnset => first_free listening candidates
  | PortInt p =>
      if negb (p =? 0)%Z && negb (p =? 3000)%Z then
        match isPortFree (fun _ => envPortFree) p with
        | inl e => inl e
        | inr true => inr p
        | inr false => first_free listening candidates
        end
      else first_free listening candidates
  | PortOther printed => inl (bad_port printed)
  end.

End Server.

(* ===================================================================== *)
(** ** A declarative reading of the patterns *)
(* ===================================================================== *)

Module RegexSpec.

Import JS Regex.
Local Open Scope N_scope.

(** The character before the position reached after reading [m]. *)
Definition prev_after (prev : option N) (m : jstring) : option N :=
  match rev m with
  | c :: _ => Some c
  | [] => prev
  end.

(** [matches r prev s prev' rest]: starting with [prev] before the
    position and [s] ahead, [r] can consume a prefix of [s] and stop with
    [prev'] before the position and [rest] ahead. *)
Inductive matches : re -> option N -> jstring -> option N -> jstring -> Prop :=
| m_eps : forall p s, matches Eps p s p s
| m_chr : forall cs c p s,
    cset_mem cs c = true -> matches (Chr cs) p (c :: s) (Some c) s
| m_cat : forall r1 r2 p s p1 s1 p2 s2,
    matches r1 p s p1 s1 -> matches r2 p1 s1 p2 s2 ->
    matches (Cat r1 r2) p s p2 s2
| m_alt_l : forall r1 r2 p s p' s',
    matches r1 p s p' s' -> matches (Alt r1 r2) p s p' s'
| m_alt_r : forall r1 r2 p s p' s',
    matches r2 p s p' s' -> matches (Alt r1 r2) p s p' s'
| m_star_stop : forall g cs p s, matches (Star g cs) p s p s
| m_star_more : forall g cs c p s p' s',
    cset_mem cs c = true -> matches (Star g cs) (Some c) s p' s' ->
    matches (Star g cs) p (c :: s) p' s'
| m_bol : forall s, matches Bol None s None s
| m_eol : forall p, matches Eol p [] p []
| m_wordb : forall p s,
    xorb (word_opt p) (word_opt (hd_error s)) = true -> matches WordB p s p s.

End RegexSpec.

(* ===================================================================== *)
(** ** What an accepted query looks like *)
(* ===================================================================== *)

Module ValidatorSpec.

Import JS Regex Validator RegexSpec.
Local Open Scope N_scope.

(** [c] is the lower-case ASCII letter [l] or its upper-case form. *)
Definition same_letter (l c : N) : Prop := c = l \/ c = l - 32.

(** [m] spells the lower-case word [w], case-insensitively. *)
Definition spells (w m : jstring) : Prop := Forall2 same_letter w m.

(** The text starts with [w] as a keyword: an occurrence at the start
    that is not continued by a word character. *)
Definition starts_with_keyword (w text : jstring) : Prop :=
  exists m rest,
    text = m ++ rest /\ spells w m /\ word_opt (hd_error rest) = false.

(** The text contains [w] as a whole word: an occurrence with no word
    character right before it and none right after it. *)
Definition contains_keyword (w text : jstring) : Prop :=
  exists pre m rest,
    text = pre ++ m ++ rest /\ spells w m /\
    word_opt (prev_after None pre) = false /\
    word_opt (hd_error rest) = false.

Definition lower_case (l : N) : Prop := 97 <= l <= 122.

Definition semicolon : N := 59.

(** The keywords the specification forbids. *)
Definition forbidden_keywords : list string :=
  ["update"; "delete"; "insert"; "drop"; "alter"; "create"; "truncate";
   "grant"; "revoke"]%string.

End ValidatorSpec.

(* ===================================================================== *)
(** ** Vocabulary for the handlers: states, effects, scenarios *)
(* ===================================================================== *)

Module ServerSpec.

Import JS Server.
Local Open Scope js_scope.

Definition write_ok (write_error : Res -> option JsError) (res : Res) : bool :=
  match write_error res with None => true | Some _ => false end.

(** The writes of one broadcast from variables [v]: the snapshot, to
    every observer whose stream accepts the write, in the order of the
    set. *)
Definition delivered (write_error : Res -> option JsError) (v : Vars) : list Effect :=
  map (fun res => SseWrite res (getCurrentStatus v))
      (filter (write_ok write_error) (sseClients v)).

Definition push (es : list Effect) (m : Machine) : Machine :=
  {| vars := vars m; trace := trace m ++ es |}.

(** The variables after [tunnelProcess = null; connectedEnv = null;
    tunnelLocalPort = null]. *)
Definition torn_down (v : Vars) : Vars :=
  {| tunnelProcess := None; connectedEnv := JNull; tunnelLocalPort := None;
     sseClients := sseClients v |}.

(** The variables after [tunnelProcess = null; connectedEnv = null]. *)
Definition released (v : Vars) : Vars :=
  {| tunnelProcess := None; connectedEnv := JNull;
     tunnelLocalPort := tunnelLocalPort v; sseClients := sseClients v |}.

(** The variables after [connectedEnv = env]. *)
Definition with_env (v : Vars) (env : JSValue) : Vars :=
  {| tunnelProcess := tunnelProcess v; connectedEnv := env;
     tunnelLocalPort := tunnelLocalPort v; sseClients := sseClients v |}.

(** [res.headersSent] on a trace. *)
Definition sent (res : Res) (t : list Effect) : bool := existsb (responds_on res) t.

(** The machine a run ends in, whether it returns or throws. *)
Definition final {A} (r : Result A) : Machine :=
  match r with Return _ m => m | Throw _ m => m end.


Definition success_message (env : jstring) (chosenPort : Z) : jstring :=
  lit "SSH tunnel for " ++ toUpperCase env
  ++ lit " environment initiated on port " ++ show_Z chosenPort ++ lit ".".

Definition invalid_environment : Body :=
  Failure (lit "Invalid or missing environment specified.").

Definition logged_out : Body :=
  Success (lit "Tunnel terminated and successfully logged out.").

Definition incomplete_configuration : Body :=
  Failure (lit "Incomplete DB configuration (host, port, user required)").

(** The request body as the handler reads it: [req.body || {}]. *)
Definition body_or_empty (body : JSValue) : JSValue :=
  if truthy body then body else JObj [].

(** The effects after the connection was opened. *)
Definition query_effect (e : Effect) : Prop :=
  match e with
  | Execute _ | ConnectionEnd | Respond _ _ _ => True
  | _ => False
  end.

(** One connect attempt from the request to the launch, its callbacks in
    the order Node runs them and nothing else in between. *)
Definition attempt (write_error : Res -> option JsError) (isPortFree : Z -> bool)
    (res : Res) (body : JSValue)
    (loginError : bool) (loginStderr : jstring)
    (statusError : bool) (statusStdout statusStderr : jstring)
    (child : ChildProcess) : M (option Attempt) :=
  o <- connect write_error res body ;;
  match o with
  | None => ret None
  | Some r =>
      logged <- login_callback (v_res r) loginError loginStderr ;;
      if logged then
        ok <- status_callback (v_res r) statusError statusStderr ;;
        if ok then
          a <- match r with
               | Known c => create_tunnel write_error isPortFree c statusStdout child
               | Unconfigured _ => create_tunnel_unconfigured
               end ;;
          ret (Some a)
        else ret None
      else ret None
  end.

(** One disconnect call: the handler, then the callback of the logout
    command, whose [error] tells whether the command failed. *)
Definition disconnect_call (write_error : Res -> option JsError)
    (res : Res) (error : bool) : M unit :=
  disconnect write_error ;; logout_callback write_error res error.

(** What [disconnect] does before the logout command is started. *)
Definition disconnect_effects (write_error : Res -> option JsError) (v : Vars)
  : list Effect :=
  match tunnelProcess v with
  | Some p => Kill p (Some (lit "SIGTERM")) :: delivered write_error (released v)
  | None => []
  end.

(** An environment in which writes to the stream [bad] throw. *)
Definition flaky (bad : Res) : Res -> option JsError :=
  fun r => if Nat.eqb r bad then Some (Error (lit "write after end")) else None.

Definition observed (clients : list Res) : Machine :=
  {| vars := {| tunnelProcess := None; connectedEnv := JNull;
                tunnelLocalPort := None; sseClients := clients |};
     trace := [] |}.

Definition started : Machine := {| vars := initial; trace := [] |}.

Definition connect_sit : JSValue := JObj [(lit "env", JStr (lit "sit"))].

Definition connect_prod : JSValue := JObj [(lit "env", JStr (lit "prod"))].

Definition child1 : ChildProcess := {| handle := 1; pid := Some 4242%Z |}.

(** The closure of a validated request for "sit". *)
Definition pending_sit : Pending :=
  {| p_res := 1; p_env := JStr (lit "sit");
     p_profile := {| defaultLocalPort := 4085;
                     remoteHost := lit "cdx-sit2-crs-tidb.int-np.cardx.co.th" |} |}.

Definition attempt1 : Attempt :=
  {| a_res := 1; a_env := JStr (lit "sit"); a_chosenPort := 4085;
     a_statusStdout := [] |}.

Definition tunnel_up : Vars :=
  {| tunnelProcess := Some child1; connectedEnv := JStr (lit "sit");
     tunnelLocalPort := Some 4085%Z; sseClients := [7] |}.

(** A tunnel that is down: every probe is refused. *)
Definition refused : jstring -> JSValue -> option JsError :=
  fun _ _ => Some (Error (lit "connect ECONNREFUSED 127.0.0.1:4085")).

Definition sql_request : JSValue :=
  JObj [ (lit "query", JStr (lit "select id from accounts"));
         (lit "dbConfig",
          JObj [ (lit "host", JStr (lit "localhost"));
                 (lit "port", JNum 4085);
                 (lit "user", JStr (lit "app")) ]) ].

(** The same request without a port. *)
Definition sql_request_no_port : JSValue :=
  JObj [ (lit "query", JStr (lit "select id from accounts"));
         (lit "dbConfig",
          JObj [ (lit "host", JStr (lit "localhost"));
                 (lit "user", JStr (lit "app")) ]) ].

Section Outcomes.

Variable net_connect : jstring -> JSValue -> option JsError.

(** The effects of a request whose probe failed. *)
Definition probe_failed (res : Res) (es : list Effect) : Prop :=
  exists host port port_s e,
    net_connect host port = Some e /\ ToString port = inr port_s /\
    es = [NetConnect host port;
          Respond res 502
            (Failure (unreachable_message host port_s (error_message e)))].

(** The effects of a request that went on to the database. *)
Definition reached_database (es : list Effect) : Prop :=
  exists host port cfg rest,
    net_connect host port = None /\
    es = NetConnect host port :: CreateConnection cfg :: rest /\
    Forall query_effect rest.

End Outcomes.

End ServerSpec.

(* ===================================================================== *)
(** ** Further vocabulary: subprocess signals, whole attempts *)
(* ===================================================================== *)

Module ExtraSpec.

Import JS Regex Validator Server ServerSpec.
Local Open Scope js_scope.

(** The shape of a text the validator lets through: it starts with the
    keyword SELECT, contains the keyword FROM, contains no forbidden
    keyword as a whole word, and has at most one semicolon, at its end. *)
Definition safe_shape (text : jstring) : Prop :=
  ValidatorSpec.starts_with_keyword (lit "select") text /\
  ValidatorSpec.contains_keyword (lit "from") text /\
  (forall w, In w ValidatorSpec.forbidden_keywords ->
             ~ ValidatorSpec.contains_keyword (lit w) text) /\
  (count_occ N.eq_dec text ValidatorSpec.semicolon <= 1)%nat /\
  (In ValidatorSpec.semicolon text ->
   exists init, text = init ++ [ValidatorSpec.semicolon]).

Definition dash : N := 45%N.

(** The text contains the line-comment marker [--]. *)
Definition has_line_comment (t : jstring) : Prop :=
  exists pre post, t = pre ++ dash :: dash :: post.

(** *** The effects of POST /execute-sql, phase by phase *)

Definition is_response (e : Effect) : bool :=
  match e with Respond _ _ _ => true | _ => false end.

(** The number of calls of [connection.end()] in a trace. *)
Definition ends (t : list Effect) : nat :=
  List.length (filter is_connection_end t).

(** The request passes every check before the probe, with [host] as the
    normalized host. *)
Definition passes_checks (body : JSValue) (host : jstring) : Prop :=
  let b := body_or_empty body in
  let dbConfig := get b "dbConfig" in
  truthy (get b "query") = true /\ truthy dbConfig = true /\
  isSafeSelectQuery (get b "query") = true /\
  normalize_host (get dbConfig "host") = inr host /\
  truthy (get dbConfig "port") = true /\ truthy (get dbConfig "user") = true.

Section SqlEffects.

Variable net_connect : jstring -> JSValue -> option JsError.
Variable createConnection : DbConfig -> option JsError.
Variable execute : jstring -> JsError + JSValue.
Variable connection_end : nat -> option JsError.

(** The settings the handler builds from [dbConfig] and the normalized
    host. *)
Definition connection_settings (host : jstring) (dbConfig : JSValue) : DbConfig :=
  {| db_host := host;
     db_port := get dbConfig "port";
     db_user := get dbConfig "user";
     db_password := or_undefined (get dbConfig "password");
     db_database := or_undefined (get dbConfig "database") |}.

(** From [connection.execute] to the response; [n] is the number of
    calls of [connection.end()] made before. *)
Definition query_effects (res : Res) (q : jstring) (n : nat) : list Effect :=
  Execute q ::
  match execute q with
  | inl err =>
      [ConnectionEnd;
       Respond res 500 (Failure (message_or err (lit "Query execution failed")))]
  | inr rows =>
      match connection_end n with
      | None => [ConnectionEnd; Respond res 200 (Data rows)]
      | Some e =>
          [ConnectionEnd; ConnectionEnd;
           Respond res 500 (Failure (message_or e (lit "Query execution failed")))]
      end
  end.

(** From [mysql.createConnection] to the response. *)
Definition database_effects (res : Res) (cfg : DbConfig) (q : jstring) (n : nat)
  : list Effect :=
  CreateConnection cfg ::
  match createConnection cfg with
  | Some e =>
      [Respond res 500 (Failure (message_or e (lit "Unexpected server error")))]
  | None => query_effects res q n
  end.

(** From the completeness check to the response. *)
Definition checked_effects (res : Res) (host : jstring) (dbConfig : JSValue)
    (q : jstring) (n : nat) : list Effect :=
  if negb (truthy (get dbConfig "port")) || negb (truthy (get dbConfig "user")) then
    [Respond res 400 incomplete_configuration]
  else
    match ToString (get dbConfig "port") with
    | inl e =>
        [Respond res 500 (Failure (message_or e (lit "Unexpected server error")))]
    | inr port_s =>
        NetConnect host (get dbConfig "port") ::
        match net_connect host (get dbConfig "port") with
        | Some tcpErr =>
            [Respond res 502
               (Failure (unreachable_message host port_s (error_message tcpErr)))]
        | None => database_effects res (connection_settings host dbConfig) q n
        end
    end.

End SqlEffects.

(** The query string handed to [connection.execute]. *)
Definition query_text (query : JSValue) : jstring :=
  match query with JStr q => q | _ => [] end.

(** The connection was opened: the part of the effects from there on
    executes [q] once, calls [connection.end()] [k] times and then
    answers. *)
Definition closes_then_answers (res : Res) (q : jstring) (k : nat)
    (code : N) (b : Body) : list Effect :=
  Execute q :: repeat ConnectionEnd k ++ [Respond res code b].

(** Sample collaborators and requests. *)
Definition reachable : jstring -> JSValue -> option JsError := fun _ _ => None.

Definition accepting : DbConfig -> option JsError := fun _ => None.

Definition access_denied : DbConfig -> option JsError :=
  fun _ => Some (Error (lit "Access denied for user 'app'@'localhost'")).

Definition one_row : JSValue := JArr [JObj [(lit "id", JNum 1)]].

Definition returning_one_row : jstring -> JsError + JSValue := fun _ => inr one_row.

Definition unknown_table : jstring -> JsError + JSValue :=
  fun _ => inl (Error (lit "Table 'crs.accounts' doesn't exist")).

Definition closing : nat -> option JsError := fun _ => None.

Definition sql_drop_request : JSValue :=
  JObj [ (lit "query", JStr (lit "DROP TABLE accounts"));
         (lit "dbConfig",
          JObj [ (lit "host", JStr (lit "localhost"));
                 (lit "port", JNum 4085);
                 (lit "user", JStr (lit "app")) ]) ].

(** *** Whole connect attempts *)

(** What POST /connect does to a process found in the slot. *)
Definition teardown_effects (write_error : Res -> option JsError) (v : Vars)
  : list Effect :=
  match tunnelProcess v with
  | Some p => Kill p None :: delivered write_error (torn_down v)
  | None => []
  end.

Definition after_teardown (v : Vars) : Vars :=
  match tunnelProcess v with Some _ => torn_down v | None => v end.

(** The variables after [tunnelLocalPort = chosenPort]. *)
Definition with_port (v : Vars) (chosenPort : Z) : Vars :=
  {| tunnelProcess := tunnelProcess v; connectedEnv := connectedEnv v;
     tunnelLocalPort := Some chosenPort; sseClients := sseClients v |}.

(** The variables after [tunnelProcess = spawn(...)]. *)
Definition with_process (v : Vars) (child : ChildProcess) : Vars :=
  {| tunnelProcess := Some child; connectedEnv := connectedEnv v;
     tunnelLocalPort := tunnelLocalPort v; sseClients := sseClients v |}.

(** The call of [spawn] for a port and a profile. *)
Definition spawn_effect (child : ChildProcess) (chosenPort : Z) (prof : Profile)
  : Effect :=
  let words := split_space (sshTunnelCommand chosenPort (remoteHost prof)) in
  Spawn child (hd [] words) (tl words).

(** A connect attempt followed by its confirmation timer, with no other
    event in between. *)
Definition confirmed_attempt (write_error : Res -> option JsError)
    (isPortFree : Z -> bool) (res : Res) (body : JSValue)
    (loginError : bool) (loginStderr : jstring)
    (statusError : bool) (statusStdout statusStderr : jstring)
    (child : ChildProcess) : M (option Attempt) :=
  o <- attempt write_error isPortFree res body loginError loginStderr
               statusError statusStdout statusStderr child ;;
  match o with
  | Some a => on_timer write_error a ;; ret o
  | None => ret o
  end.

Definition login_failed (loginStderr : jstring) : Body :=
  Failure (lit "Login failed. Please check credentials and Teleport setup. "
           ++ [10%N; 10%N] ++ lit "Error: " ++ loginStderr).

Definition status_failed (statusStderr : jstring) : Body :=
  Failure (lit "Failed to get TSH status: " ++ statusStderr).

Definition connect_uat1 : JSValue := JObj [(lit "env", JStr (lit "uat1"))].

Definition uat1_profile : Profile :=
  {| defaultLocalPort := 4023;
     remoteHost := lit "cdx-uat-crs-tidb.int-np.cardx.co.th" |}.

Definition child2 : ChildProcess := {| handle := 2; pid := Some 4343%Z |}.

(** *** Events of one connect attempt after the launch *)

(** What can reach the handlers registered by an attempt: the 'error'
    event of the process, data on its error stream, its 'close' event,
    and the confirmation timer. *)
Inductive Signal :=
| SpawnError
| StderrData (data : jstring)
| Closed
| TimerFired.

Definition on_signal (write_error : Res -> option JsError) (a : Attempt)
    (s : Signal) : M unit :=
  match s with
  | SpawnError => on_error write_error a
  | StderrData data => on_stderr_data write_error a data
  | Closed => on_close write_error a
  | TimerFired => on_timer write_error a
  end.

(** The signals in the order given, up to the first uncaught exception. *)
Definition on_signals (write_error : Res -> option JsError) (a : Attempt)
    (ss : list Signal) : M unit :=
  for_each ss (on_signal write_error a).

(** The responses sent on [res] in a trace. *)
Definition responses (res : Res) (t : list Effect) : list Effect :=
  filter (responds_on res) t.

Definition is_timer (s : Signal) : bool :=
  match s with TimerFired => true | _ => false end.

(** The exception of [tunnelProcess.kill()] on an empty slot. *)
Definition kill_of_null : JsError :=
  TypeError (lit "Cannot read properties of null (reading 'kill')").

Definition is_kill (e : Effect) : bool :=
  match e with Kill _ _ => true | _ => false end.

Definition is_exec (e : Effect) : bool :=
  match e with Exec _ => true | _ => false end.

(** The effects a run added to the trace it started from. *)
Definition added (before after : Machine) : list Effect :=
  skipn (List.length (trace before)) (trace after).

(** [sseClients.add(res)] *)
Definition set_add (res : Res) (l : list Res) : list Res :=
  if existsb (Nat.eqb res) l then l else l ++ [res].

(** The snapshot of an empty slot. *)
Definition disconnected_status : Status :=
  {| st_status := lit "disconnected"; st_env := JNull; st_pid := None;
     st_localPort := None |}.

(** No space in the string. *)
Definition spaceless (w : jstring) : bool :=
  forallb (fun c => negb (c =? 32)%N) w.

(** The arguments [tsh] is started with for a port and a remote host. *)
Definition tunnel_args (chosenPort : Z) (host : jstring) : list jstring :=
  [ lit "ssh"; lit "-N"; lit "-L";
    show_Z chosenPort ++ lit ":" ++ host ++ lit ":4000";
    lit "devops@cdx-sit-nonprod-pci-acn-bastion-host" ].

Definition is_spawn (e : Effect) : bool :=
  match e with Spawn _ _ _ => true | _ => false end.

(** A request whose environment is "constructor". *)
Definition connect_constructor : JSValue :=
  JObj [(lit "env", JStr (lit "constructor"))].

(** A request whose environment is the one-element array ["sit"]. *)
Definition connect_sit_array : JSValue :=
  JObj [(lit "env", JArr [JStr (lit "sit")])].

(** The exception of [env.toUpperCase()] on a truthy value that is no
    string. *)
Definition no_toUpperCase : JsError :=
  TypeError (lit "env.toUpperCase is not a function").

(** The exception of [env.toUpperCase()] on any value that is no
    string. *)
Definition toUpperCase_error (env : JSValue) : JsError :=
  match env with
  | JUndefined =>
      TypeError (lit "Cannot read properties of undefined (reading 'toUpperCase')")
  | JNull =>
      TypeError (lit "Cannot read properties of null (reading 'toUpperCase')")
  | _ => no_toUpperCase
  end.

Definition launch_failed (data : jstring) : Body :=
  Failure (lit "Failed to establish SSH tunnel: " ++ data).

Definition spawn_failed : Body :=
  Failure (lit "Failed to spawn SSH tunnel process.").

End ExtraSpec.

Module ValidatorExamples.
Import JS Regex Validator.

Example accepts_trailing_comment :
  isSafeSelectQuery (JStr (lit "SELECT * FROM t; -- comment")) = true.
Proof. vm_compute. reflexivity. Qed.

Example rejects_two_statements :
  isSafeSelectQuery (JStr (lit "SELECT 1; SELECT 2")) = false.
Proof. vm_compute. reflexivity. Qed.

Example accepts_subquery :
  isSafeSelectQuery
    (JStr (lit "select * from t where x=(select max(id) from t2)")) = true.
Proof. vm_compute. reflexivity. Qed.

Example rejects_drop : isSafeSelectQuery (JStr (lit "DROP TABLE t")) = false.
Proof. vm_compute. reflexivity. Qed.

Example rejects_update : isSafeSelectQuery (JStr (lit "update t set x=1")) = false.
Proof. vm_compute. reflexivity. Qed.

Example strips_block_comment :
  stripped (lit "/* a */ select /* b
 c */ 1 from t -- x") = lit "select  1 from t".
Proof. vm_compute. reflexivity. Qed.

End ValidatorExamples.

(* ===================================================================== *)
(** ** The matcher against a declarative reading of the patterns *)
(* ===================================================================== *)

Module RegexFacts.

Import JS Regex RegexSpec.
Local Open Scope N_scope.

Create HintDb re_db.
#[local] Hint Constructors matches : re_db.

Section Soundness.

Variable R : Type.

Lemma star_greedy_sound cs (k : cont R) s : forall p x,
  star_greedy cs k p s = Some x ->
  exists p' s', matches (Star true cs) p s p' s' /\ k p' s' = Some x.
Proof.
  induction s as [|c s IH]; intros p x H; simpl in H.
  - eauto with re_db.
  - destruct (cset_mem cs c) eqn:Hc; [|eauto with re_db].
    destruct (star_greedy cs k (Some c) s) eqn:Hs.
    + inversion H; subst. apply IH in Hs. destruct Hs as (p' & s' & Hm & Hk).
      eauto with re_db.
    + eauto with re_db.
Qed.

Lemma star_lazy_sound cs (k : cont R) s : forall p x,
  star_lazy cs k p s = Some x ->
  exists p' s', matches (Star false cs) p s p' s' /\ k p' s' = Some x.
Proof.
  induction s as [|c s IH]; intros p x H; simpl in H.
  - destruct (k p []) eqn:Hk; [|discriminate]. inversion H; subst.
    eauto with re_db.
  - destruct (k p (c :: s)) eqn:Hk.
    + inversion H; subst. eauto with re_db.
    + destruct (cset_mem cs c) eqn:Hc; [|discriminate].
      apply IH in H. destruct H as (p' & s' & Hm & Hk').
      eauto with re_db.
Qed.

Lemma star_greedy_complete cs (k : cont R) g p s p' s' :
  matches (Star g cs) p s p' s' ->
  forall x, k p' s' = Some x -> exists y, star_greedy cs k p s = Some y.
Proof.
  intros Hm. remember (Star g cs) as r eqn:Hr.
  induction Hm; inversion Hr; subst; intros x Hk.
  - destruct s as [|c s]; simpl; [eauto|].
    destruct (cset_mem cs c); [|eauto].
    destruct (star_greedy cs k (Some c) s); eauto.
  - simpl. rewrite H.
    destruct (IHHm eq_refl x Hk) as (y & Hy). rewrite Hy. eauto.
Qed.

Lemma star_lazy_complete cs (k : cont R) g p s p' s' :
  matches (Star g cs) p s p' s' ->
  forall x, k p' s' = Some x -> exists y, star_lazy cs k p s = Some y.
Proof.
  intros Hm. remember (Star g cs) as r eqn:Hr.
  induction Hm; inversion Hr; subst; intros x Hk.
  - destruct s as [|c s]; simpl; rewrite Hk; eauto.
  - simpl. destruct (k p (c :: s)); [eauto|].
    rewrite H. eauto.
Qed.

End Soundness.

(** Whatever the matcher returns comes from a declarative match. *)
Lemma mt_sound R r : forall (k : cont R) p s x,
  mt r p s k = Some x ->
  exists p' s', matches r p s p' s' /\ k p' s' = Some x.
Proof.
  induction r; intros k p s x H; simpl in H.
  - eauto with re_db.
  - destruct s as [|c s]; [discriminate|].
    destruct (cset_mem cs c) eqn:Hc; [|discriminate]. eauto with re_db.
  - apply IHr1 in H. destruct H as (p1 & s1 & H1 & H).
    apply IHr2 in H. destruct H as (p2 & s2 & H2 & H).
    eauto with re_db.
  - destruct (mt r1 p s k) eqn:H1.
    + inversion H; subst. apply IHr1 in H1.
      destruct H1 as (p' & s' & Hm & Hk). eauto with re_db.
    + apply IHr2 in H. destruct H as (p' & s' & Hm & Hk). eauto with re_db.
  - destruct greedy.
    + apply star_greedy_sound; assumption.
    + apply star_lazy_sound; assumption.
  - destruct p; [discriminate|]. eauto with re_db.
  - destruct s; [|discriminate]. eauto with re_db.
  - destruct (xorb (word_opt p) (word_opt (hd_error s))) eqn:Hx; [|discriminate].
    eauto with re_db.
Qed.

(** Backtracking loses no match: if some declarative match lets the
    continuation succeed, the matcher succeeds. *)
Lemma mt_complete R r p s p' s' :
  matches r p s p' s' ->
  forall (k : cont R) x, k p' s' = Some x -> exists y, mt r p s k = Some y.
Proof.
  intros Hm. induction Hm; intros k x Hk; cbn [mt].
  - eauto.
  - rewrite H. eauto.
  - destruct (IHHm2 k x Hk) as (y & Hy).
    apply (IHHm1 (fun prev' s' => mt r2 prev' s' k) y Hy).
  - destruct (IHHm k x Hk) as (y & Hy). rewrite Hy. eauto.
  - destruct (mt r1 p s k); [eauto|]. eauto.
  - destruct g; cbn [mt].
    + eapply star_greedy_complete with (g := true); [apply m_star_stop|exact Hk].
    + eapply star_lazy_complete with (g := false); [apply m_star_stop|exact Hk].
  - destruct g; cbn [mt].
    + eapply star_greedy_complete with (g := true);
        [eapply m_star_more; eassumption|exact Hk].
    + eapply star_lazy_complete with (g := false);
        [eapply m_star_more; eassumption|exact Hk].
  - eauto.
  - eauto.
  - rewrite H. eauto.
Qed.

Lemma match_len_some r p s :
  (exists n, match_len r p s = Some n) <-> exists p' s', matches r p s p' s'.
Proof.
  unfold match_len. split.
  - intros (n & H). apply mt_sound in H. destruct H as (p' & s' & Hm & _). eauto.
  - intros (p' & s' & Hm).
    destruct (@mt_complete nat r p s p' s' Hm
                (fun _ rest => Some (List.length s - List.length rest)%nat)
                _ eq_refl) as (y & Hy).
    eauto.
Qed.

Lemma prev_after_cons p c m : prev_after p (c :: m) = prev_after (Some c) m.
Proof.
  unfold prev_after. simpl. destruct (rev m) eqn:E; simpl; reflexivity.
Qed.

(** [test] succeeds exactly when the pattern matches at some position. *)
Lemma test_from_spec r s : forall p,
  test_from r p s = true <->
  exists pre suf p' s',
    s = pre ++ suf /\ matches r (prev_after p pre) suf p' s'.
Proof.
  induction s as [|c s IH]; intros p; simpl.
  - destruct (match_len r p []) eqn:E.
    + split; [intros _|reflexivity].
      destruct (proj1 (match_len_some r p [])) as (p' & s' & Hm); [eauto|].
      exists [], [], p', s'. split; [reflexivity|exact Hm].
    + split; [discriminate|].
      intros (pre & suf & p' & s' & Hs & Hm).
      symmetry in Hs. apply app_eq_nil in Hs. destruct Hs; subst.
      destruct (proj2 (match_len_some r p [])) as (n & Hn); [eauto|].
      unfold prev_after in Hm; simpl in Hm. congruence.
  - destruct (match_len r p (c :: s)) eqn:E.
    + split; [intros _|reflexivity].
      destruct (proj1 (match_len_some r p (c :: s))) as (p' & s' & Hm); [eauto|].
      exists [], (c :: s), p', s'. split; [reflexivity|exact Hm].
    + rewrite IH. split.
      * intros (pre & suf & p' & s' & Hs & Hm).
        exists (c :: pre), suf, p', s'. split; [simpl; congruence|].
        rewrite prev_after_cons. exact Hm.
      * intros (pre & suf & p' & s' & Hs & Hm).
        destruct pre as [|c' pre].
        -- simpl in Hs. subst suf.
           destruct (proj2 (match_len_some r p (c :: s))) as (n & Hn); [eauto|].
           congruence.
        -- simpl in Hs. inversion Hs; subst.
           rewrite prev_after_cons in Hm. eauto 6.
Qed.

Lemma test_spec r s :
  test r s = true <->
  exists pre suf p' s',
    s = pre ++ suf /\ matches r (prev_after None pre) suf p' s'.
Proof. apply test_from_spec. Qed.

End RegexFacts.

(* ===================================================================== *)
(** ** Properties of isSafeSelectQuery *)
(* ===================================================================== *)

Module ValidatorFacts.

Import JS Regex Validator RegexSpec ValidatorSpec RegexFacts.
Local Open Scope N_scope.

Lemma same_letter_mem l c : cset_mem (CLitI l) c = true <-> same_letter l c.
Proof.
  unfold same_letter; simpl. rewrite orb_true_iff, !N.eqb_eq. reflexivity.
Qed.

Lemma same_letter_word l c : lower_case l -> same_letter l c -> is_word c = true.
Proof.
  unfold lower_case, same_letter, is_word. intros Hl [-> | ->].
  - replace ((97 <=? l) && (l <=? 122)) with true; [apply orb_true_r|].
    symmetry. apply andb_true_iff. split; apply N.leb_le; lia.
  - replace ((65 <=? l - 32) && (l - 32 <=? 90)) with true;
      [rewrite orb_true_r; reflexivity|].
    symmetry. apply andb_true_iff. split; apply N.leb_le; lia.
Qed.

Lemma prev_after_app p a b :
  prev_after p (a ++ b) = prev_after (prev_after p a) b.
Proof.
  revert p. induction a as [|c a IH]; intros p; simpl.
  - reflexivity.
  - rewrite !prev_after_cons. apply IH.
Qed.

Lemma matches_wordI w : forall p s p' s',
  matches (wordI w) p s p' s' <->
  exists m, s = m ++ s' /\ spells w m /\ p' = prev_after p m.
Proof.
  induction w as [|l w IH]; intros p s p' s'; simpl.
  - split.
    + intros H. inversion H; subst. exists []. repeat split. constructor.
    + intros (m & -> & Hs & ->). inversion Hs; subst. constructor.
  - split.
    + intros H. inversion H; subst.
      match goal with Hc : matches (Chr _) _ _ _ _ |- _ => inversion Hc; subst end.
      match goal with Hw : matches (wordI _) _ _ _ _ |- _ =>
        apply IH in Hw; destruct Hw as (m & -> & Hs & ->) end.
      exists (c :: m). split; [reflexivity|]. split.
      * constructor; [apply same_letter_mem; assumption|assumption].
      * rewrite prev_after_cons. reflexivity.
    + intros (m & -> & Hs & ->). inversion Hs as [|l' c w' m' Hc Hs']; subst.
      simpl. eapply m_cat.
      * apply m_chr. apply same_letter_mem. exact Hc.
      * apply IH. exists m'. rewrite prev_after_cons. auto.
Qed.

Lemma spells_prev_word w m :
  Forall lower_case w -> spells w m ->
  forall p, (m = [] -> word_opt p = true) -> word_opt (prev_after p m) = true.
Proof.
  intros Hl Hs. induction Hs as [|l c w' m' Hc Hs IH]; intros p Hp.
  - apply Hp. reflexivity.
  - rewrite prev_after_cons. inversion Hl; subst.
    apply IH; [assumption|]. intros _. simpl.
    eapply same_letter_word; eassumption.
Qed.

Lemma spells_nonempty_word w m p :
  w <> [] -> Forall lower_case w -> spells w m ->
  word_opt (hd_error m) = true /\ word_opt (prev_after p m) = true.
Proof.
  intros Hne Hl Hs. split.
  - destruct Hs as [|l c w' m' Hc Hs]; [congruence|]. simpl.
    inversion Hl; subst. eapply same_letter_word; eassumption.
  - eapply spells_prev_word; try eassumption.
    intros ->. inversion Hs; subst. congruence.
Qed.

(** A pattern between two [\b]. *)
Lemma matches_between_boundaries body p s p' s' :
  matches (Cat WordB (Cat body WordB)) p s p' s' <->
  xorb (word_opt p) (word_opt (hd_error s)) = true /\
  matches body p s p' s' /\
  xorb (word_opt p') (word_opt (hd_error s')) = true.
Proof.
  split.
  - intros H. inversion H; subst.
    match goal with Hb : matches WordB _ _ _ _ |- _ => inversion Hb; subst end.
    match goal with Hc : matches (Cat body WordB) _ _ _ _ |- _ =>
      inversion Hc; subst end.
    match goal with Hb : matches WordB _ _ p' s' |- _ => inversion Hb; subst end.
    auto.
  - intros (H1 & H2 & H3).
    eapply m_cat; [apply m_wordb; exact H1|].
    eapply m_cat; [exact H2|apply m_wordb; exact H3].
Qed.

Lemma hd_error_app_nonempty (m rest : jstring) :
  m <> [] -> hd_error (m ++ rest) = hd_error m.
Proof. destruct m; [congruence|reflexivity]. Qed.

(** [\bw\b] under the [i] flag, for a lower-case word [w]. *)
Lemma matches_keyword w p s p' s' :
  w <> [] -> Forall lower_case w ->
  (matches (Cat WordB (Cat (wordI w) WordB)) p s p' s' <->
   exists m, s = m ++ s' /\ spells w m /\ word_opt p = false /\
             word_opt (hd_error s') = false /\ p' = prev_after p m).
Proof.
  intros Hne Hl. rewrite matches_between_boundaries, matches_wordI. split.
  - intros (H1 & (m & -> & Hs & ->) & H3).
    destruct (spells_nonempty_word p Hne Hl Hs) as (Hh & Hp).
    assert (Hm : m <> []) by (intros ->; discriminate Hh).
    rewrite (hd_error_app_nonempty _ Hm), Hh in H1. rewrite Hp in H3.
    exists m. repeat split; try assumption.
    + destruct (word_opt p); [discriminate|reflexivity].
    + destruct (word_opt (hd_error s')); [discriminate|reflexivity].
  - intros (m & -> & Hs & Hp & Hr & ->).
    destruct (spells_nonempty_word p Hne Hl Hs) as (Hh & Hq).
    assert (Hm : m <> []) by (intros ->; discriminate Hh).
    rewrite (hd_error_app_nonempty _ Hm), Hh, Hp, Hq, Hr.
    repeat split; eauto.
Qed.

Lemma matches_alts rs p s p' s' :
  rs <> [] ->
  (matches (alts rs) p s p' s' <-> exists r, In r rs /\ matches r p s p' s').
Proof.
  induction rs as [|r rs IH]; [congruence|]. intros _.
  destruct rs as [|r2 rs].
  - simpl. split; [eauto|]. intros (r' & [<- | []] & H). exact H.
  - change (alts (r :: r2 :: rs)) with (Alt r (alts (r2 :: rs))). split.
    + intros H.
      inversion H as [ | | | ? ? ? ? ? ? Ha | ? ? ? ? ? ? Ha | | | | | ]; subst.
      * exists r. split; [left; reflexivity|assumption].
      * apply IH in Ha; [|discriminate]. destruct Ha as (r' & Hin & Hm).
        exists r'. split; [right; exact Hin|exact Hm].
    + intros (r' & [<- | Hin] & Hm).
      * apply m_alt_l. exact Hm.
      * apply m_alt_r. apply IH; [discriminate|]. eauto.
Qed.

Lemma test_keyword w text :
  w <> [] -> Forall lower_case w ->
  (test (Cat WordB (Cat (wordI w) WordB)) text = true <-> contains_keyword w text).
Proof.
  intros Hne Hl. rewrite test_spec. unfold contains_keyword. split.
  - intros (pre & suf & p' & s' & -> & Hm).
    apply (matches_keyword _ _ _ _ Hne Hl) in Hm.
    destruct Hm as (m & -> & Hs & Hp & Hr & _). exists pre, m, s'. auto.
  - intros (pre & m & rest & -> & Hs & Hp & Hr).
    exists pre, (m ++ rest), (prev_after (prev_after None pre) m), rest.
    split; [reflexivity|]. apply (matches_keyword _ _ _ _ Hne Hl).
    exists m. auto.
Qed.

Lemma lower_case_lit (w : string) :
  forallb (fun c => (97 <=? c) && (c <=? 122)) (lit w) = true ->
  Forall lower_case (lit w).
Proof.
  intros H. apply Forall_forall. intros c Hc.
  rewrite forallb_forall in H. specialize (H c Hc).
  apply andb_true_iff in H. destruct H as (H1 & H2).
  apply N.leb_le in H1. apply N.leb_le in H2. split; assumption.
Qed.

(** [^w\b] *)
Lemma matches_at_start body p s p' s' :
  matches (Cat Bol (Cat body WordB)) p s p' s' <->
  p = None /\ matches body None s p' s' /\
  xorb (word_opt p') (word_opt (hd_error s')) = true.
Proof.
  split.
  - intros H. inversion H as [ | | ? ? ? ? ? ? ? ? Hb Hc | | | | | | | ]; subst.
    inversion Hb; subst.
    inversion Hc as [ | | ? ? ? ? ? ? ? ? Hw Hb2 | | | | | | | ]; subst.
    inversion Hb2; subst. auto.
  - intros (-> & Hw & Hx).
    eapply m_cat; [apply m_bol|]. eapply m_cat; [exact Hw|apply m_wordb; exact Hx].
Qed.

Lemma prev_after_some pre : forall c, prev_after (Some c) pre <> None.
Proof.
  induction pre as [|d pre IH]; intros c.
  - unfold prev_after; simpl. discriminate.
  - rewrite prev_after_cons. apply IH.
Qed.

Lemma prev_after_some_cons p c pre : prev_after p (c :: pre) <> None.
Proof. rewrite prev_after_cons. apply prev_after_some. Qed.

Lemma test_start_keyword w text :
  w <> [] -> Forall lower_case w ->
  (test (Cat Bol (Cat (wordI w) WordB)) text = true <-> starts_with_keyword w text).
Proof.
  intros Hne Hl. rewrite test_spec. unfold starts_with_keyword. split.
  - intros (pre & suf & p' & s' & -> & Hm).
    apply matches_at_start in Hm. destruct Hm as (Hp & Hw & Hx).
    destruct pre as [|c pre]; [|exfalso; eapply prev_after_some_cons; eassumption].
    apply matches_wordI in Hw. destruct Hw as (m & -> & Hs & ->).
    destruct (spells_nonempty_word None Hne Hl Hs) as (_ & Hq).
    rewrite Hq in Hx. exists m, s'. repeat split; [assumption|].
    destruct (word_opt (hd_error s')); [discriminate|reflexivity].
  - intros (m & rest & -> & Hs & Hr).
    destruct (spells_nonempty_word None Hne Hl Hs) as (_ & Hq).
    exists [], (m ++ rest), (prev_after None m), rest. split; [reflexivity|].
    apply matches_at_start. split; [reflexivity|]. split.
    + apply matches_wordI. exists m. auto.
    + rewrite Hq, Hr. reflexivity.
Qed.

(** [/^select\b/i] accepts exactly the texts that start with the keyword. *)
Lemma test_select text :
  test re_select text = true <-> starts_with_keyword (lit "select") text.
Proof.
  apply test_start_keyword; [discriminate|apply lower_case_lit; reflexivity].
Qed.

(** [/\bfrom\b/i] *)
Lemma test_from_keyword text :
  test re_from text = true <-> contains_keyword (lit "from") text.
Proof.
  apply test_keyword; [discriminate|apply lower_case_lit; reflexivity].
Qed.

(** The forbidden pattern rejects nothing but, and every, whole-word
    occurrence of a forbidden keyword. *)
Lemma test_forbidden text :
  test forbidden text = true <->
  exists w, In w forbidden_words /\ contains_keyword (lit w) text.
Proof.
  assert (Hall : forall w, In w forbidden_words ->
                   lit w <> [] /\ Forall lower_case (lit w)).
  { intros w Hin. unfold forbidden_words in Hin. simpl in Hin.
    repeat (destruct Hin as [<- | Hin];
            [split; [discriminate|apply lower_case_lit; reflexivity]|]).
    contradiction. }
  rewrite test_spec. unfold forbidden. split.
  - intros (pre & suf & p' & s' & -> & Hm).
    apply matches_between_boundaries in Hm. destruct Hm as (H1 & Hm & H3).
    apply matches_alts in Hm; [|discriminate].
    destruct Hm as (r & Hin & Hm). apply in_map_iff in Hin.
    destruct Hin as (w & <- & Hin). exists w. split; [exact Hin|].
    destruct (Hall w Hin) as (Hne & Hl).
    apply test_keyword; [assumption..|]. apply test_spec.
    exists pre, suf, p', s'. split; [reflexivity|].
    apply matches_between_boundaries. auto.
  - intros (w & Hin & Hc). destruct (Hall w Hin) as (Hne & Hl).
    apply (test_keyword _ Hne Hl) in Hc. apply test_spec in Hc.
    destruct Hc as (pre & suf & p' & s' & -> & Hm).
    apply matches_between_boundaries in Hm. destruct Hm as (H1 & Hm & H3).
    exists pre, suf, p', s'. split; [reflexivity|].
    apply matches_between_boundaries. split; [exact H1|]. split; [|exact H3].
    apply matches_alts; [discriminate|].
    exists (wordI (lit w)). split; [|exact Hm].
    apply in_map_iff. eauto.
Qed.

(** [(text.match(/;/g) || []).length] counts the semicolons. *)
Lemma count_semicolons s : forall p,
  count_from re_semicolon p s 0 = count_occ N.eq_dec s semicolon.
Proof.
  induction s as [|c s IH]; intros p.
  - reflexivity.
  - cbn [count_from]. unfold match_len, re_semicolon. cbn [mt cset_mem].
    change (List.length (c :: s)) with (S (List.length s)).
    replace (S (List.length s) - List.length s)%nat with 1%nat by lia.
    cbn [count_occ]. unfold semicolon.
    destruct (N.eq_dec c 59) as [->|Hne].
    + rewrite N.eqb_refl. rewrite IH. reflexivity.
    + destruct (N.eqb_spec c 59) as [E|_]; [contradiction|].
      rewrite IH. reflexivity.
Qed.

Lemma trimStart_head s c r : trimStart s = c :: r -> is_space c = false.
Proof.
  induction s as [|d s IH]; simpl; [discriminate|].
  destruct (is_space d) eqn:Hd; [exact IH|].
  intros H. inversion H; subst. exact Hd.
Qed.

(** A trimmed text does not end in white space. *)
Lemma trim_last s init c : trim s = init ++ [c] -> is_space c = false.
Proof.
  unfold trim, trimEnd. intros H.
  apply (f_equal (@rev N)) in H. rewrite rev_involutive, rev_app_distr in H.
  simpl in H. eapply trimStart_head. exact H.
Qed.

Lemma matches_star cs g p s p' s' :
  matches (Star g cs) p s p' s' ->
  exists m, s = m ++ s' /\ Forall (fun c => cset_mem cs c = true) m.
Proof.
  intros H. remember (Star g cs) as r eqn:Hr.
  induction H; inversion Hr; subst.
  - exists []. split; [reflexivity|constructor].
  - destruct (IHmatches eq_refl) as (m & -> & Hm).
    exists (c :: m). split; [reflexivity|constructor; assumption].
Qed.

(** [/;\s*$/] on a trimmed text: the last character is the semicolon. *)
Lemma test_semicolon_end s :
  test re_semicolon_end (trim s) = true ->
  exists init, trim s = init ++ [semicolon].
Proof.
  rewrite test_spec. intros (pre & suf & p' & s' & Ht & Hm).
  unfold re_semicolon_end in Hm.
  inversion Hm as [ | | ? ? ? ? ? ? ? ? Hc Hr | | | | | | | ]; subst.
  inversion Hc as [ | ? ? ? ? Hmem | | | | | | | | ]; subst.
  inversion Hr as [ | | ? ? ? ? ? ? ? ? Hsp He | | | | | | | ]; subst.
  inversion He; subst.
  apply matches_star in Hsp. destruct Hsp as (sp & -> & Hall).
  simpl in Hmem. apply N.eqb_eq in Hmem. subst c.
  rewrite app_nil_r in Ht.
  destruct sp as [|d sp] using rev_ind.
  - exists pre. exact Ht.
  - exfalso. clear IHsp.
    apply Forall_app in Hall. destruct Hall as (_ & Hd).
    inversion Hd as [|? ? Hd' _]; subst. simpl in Hd'.
    assert (Ht' : trim s = (pre ++ 59 :: sp) ++ [d])
      by (rewrite Ht, <- app_assoc; reflexivity).
    apply trim_last in Ht'. congruence.
Qed.

(** C7.  Every query the validator accepts is a string whose text,
    after removal of block comments and line comments and trimming,
    starts with the keyword SELECT (any case), contains the keyword FROM,
    contains none of UPDATE, DELETE, INSERT, DROP, ALTER, CREATE,
    TRUNCATE, GRANT, REVOKE as a whole word, and contains at most one
    semicolon, which, if present, is its last character. *)
Theorem accepted_query_shape (query : JSValue) :
  isSafeSelectQuery query = true ->
  exists s, query = JStr s /\
    let text := stripped s in
    starts_with_keyword (lit "select") text /\
    contains_keyword (lit "from") text /\
    (forall w, In w forbidden_keywords -> ~ contains_keyword (lit w) text) /\
    (count_occ N.eq_dec text semicolon <= 1)%nat /\
    (In semicolon text -> exists init, text = init ++ [semicolon]).
Proof.
  destruct query as [| | | | |s| |]; try discriminate. simpl.
  unfold isSafeSelectQuery_string. intros H. exists s. split; [reflexivity|].
  destruct (test re_select (stripped s)) eqn:Hsel; [|discriminate].
  destruct (test re_from (stripped s)) eqn:Hfrom; [|discriminate].
  destruct (test forbidden (stripped s)) eqn:Hforb; [discriminate|].
  simpl in H. unfold count_matches in H. rewrite count_semicolons in H.
  destruct (Nat.ltb_spec 1 (count_occ N.eq_dec (stripped s) semicolon))
    as [|Hle]; [discriminate|].
  split; [apply test_select; exact Hsel|].
  split; [apply test_from_keyword; exact Hfrom|].
  split.
  { intros w Hin Hc.
    assert (Ht : test forbidden (stripped s) = true)
      by (apply test_forbidden; exists w; split; assumption).
    congruence. }
  split; [exact Hle|].
  intros Hin. apply (count_occ_In N.eq_dec) in Hin.
  assert (Hone : count_occ N.eq_dec (stripped s) semicolon = 1%nat) by lia.
  rewrite Hone in H. simpl in H.
  destruct (test re_semicolon_end (stripped s)) eqn:Hend; [|discriminate].
  unfold stripped in *. apply test_semicolon_end. exact Hend.
Qed.

(** The theorem at the query "SELECT * FROM t; -- comment". *)
Lemma accepted_query_shape_witness :
  isSafeSelectQuery (JStr (lit "SELECT * FROM t; -- comment")) = true /\
  exists s, JStr (lit "SELECT * FROM t; -- comment") = JStr s /\
    let text := stripped s in
    starts_with_keyword (lit "select") text /\
    contains_keyword (lit "from") text /\
    (forall w, In w forbidden_keywords -> ~ contains_keyword (lit w) text) /\
    (count_occ N.eq_dec text semicolon <= 1)%nat /\
    (In semicolon text -> exists init, text = init ++ [semicolon]).
Proof.
  split.
  - vm_compute. reflexivity.
  - apply (accepted_query_shape (JStr (lit "SELECT * FROM t; -- comment"))).
    vm_compute. reflexivity.
Defined.

End ValidatorFacts.

(* ===================================================================== *)
(** ** Properties of the handlers *)
(* ===================================================================== *)

Module ServerFacts.

Import JS Server ServerSpec ExtraSpec.
Local Open Scope js_scope.

Lemma for_each_write write_error payload l : forall v t,
  for_each l (fun res => try_catch (sse_write write_error res payload)
                                   (fun _ => ret tt))
    {| vars := v; trace := t |}
  = Return tt {| vars := v;
                 trace := t ++ map (fun res => SseWrite res payload)
                                   (filter (write_ok write_error) l) |}.
Proof.
  induction l as [|r l IH]; intros v t.
  - simpl. rewrite app_nil_r. reflexivity.
  - cbn [for_each]. unfold bind at 1. unfold try_catch, sse_write, write_ok.
    cbn [filter]. destruct (write_error r) as [e|].
    + unfold throw, ret. rewrite IH. reflexivity.
    + unfold emit. cbn [vars trace]. rewrite IH.
      cbn [map]. rewrite <- app_assoc. reflexivity.
Qed.

(** A broadcast always returns, leaves the variables alone and appends
    the successful writes. *)
Lemma broadcastStatus_run write_error m :
  broadcastStatus write_error m = Return tt (push (delivered write_error (vars m)) m).
Proof.
  destruct m as [v t]. unfold broadcastStatus, bind, read. cbn [vars].
  apply for_each_write.
Qed.

(** Three observers, the second one failing: the broadcast returns, the
    other two receive the snapshot, and the failing observer is still a
    member of [sseClients] afterwards. *)
Lemma broadcast_keeps_failing_observer :
  flaky 2 2 = Some (Error (lit "write after end")) /\
  exists m',
    broadcastStatus (flaky 2) (observed [1; 2; 3]) = Return tt m' /\
    trace m' = [SseWrite 1 (getCurrentStatus (vars (observed [1; 2; 3])));
                SseWrite 3 (getCurrentStatus (vars (observed [1; 2; 3])))] /\
    In 2 (sseClients (vars m')).
Proof.
  split; [reflexivity|]. eexists. split; [apply broadcastStatus_run|].
  split; [reflexivity|]. simpl. auto.
Qed.

(** C8 (amended).  A broadcast never raises: whatever streams fail, it
    returns, every observer whose write goes through receives the
    current snapshot (in the order of the set), and the observer set is
    left as it was, the failing observers included.  An observer leaves
    the set through the close handler of its stream. *)
Theorem broadcast_failure_isolated write_error m :
  exists m',
    broadcastStatus write_error m = Return tt m' /\
    vars m' = vars m /\
    trace m' =
      trace m ++ map (fun res => SseWrite res (getCurrentStatus (vars m)))
                     (filter (write_ok write_error) (sseClients (vars m))) /\
    forall res, exists m'',
      events_close res m' = Return tt m'' /\
      ~ In res (sseClients (vars m'')) /\
      forall r, r <> res ->
        (In r (sseClients (vars m'')) <-> In r (sseClients (vars m))).
Proof.
  exists (push (delivered write_error (vars m)) m).
  split; [apply broadcastStatus_run|]. split; [reflexivity|].
  split; [reflexivity|]. intros res. eexists. split; [reflexivity|].
  cbn. split.
  - rewrite filter_In. intros (_ & H). rewrite Nat.eqb_refl in H. discriminate.
  - intros r Hr. rewrite filter_In. split; [tauto|]. intros H. split; [exact H|].
    destruct (Nat.eqb_spec r res); [contradiction|reflexivity].
Qed.

(** *** Port choice *)

Lemma scan_find (isPortFree : Z -> bool) ps (d : Z) :
  scan isPortFree ps d = match find isPortFree ps with Some p => p | None => d end.
Proof.
  induction ps as [|p ps IH]; simpl; [reflexivity|].
  destruct (isPortFree p); [reflexivity|exact IH].
Qed.

Lemma scan_first (isPortFree : Z -> bool) (d : Z) : forall n k (i : nat),
  (i < n)%nat ->
  isPortFree (d + Z.of_nat (k + i))%Z = true ->
  (forall j, (j < i)%nat -> isPortFree (d + Z.of_nat (k + j))%Z = false) ->
  scan isPortFree (map (fun i => (d + Z.of_nat i)%Z) (seq k n)) d
  = (d + Z.of_nat (k + i))%Z.
Proof.
  induction n as [|n IH]; intros k i Hi Hfree Hbusy; [lia|].
  cbn [seq map scan]. destruct i as [|i].
  - rewrite Nat.add_0_r in Hfree. rewrite Hfree. rewrite Nat.add_0_r. reflexivity.
  - rewrite <- (Nat.add_0_r k) at 1. rewrite (Hbusy 0%nat) by lia.
    replace (k + S i)%nat with (S k + i)%nat in * by lia.
    apply IH; [lia|exact Hfree|].
    intros j Hj. replace (S k + j)%nat with (k + S j)%nat by lia.
    apply Hbusy. lia.
Qed.

Lemma scan_none (isPortFree : Z -> bool) (d : Z) : forall n k,
  (forall j, (j < n)%nat -> isPortFree (d + Z.of_nat (k + j))%Z = false) ->
  scan isPortFree (map (fun i => (d + Z.of_nat i)%Z) (seq k n)) d = d.
Proof.
  induction n as [|n IH]; intros k Hbusy; [reflexivity|].
  cbn [seq map scan]. rewrite <- (Nat.add_0_r k) at 1.
  rewrite (Hbusy 0%nat) by lia. apply IH.
  intros j Hj. replace (S k + j)%nat with (k + S j)%nat by lia.
  apply Hbusy. lia.
Qed.

(** Every port of the range busy: the scan falls back to the preferred
    port 4085, the subprocess is spawned on it, and no response has been
    sent when the block ends. *)
Lemma no_free_port_still_launches :
  exists a m',
    attempt (fun _ => None) (fun _ => false) 1 connect_sit
            false [] false [] [] child1 started = Return (Some a) m' /\
    a_chosenPort a = 4085%Z /\
    tunnelProcess (vars m') = Some child1 /\
    trace m' =
      [ Exec loginCommand; Exec statusCommand;
        Spawn child1 (lit "tsh")
          [ lit "ssh"; lit "-N"; lit "-L";
            lit "4085:cdx-sit2-crs-tidb.int-np.cardx.co.th:4000";
            lit "devops@cdx-sit-nonprod-pci-acn-bastion-host" ] ].
Proof.
  eexists. eexists. split; [vm_compute; reflexivity|].
  split; [reflexivity|]. split; reflexivity.
Qed.

(** C3 (amended).  The port scan returns the first free port of
    preferred, preferred+1, ..., preferred+50; when none of them is free
    it returns the preferred port itself.  In both cases the block goes
    on: it publishes the chosen port, broadcasts, and spawns the
    subprocess on that port, without sending any response. *)
Theorem tunnel_port_choice write_error isPortFree c statusStdout child m :
  let d := defaultLocalPort (p_profile c) in
  let chosen := choosePortForTunnel isPortFree d in
  let words := split_space (sshTunnelCommand chosen (remoteHost (p_profile c))) in
  chosen = match find isPortFree (range d) with Some p => p | None => d end /\
  (forall i, (0 <= i <= 50)%Z -> isPortFree (d + i)%Z = true ->
     (forall j, (0 <= j < i)%Z -> isPortFree (d + j)%Z = false) ->
     chosen = (d + i)%Z) /\
  ((forall i, (0 <= i <= 50)%Z -> isPortFree (d + i)%Z = false) -> chosen = d) /\
  exists a m',
    create_tunnel write_error isPortFree c statusStdout child m = Return a m' /\
    a_chosenPort a = chosen /\ a_res a = p_res c /\
    tunnelLocalPort (vars m') = Some chosen /\
    tunnelProcess (vars m') = Some child /\
    exists writes,
      Forall (fun e => exists r s, e = SseWrite r s) writes /\
      trace m' = trace m ++ writes ++ [Spawn child (hd [] words) (tl words)].
Proof.
  intros d chosen words. split; [apply scan_find|]. split; [|split].
  - intros i Hi Hfree Hbusy. unfold chosen, choosePortForTunnel, range.
    replace i with (Z.of_nat (0 + Z.to_nat i)) in * by lia.
    apply scan_first; [lia|exact Hfree|].
    intros j Hj. simpl. apply Hbusy. lia.
  - intros Hbusy. unfold chosen, choosePortForTunnel, range.
    apply scan_none. intros j Hj. apply Hbusy. lia.
  - unfold create_tunnel. fold d. fold chosen. fold words.
    destruct m as [v t]. unfold bind at 1. unfold set_tunnelLocalPort, write.
    cbn [vars trace]. unfold bind at 1. rewrite broadcastStatus_run.
    unfold bind, emit, set_tunnelProcess, write, ret, push. cbn [vars trace].
    eexists. eexists. split; [reflexivity|]. cbn [a_chosenPort a_res vars trace
      tunnelLocalPort tunnelProcess].
    repeat (split; [reflexivity|]).
    eexists. split; [|rewrite <- app_assoc; reflexivity].
    unfold delivered. apply Forall_forall. intros e He.
    apply in_map_iff in He. destruct He as (r & <- & _). eauto.
Qed.

(** The theorem for "sit" with 4085, 4086 and 4087 occupied and 4088
    free, and with every port of the range occupied. *)
Lemma tunnel_port_choice_witness :
  choosePortForTunnel (fun p => Z.eqb p 4088) 4085 = 4088%Z /\
  choosePortForTunnel (fun _ => false) 4085 = 4085%Z.
Proof.
  split.
  - apply (proj1 (proj2 (tunnel_port_choice (fun _ => None) (fun p => Z.eqb p 4088)
                           pending_sit [] child1 started)) 3%Z).
    + lia.
    + reflexivity.
    + intros j Hj. change ((4085 + j =? 4088)%Z = false). apply Z.eqb_neq. lia.
  - apply (proj1 (proj2 (proj2 (tunnel_port_choice (fun _ => None) (fun _ => false)
                                  pending_sit [] child1 started)))).
    intros i Hi. reflexivity.
Defined.

(** *** Running handler bodies *)

Lemma sent_app res t u : sent res (t ++ u) = sent res t || sent res u.
Proof. apply existsb_app. Qed.

Lemma sent_delivered res write_error v : sent res (delivered write_error v) = false.
Proof.
  unfold sent, delivered.
  induction (filter (write_ok write_error) (sseClients v)); simpl; auto.
Qed.

Lemma clear_slot_run v t :
  clear_slot {| vars := v; trace := t |}
  = Return tt {| vars := torn_down v; trace := t |}.
Proof. destruct v; reflexivity. Qed.

Lemma headersSent_run res v t :
  headersSent res {| vars := v; trace := t |}
  = Return (sent res t) {| vars := v; trace := t |}.
Proof. reflexivity. Qed.

Lemma respond_run res code body v t :
  sent res t = false ->
  respond res code body {| vars := v; trace := t |}
  = Return tt {| vars := v; trace := t ++ [Respond res code body] |}.
Proof.
  intros H. unfold respond, bind. rewrite headersSent_run, H. reflexivity.
Qed.

Ltac step_bind := unfold bind at 1.

Ltac run_handler :=
  repeat first
    [ rewrite broadcastStatus_run
    | rewrite clear_slot_run
    | rewrite headersSent_run
    | rewrite respond_run by
        (rewrite ?sent_app, ?sent_delivered; simpl; rewrite ?orb_false_r;
         assumption || reflexivity)
    | progress unfold push
    | progress cbn [vars trace tunnelProcess connectedEnv tunnelLocalPort sseClients]
    | progress unfold bind
    | progress unfold ret
    | progress unfold emit
    | progress unfold read ].

Lemma on_close_run write_error a v t :
  on_close write_error a {| vars := v; trace := t |}
  = Return tt {| vars := torn_down v;
                 trace := t ++ delivered write_error (torn_down v) |}.
Proof. unfold on_close. run_handler. reflexivity. Qed.

Lemma on_error_run write_error a v t :
  on_error write_error a {| vars := v; trace := t |}
  = Return tt
      {| vars := torn_down v;
         trace := (t ++ if sent (a_res a) t then []
                        else [Respond (a_res a) 500
                                (Failure (lit "Failed to spawn SSH tunnel process."))])
                  ++ delivered write_error (torn_down v) |}.
Proof.
  unfold on_error. step_bind. rewrite headersSent_run.
  destruct (sent (a_res a) t) eqn:Hs; cbn [negb].
  - run_handler. rewrite app_nil_r. reflexivity.
  - run_handler. reflexivity.
Qed.

Lemma on_stderr_data_sent write_error a data v t :
  sent (a_res a) t = true ->
  on_stderr_data write_error a data {| vars := v; trace := t |}
  = Return tt {| vars := v; trace := t ++ delivered write_error v |}.
Proof.
  intros Hs. unfold on_stderr_data. step_bind. rewrite headersSent_run, Hs.
  cbn [negb]. run_handler. reflexivity.
Qed.

Lemma on_stderr_data_unsent write_error a data v t p :
  sent (a_res a) t = false -> tunnelProcess v = Some p ->
  on_stderr_data write_error a data {| vars := v; trace := t |}
  = Return tt
      {| vars := torn_down v;
         trace := (t ++ [Kill p None;
                         Respond (a_res a) 500
                           (Failure (lit "Failed to establish SSH tunnel: " ++ data))])
                  ++ delivered write_error (torn_down v) |}.
Proof.
  intros Hs Hp. unfold on_stderr_data. step_bind. rewrite headersSent_run, Hs.
  cbn [negb]. step_bind. step_bind. unfold read at 1. cbn [vars]. rewrite Hp.
  run_handler. rewrite <- !app_assoc. reflexivity.
Qed.

Lemma on_stderr_data_null write_error a data v t :
  sent (a_res a) t = false -> tunnelProcess v = None ->
  on_stderr_data write_error a data {| vars := v; trace := t |}
  = Throw kill_of_null {| vars := v; trace := t |}.
Proof.
  intros Hs Hp. unfold on_stderr_data. step_bind. rewrite headersSent_run, Hs.
  cbn [negb]. step_bind. step_bind. unfold read at 1. cbn [vars]. rewrite Hp.
  reflexivity.
Qed.

Lemma on_timer_unsent write_error a env v t :
  sent (a_res a) t = false -> a_env a = JStr env ->
  on_timer write_error a {| vars := v; trace := t |}
  = Return tt
      {| vars := with_env v (JStr env);
         trace := (t ++ delivered write_error (with_env v (JStr env)))
                  ++ [Respond (a_res a) 200
                        (ConnectSuccess (a_statusStdout a) (a_chosenPort a)
                           (success_message env (a_chosenPort a)))] |}.
Proof.
  intros Hs He. unfold on_timer. step_bind. rewrite headersSent_run, Hs, He.
  cbn [negb]. unfold set_connectedEnv, write. run_handler. reflexivity.
Qed.

Lemma on_timer_sent write_error a v t :
  sent (a_res a) t = true ->
  on_timer write_error a {| vars := v; trace := t |}
  = Return tt {| vars := v; trace := t |}.
Proof.
  intros Hs. unfold on_timer. step_bind. rewrite headersSent_run, Hs. reflexivity.
Qed.

Lemma on_timer_odd write_error a v t :
  sent (a_res a) t = false -> (forall env, a_env a <> JStr env) ->
  on_timer write_error a {| vars := v; trace := t |}
  = Throw (toUpperCase_error (a_env a)) {| vars := v; trace := t |}.
Proof.
  intros Hs Hodd. unfold on_timer. step_bind. rewrite headersSent_run, Hs.
  cbn [negb]. destruct (a_env a); try reflexivity.
  exfalso. eapply Hodd. reflexivity.
Qed.

(** *** The subprocess handlers *)


(** A connect attempt for "sit" reaches the launch, a disconnect call
    empties the slot inside the confirmation delay, and then data arrives
    on the error stream: the handler throws at [tunnelProcess.kill()],
    broadcasts nothing, answers nothing and clears nothing, so the local
    port of the attempt stays set. *)
Example stderr_on_emptied_slot_throws :
  exists a m1 m2,
    attempt (fun _ => None) (fun _ => true) 1 connect_sit
            false [] false [] [] child1 started = Return (Some a) m1 /\
    disconnect_call (fun _ => None) 3 false m1 = Return tt m2 /\
    on_stderr_data (fun _ => None) a (lit "channel 2: open failed") m2
      = Throw kill_of_null m2 /\
    sent 1 (trace m2) = false /\
    tunnelProcess (vars m2) = None /\
    connectedEnv (vars m2) = JNull /\
    tunnelLocalPort (vars m2) = Some 4085%Z.
Proof.
  eexists. eexists. eexists. split; [vm_compute; reflexivity|].
  split; [vm_compute; reflexivity|]. split; [vm_compute; reflexivity|].
  repeat split; reflexivity.
Qed.



(** *** Environment and local port *)






(** *** Connect *)

(** C5.  A tunnel for "sit" is up (request, login, status, launch,
    timer) and watched by one observer.  A connect request with the
    unknown environment "prod" is answered with the invalid-environment
    failure, but only after the running process was killed, the slot
    cleared and the disconnected snapshot broadcast. *)
Lemma invalid_connect_kills_running_tunnel :
  exists a m1 m2,
    (events (fun _ => None) 7 ;;
     o <- attempt (fun _ => None) (fun _ => true) 1 connect_sit
                  false [] false [] [] child1 ;;
     match o with
     | Some a => on_timer (fun _ => None) a ;; ret o
     | None => ret o
     end) started = Return (Some a) m1 /\
    vars m1 = tunnel_up /\
    connect (fun _ => None) 2 connect_prod m1 = Return None m2 /\
    vars m2 = torn_down tunnel_up /\
    trace m2 = trace m1 ++
      [ Kill child1 None;
        SseWrite 7 {| st_status := lit "disconnected"; st_env := JNull;
                      st_pid := None; st_localPort := None |};
        Respond 2 400 invalid_environment ].
Proof.
  eexists. eexists. eexists. split; [vm_compute; reflexivity|].
  split; [reflexivity|]. split; [vm_compute; reflexivity|].
  split; reflexivity.
Qed.

(** With no process in the slot, a connect request whose environment is
    missing, or is no key of [envTunnel] (own or inherited), changes no
    variable and only answers. *)
Lemma invalid_connect_without_tunnel write_error res body v t :
  tunnelProcess v = None -> sent res t = false ->
  body <> JUndefined -> body <> JNull ->
  (truthy (get body "env") = false \/
   exists k, ToString (get body "env") = inr k /\ envTunnel_get k = None) ->
  connect write_error res body {| vars := v; trace := t |}
  = Return None {| vars := v; trace := t ++ [Respond res 400 invalid_environment] |}.
Proof.
  intros Hp Hs Hu Hn Henv. unfold connect. step_bind. unfold read at 1.
  cbn [vars]. rewrite Hp. step_bind. unfold ret at 1.
  assert (Hgo :
    (if negb (truthy (get body "env"))
     then respond res 400 invalid_environment ;; ret None
     else o <- lift (envTunnel_lookup (get body "env")) ;;
          match o with
          | None => respond res 400 invalid_environment ;; ret None
          | Some (Configured prof) =>
              emit (Exec loginCommand) ;;
              ret (Some (Known {| p_res := res; p_env := get body "env";
                                  p_profile := prof |}))
          | Some Inherited =>
              emit (Exec loginCommand) ;;
              ret (Some (Unconfigured res))
          end) {| vars := v; trace := t |}
    = Return None {| vars := v; trace := t ++ [Respond res 400 invalid_environment] |}).
  { destruct Henv as [Hf | (k & Hk & Ho)].
    - rewrite Hf. cbn [negb]. unfold bind. rewrite respond_run by exact Hs.
      reflexivity.
    - destruct (truthy (get body "env")); cbn [negb].
      + unfold envTunnel_lookup. rewrite Hk, Ho. unfold lift, bind, ret.
        rewrite respond_run by exact Hs. reflexivity.
      + unfold bind. rewrite respond_run by exact Hs. reflexivity. }
  destruct body; try congruence; exact Hgo.
Qed.

(** C1.  A connect attempt for "sit" reaches the launch; the subprocess
    exits inside the confirmation delay; the timer fires.  The only
    response on the attempt is the success response, sent by the timer
    after the exit, and the environment is recorded for a slot that holds
    no process and no port. *)
Lemma exit_in_window_reports_success :
  exists a m1 m2,
    attempt (fun _ => None) (fun _ => true) 1 connect_sit
            false [] false [] [] child1 started = Return (Some a) m1 /\
    (on_close (fun _ => None) a ;; on_timer (fun _ => None) a) m1 = Return tt m2 /\
    filter (responds_on 1) (trace m2) =
      [ Respond 1 200
          (ConnectSuccess [] 4085
             (lit "SSH tunnel for SIT environment initiated on port 4085.")) ] /\
    tunnelProcess (vars m2) = None /\
    connectedEnv (vars m2) = JStr (lit "sit") /\
    tunnelLocalPort (vars m2) = None.
Proof.
  eexists. eexists. eexists. split; [vm_compute; reflexivity|].
  split; [vm_compute; reflexivity|]. repeat split; reflexivity.
Qed.

(** The sibling paths: error-stream data, or a spawn error, inside the
    delay answer the caller with the failure, and the timer then stays
    silent. *)
Lemma failure_in_window_reports_failure :
  exists a m1 m2 m3,
    attempt (fun _ => None) (fun _ => true) 1 connect_sit
            false [] false [] [] child1 started = Return (Some a) m1 /\
    (on_stderr_data (fun _ => None) a (lit "access denied") ;;
     on_timer (fun _ => None) a) m1 = Return tt m2 /\
    filter (responds_on 1) (trace m2) =
      [ Respond 1 500 (Failure (lit "Failed to establish SSH tunnel: access denied")) ] /\
    (on_error (fun _ => None) a ;; on_timer (fun _ => None) a) m1 = Return tt m3 /\
    filter (responds_on 1) (trace m3) =
      [ Respond 1 500 (Failure (lit "Failed to spawn SSH tunnel process.")) ].
Proof.
  do 4 eexists. split; [vm_compute; reflexivity|].
  split; [vm_compute; reflexivity|]. split; [reflexivity|].
  split; [vm_compute; reflexivity|]. reflexivity.
Qed.

(** *** Disconnect *)

Lemma disconnect_run write_error v t :
  disconnect write_error {| vars := v; trace := t |}
  = Return tt
      {| vars := match tunnelProcess v with Some _ => released v | None => v end;
         trace := (t ++ disconnect_effects write_error v) ++ [Exec logoutCommand] |}.
Proof.
  unfold disconnect, disconnect_effects.
  destruct v as [[p|] env port clients].
  - unfold set_tunnelProcess, set_connectedEnv, write. run_handler.
    rewrite <- !app_assoc. reflexivity.
  - run_handler. rewrite app_nil_r. reflexivity.
Qed.

Lemma logout_callback_run write_error res error v t :
  sent res t = false ->
  logout_callback write_error res error {| vars := v; trace := t |}
  = Return tt {| vars := v;
                 trace := (t ++ [Respond res 200 logged_out])
                          ++ delivered write_error v |}.
Proof.
  intros Hs. unfold logout_callback. run_handler. reflexivity.
Qed.

Lemma sent_disconnect_effects res write_error v :
  sent res (disconnect_effects write_error v) = false.
Proof.
  unfold disconnect_effects. destruct (tunnelProcess v); [|reflexivity].
  unfold sent. cbn [existsb responds_on orb]. apply sent_delivered.
Qed.

Lemma disconnect_call_run write_error res error v t :
  sent res t = false ->
  disconnect_call write_error res error {| vars := v; trace := t |}
  = Return tt
      {| vars := match tunnelProcess v with Some _ => released v | None => v end;
         trace := (((t ++ disconnect_effects write_error v) ++ [Exec logoutCommand])
                   ++ [Respond res 200 logged_out])
                  ++ delivered write_error
                       (match tunnelProcess v with
                        | Some _ => released v
                        | None => v
                        end) |}.
Proof.
  intros Hs. unfold disconnect_call. step_bind. rewrite disconnect_run.
  apply logout_callback_run.
  rewrite !sent_app, Hs, sent_disconnect_effects. reflexivity.
Qed.

(** Disconnect on a running tunnel: the process and the environment are
    cleared, the local port is not. *)
Example disconnect_leaves_local_port :
  exists m',
    disconnect_call (fun _ => None) 3 false {| vars := tunnel_up; trace := [] |}
      = Return tt m' /\
    tunnelProcess (vars m') = None /\
    connectedEnv (vars m') = JNull /\
    tunnelLocalPort (vars m') = Some 4085%Z.
Proof.
  eexists. split; [apply disconnect_call_run; reflexivity|].
  repeat split; reflexivity.
Qed.

Lemma filter_unsent res t : sent res t = false -> filter (responds_on res) t = [].
Proof.
  unfold sent. induction t as [|e t IH]; simpl; [reflexivity|].
  destruct (responds_on res e); simpl; [discriminate|exact IH].
Qed.

Lemma responses_of_disconnect_call write_error r res v t :
  filter (responds_on r)
    ((((t ++ disconnect_effects write_error v) ++ [Exec logoutCommand])
      ++ [Respond res 200 logged_out])
     ++ delivered write_error
          (match tunnelProcess v with Some _ => released v | None => v end))
  = filter (responds_on r) t
    ++ (if Nat.eqb res r then [Respond res 200 logged_out] else []).
Proof.
  rewrite !filter_app.
  rewrite (filter_unsent r (disconnect_effects write_error v))
    by apply sent_disconnect_effects.
  rewrite (filter_unsent r (delivered write_error _)) by apply sent_delivered.
  cbn [filter responds_on]. rewrite !app_nil_r.
  destruct (Nat.eqb res r); reflexivity.
Qed.

(** From any state, with a process in the slot or not, two
    disconnect calls in a row both return and both answer their caller
    with the success message, whether or not the logout command failed;
    each caller gets exactly that one response.  After the first call no
    process is in the slot and the status reads "disconnected" with a
    null process id (and the environment is null whenever a process was
    in the slot); the second call leaves the variables as the first left
    them. *)
Theorem disconnect_twice_succeeds write_error res1 res2 error1 error2 m :
  sent res1 (trace m) = false -> sent res2 (trace m) = false -> res1 <> res2 ->
  exists m1 m2,
    disconnect_call write_error res1 error1 m = Return tt m1 /\
    disconnect_call write_error res2 error2 m1 = Return tt m2 /\
    filter (responds_on res1) (trace m1) = [Respond res1 200 logged_out] /\
    filter (responds_on res1) (trace m2) = [Respond res1 200 logged_out] /\
    filter (responds_on res2) (trace m2) = [Respond res2 200 logged_out] /\
    tunnelProcess (vars m1) = None /\
    st_status (getCurrentStatus (vars m1)) = lit "disconnected" /\
    st_pid (getCurrentStatus (vars m1)) = None /\
    (tunnelProcess (vars m) <> None -> connectedEnv (vars m1) = JNull) /\
    vars m2 = vars m1.
Proof.
  intros H1 H2 Hne. destruct m as [v t]. cbn [vars trace] in *.
  eexists. eexists.
  split; [apply disconnect_call_run; exact H1|].
  split.
  { apply disconnect_call_run.
    rewrite !sent_app, H2, sent_disconnect_effects, sent_delivered.
    cbn [sent existsb responds_on orb].
    destruct (Nat.eqb_spec res1 res2); [contradiction|reflexivity]. }
  cbn [vars trace].
  rewrite !responses_of_disconnect_call.
  rewrite (filter_unsent res1 t H1), (filter_unsent res2 t H2).
  rewrite !Nat.eqb_refl.
  destruct (Nat.eqb_spec res2 res1) as [E|_]; [congruence|].
  destruct (Nat.eqb_spec res1 res2) as [E|_]; [congruence|].
  repeat (split; [reflexivity|]).
  destruct v as [[p|] env port clients];
    cbn [tunnelProcess released getCurrentStatus st_status st_pid connectedEnv];
    repeat split; try reflexivity; congruence.
Qed.

(** The theorem at a running tunnel, the first logout command failing. *)
Lemma disconnect_twice_succeeds_witness :
  exists m1 m2,
    disconnect_call (fun _ => None) 3 true {| vars := tunnel_up; trace := [] |}
      = Return tt m1 /\
    disconnect_call (fun _ => None) 4 false m1 = Return tt m2 /\
    filter (responds_on 3) (trace m1) = [Respond 3 200 logged_out] /\
    filter (responds_on 3) (trace m2) = [Respond 3 200 logged_out] /\
    filter (responds_on 4) (trace m2) = [Respond 4 200 logged_out] /\
    tunnelProcess (vars m1) = None /\
    st_status (getCurrentStatus (vars m1)) = lit "disconnected" /\
    st_pid (getCurrentStatus (vars m1)) = None /\
    (tunnelProcess tunnel_up <> None -> connectedEnv (vars m1) = JNull) /\
    vars m2 = vars m1.
Proof.
  apply (disconnect_twice_succeeds (fun _ => None) (res1 := 3) (res2 := 4) true false
           {| vars := tunnel_up; trace := [] |}).
  - reflexivity.
  - reflexivity.
  - intros H. discriminate H.
Defined.


(** *** Execute SQL *)

Section ExecuteSqlFacts.

Variable net_connect : jstring -> JSValue -> option JsError.
Variable createConnection : DbConfig -> option JsError.
Variable execute : jstring -> JsError + JSValue.
Variable connection_end : nat -> option JsError.

Local Abbreviation execute_sql :=
  (Server.execute_sql net_connect createConnection execute connection_end).

Lemma end_connection_cases v t :
  (exists e, end_connection connection_end {| vars := v; trace := t |}
             = Throw e {| vars := v; trace := t ++ [ConnectionEnd] |})
  \/ end_connection connection_end {| vars := v; trace := t |}
     = Return tt {| vars := v; trace := t ++ [ConnectionEnd] |}.
Proof.
  unfold end_connection, bind, emit. cbn [vars trace].
  destruct (connection_end _) as [e|]; [left; eexists|right]; reflexivity.
Qed.

(** Once the connection is open, the handler always ends by answering,
    and neither probes nor connects again. *)
Lemma query_phase_returns res q v t :
  sent res t = false ->
  exists rest,
    try_catch
      (emit (Execute q) ;;
       rows <- lift (execute q) ;;
       end_connection connection_end ;;
       respond res 200 (Data rows))
      (fun err =>
         try_catch (end_connection connection_end) (fun _ => ret tt) ;;
         respond res 500 (Failure (message_or err (lit "Query execution failed"))))
      {| vars := v; trace := t |}
    = Return tt {| vars := v; trace := t ++ rest |} /\
    Forall query_effect rest.
Proof.
  intros Hs.
  assert (Hcatch : forall err u, sent res u = false -> Forall query_effect u ->
            exists rest,
              (try_catch (end_connection connection_end) (fun _ => ret tt) ;;
               respond res 500
                 (Failure (message_or err (lit "Query execution failed"))))
                {| vars := v; trace := t ++ u |}
              = Return tt {| vars := v; trace := t ++ rest |} /\
              Forall query_effect rest).
  { intros err u Hu Hq. unfold bind at 1. unfold try_catch.
    destruct (end_connection_cases v (t ++ u)) as [(e & ->) | ->].
    - unfold ret. rewrite respond_run
        by (rewrite !sent_app, Hs, Hu; reflexivity).
      eexists. split; [rewrite <- !app_assoc; reflexivity|].
      apply Forall_app. split; [exact Hq|]. repeat constructor.
    - rewrite respond_run by (rewrite !sent_app, Hs, Hu; reflexivity).
      eexists. split; [rewrite <- !app_assoc; reflexivity|].
      apply Forall_app. split; [exact Hq|]. repeat constructor. }
  unfold try_catch at 1. unfold bind at 1. unfold emit at 1. cbn [vars trace].
  unfold bind at 1. unfold lift. destruct (execute q) as [err|rows].
  - unfold throw. apply Hcatch; [reflexivity|repeat constructor].
  - unfold ret at 1. unfold bind at 1.
    destruct (end_connection_cases v (t ++ [Execute q])) as [(e & ->) | ->].
    + rewrite <- app_assoc. cbn [app].
      apply Hcatch; [reflexivity|repeat constructor].
    + rewrite respond_run by (rewrite !sent_app, Hs; reflexivity).
      eexists. split; [rewrite <- !app_assoc; reflexivity|].
      repeat constructor.
Qed.

Lemma normalize_host_nonempty host h :
  normalize_host host = inr h -> truthy (JStr h) = true.
Proof.
  unfold normalize_host.
  destruct (toString_call _) as [e|s0]; [discriminate|].
  intros H. inversion H; subst; clear H.
  destruct (lower_equals (trim s0) (lit "localhost") || str_eqb (trim s0) []
            || str_eqb (trim s0) (lit "::1")) eqn:C; [reflexivity|].
  apply orb_false_iff in C. destruct C as (C & _).
  apply orb_false_iff in C. destruct C as (_ & C).
  destruct (trim s0); [discriminate C|reflexivity].
Qed.

Lemma ends_app t u : ends (t ++ u) = (ends t + ends u)%nat.
Proof. unfold ends. rewrite filter_app, length_app. reflexivity. Qed.

Lemma end_connection_run v u :
  end_connection connection_end {| vars := v; trace := u |}
  = match connection_end (ends u) with
    | Some e => Throw e {| vars := v; trace := u ++ [ConnectionEnd] |}
    | None => Return tt {| vars := v; trace := u ++ [ConnectionEnd] |}
    end.
Proof.
  unfold end_connection, bind, emit, ends. cbn [vars trace].
  destruct (connection_end _); reflexivity.
Qed.

Lemma query_phase_run res q v t :
  sent res t = false ->
  try_catch
    (emit (Execute q) ;;
     rows <- lift (execute q) ;;
     end_connection connection_end ;;
     respond res 200 (Data rows))
    (fun err =>
       try_catch (end_connection connection_end) (fun _ => ret tt) ;;
       respond res 500 (Failure (message_or err (lit "Query execution failed"))))
    {| vars := v; trace := t |}
  = Return tt {| vars := v;
                 trace := t ++ query_effects execute connection_end res q (ends t) |}.
Proof.
  intros Hs. unfold query_effects.
  unfold try_catch at 1. unfold bind at 1. unfold emit at 1. cbn [vars trace].
  unfold bind at 1. unfold lift. destruct (execute q) as [err|rows].
  - unfold throw. unfold bind at 1. unfold try_catch. rewrite end_connection_run.
    destruct (connection_end _); unfold ret;
      rewrite respond_run by (rewrite !sent_app, Hs; reflexivity);
      rewrite <- !app_assoc; reflexivity.
  - unfold ret at 1. unfold bind at 1. rewrite end_connection_run.
    rewrite ends_app. change (ends [Execute q]) with 0%nat. rewrite Nat.add_0_r.
    destruct (connection_end (ends t)) as [e|].
    + unfold bind at 1. unfold try_catch. rewrite end_connection_run.
      destruct (connection_end _); unfold ret;
        rewrite respond_run by (rewrite !sent_app, Hs; reflexivity);
        rewrite <- !app_assoc; reflexivity.
    + rewrite respond_run by (rewrite !sent_app, Hs; reflexivity).
      rewrite <- !app_assoc. reflexivity.
Qed.

(** From the completeness check on, the handler returns with exactly the
    effects of [checked_effects]. *)
Lemma execute_sql_checked_run res body v t host :
  let b := body_or_empty body in
  let dbConfig := get b "dbConfig" in
  sent res t = false ->
  truthy (get b "query") = true -> truthy dbConfig = true ->
  Validator.isSafeSelectQuery (get b "query") = true ->
  normalize_host (get dbConfig "host") = inr host ->
  execute_sql res body {| vars := v; trace := t |}
  = Return tt
      {| vars := v;
         trace := t ++ checked_effects net_connect createConnection execute
                         connection_end res host dbConfig
                         (query_text (get b "query")) (ends t) |}.
Proof.
  intros b dbConfig Hs Hq Hc Hsafe Hhost.
  pose proof (normalize_host_nonempty _ Hhost) as Hne.
  unfold Server.execute_sql, checked_effects, database_effects.
  fold (body_or_empty body). fold b. fold dbConfig.
  unfold try_catch at 1.
  rewrite Hq, Hc, Hsafe. cbn [negb orb].
  unfold bind at 1. rewrite Hhost. unfold lift at 1, ret at 1.
  rewrite Hne. cbn [negb orb].
  destruct (negb (truthy (get dbConfig "port")) || negb (truthy (get dbConfig "user"))).
  { rewrite respond_run by exact Hs. reflexivity. }
  unfold bind at 1. unfold tcp_probe.
  destruct (ToString (get dbConfig "port")) as [e|port_s] eqn:Hps.
  { unfold ret at 1. unfold bind at 1. unfold lift at 1. unfold throw at 1.
    rewrite respond_run by exact Hs. reflexivity. }
  unfold bind at 1. unfold emit at 1. cbn [vars trace]. unfold ret at 1.
  destruct (net_connect host (get dbConfig "port")) as [tcpErr|].
  { unfold bind at 1. unfold lift at 1, ret at 1.
    rewrite respond_run by (rewrite sent_app, Hs; reflexivity).
    rewrite <- app_assoc. reflexivity. }
  unfold bind at 1. unfold emit at 1. cbn [vars trace].
  fold (connection_settings host dbConfig).
  destruct (createConnection (connection_settings host dbConfig)) as [e|].
  { unfold throw at 1.
    rewrite respond_run by (rewrite !sent_app, Hs; reflexivity).
    rewrite <- !app_assoc. reflexivity. }
  fold (query_text (get b "query")).
  pose proof (@query_phase_run res (query_text (get b "query")) v
                ((t ++ [NetConnect host (get dbConfig "port")])
                 ++ [CreateConnection (connection_settings host dbConfig)])) as Hr.
  rewrite !ends_app in Hr.
  change (ends [NetConnect host (get dbConfig "port")]) with 0%nat in Hr.
  change (ends [CreateConnection (connection_settings host dbConfig)]) with 0%nat in Hr.
  rewrite !Nat.add_0_r in Hr.
  match goal with |- context [try_catch ?c ?h ?m] =>
    match type of Hr with _ -> ?lhs = _ => change (try_catch c h m) with lhs end
  end.
  rewrite Hr by (rewrite !sent_app, Hs; reflexivity).
  rewrite <- !app_assoc. reflexivity.
Qed.

(** From the completeness check on. *)
Lemma execute_sql_checked res body v t host :
  let b := body_or_empty body in
  let dbConfig := get b "dbConfig" in
  sent res t = false ->
  truthy (get b "query") = true -> truthy dbConfig = true ->
  Validator.isSafeSelectQuery (get b "query") = true ->
  normalize_host (get dbConfig "host") = inr host ->
  exists es,
    execute_sql res body {| vars := v; trace := t |}
      = Return tt {| vars := v; trace := t ++ es |} /\
    ((truthy (get dbConfig "port") && truthy (get dbConfig "user") = false /\
      es = [Respond res 400 incomplete_configuration])
     \/
     (truthy (get dbConfig "port") && truthy (get dbConfig "user") = true /\
      ((exists e, ToString (get dbConfig "port") = inl e /\
                  es = [Respond res 500
                          (Failure (message_or e (lit "Unexpected server error")))])
       \/ probe_failed net_connect res es \/ reached_database net_connect es))).
Proof.
  intros b dbConfig Hs Hq Hc Hsafe Hhost.
  pose proof (normalize_host_nonempty _ Hhost) as Hne.
  unfold Server.execute_sql. fold (body_or_empty body). fold b. fold dbConfig.
  unfold try_catch at 1.
  rewrite Hq, Hc, Hsafe. cbn [negb orb].
  unfold bind at 1. rewrite Hhost. unfold lift at 1, ret at 1.
  rewrite Hne. cbn [negb orb].
  destruct (truthy (get dbConfig "port")) eqn:Hport; cbn [negb orb andb].
  2:{ rewrite respond_run by exact Hs. eexists. split; [reflexivity|].
      left. split; reflexivity. }
  destruct (truthy (get dbConfig "user")) eqn:Huser; cbn [negb orb andb].
  2:{ rewrite respond_run by exact Hs. eexists. split; [reflexivity|].
      left. split; reflexivity. }
  unfold bind at 1. unfold tcp_probe.
  destruct (ToString (get dbConfig "port")) as [e|port_s] eqn:Hps.
  - unfold ret at 1. unfold bind at 1. unfold lift at 1. unfold throw at 1.
    rewrite respond_run by exact Hs. eexists. split; [reflexivity|].
    right. split; [reflexivity|]. left. eexists. split; reflexivity.
  - unfold bind at 1. unfold emit at 1. cbn [vars trace]. unfold ret at 1.
    destruct (net_connect host (get dbConfig "port")) as [tcpErr|] eqn:Hnet.
    + unfold bind at 1. unfold lift at 1, ret at 1.
      rewrite respond_run by (rewrite sent_app, Hs; reflexivity).
      eexists. split; [rewrite <- app_assoc; reflexivity|].
      right. split; [reflexivity|]. right. left.
      exists host, (get dbConfig "port"), port_s, tcpErr. auto.
    + unfold bind at 1. unfold emit at 1. cbn [vars trace].
      match goal with |- context [createConnection ?c] => set (cfg := c) end.
      destruct (createConnection cfg) as [e|].
      * unfold throw at 1.
        rewrite respond_run by (rewrite !sent_app, Hs; reflexivity).
        eexists. split; [rewrite <- !app_assoc; reflexivity|].
        right. split; [reflexivity|]. right. right.
        exists host, (get dbConfig "port"), cfg. eexists. split; [exact Hnet|].
        split; [reflexivity|]. repeat constructor.
      * match goal with |- context [try_catch ?c ?h ?m] =>
          destruct (@query_phase_returns res
                      (match get b "query" with JStr q => q | _ => [] end)
                      v ((t ++ [NetConnect host (get dbConfig "port")])
                         ++ [CreateConnection cfg])) as (rest & Hr & Hrest)
        end.
        { rewrite !sent_app, Hs. reflexivity. }
        match goal with |- context [try_catch ?c ?h ?m] =>
          match type of Hr with ?lhs = _ => change (try_catch c h m) with lhs end
        end.
        rewrite Hr. eexists. split; [rewrite <- !app_assoc; reflexivity|].
        right. split; [reflexivity|]. right. right.
        exists host, (get dbConfig "port"), cfg, rest. split; [exact Hnet|].
        split; [reflexivity|exact Hrest].
Qed.



(** C10.  When normalization of the host returns, the host is a
    non-empty string: a missing or empty host, a blank one, "localhost"
    in any case and "::1" all become "127.0.0.1".  So for a request that
    reaches the completeness check, the host part of that check is never
    the reason, and the incomplete-configuration answer is given exactly
    when the port or the user is missing. *)
Theorem incomplete_configuration_iff res body m host :
  let dbConfig := get (body_or_empty body) "dbConfig" in
  sent res (trace m) = false ->
  truthy (get (body_or_empty body) "query") = true ->
  truthy dbConfig = true ->
  Validator.isSafeSelectQuery (get (body_or_empty body) "query") = true ->
  normalize_host (get dbConfig "host") = inr host ->
  (host <> [] /\ negb (truthy (JStr host)) = false) /\
  (execute_sql res body m
     = Return tt {| vars := vars m;
                    trace := trace m ++ [Respond res 400 incomplete_configuration] |}
   <-> truthy (get dbConfig "port") = false \/ truthy (get dbConfig "user") = false) /\
  (forall h, truthy h = false -> normalize_host h = inr (lit "127.0.0.1")) /\
  (forall s, trim s = [] -> normalize_host (JStr s) = inr (lit "127.0.0.1")) /\
  (forall s, lower_equals (trim s) (lit "localhost") = true ->
             normalize_host (JStr s) = inr (lit "127.0.0.1")) /\
  (forall s, trim s = lit "::1" -> normalize_host (JStr s) = inr (lit "127.0.0.1")).
Proof.
  intros dbConfig Hs Hq Hc Hsafe Hhost. destruct m as [v t]. cbn [vars trace] in *.
  pose proof (normalize_host_nonempty _ Hhost) as Hne.
  split; [|split; [|split; [|split; [|split]]]].
  - split; [|rewrite Hne; reflexivity]. intros ->. discriminate Hne.
  - destruct (@execute_sql_checked res body v t host Hs Hq Hc Hsafe Hhost)
      as (es & Hrun & Hes).
    fold dbConfig in Hes. rewrite Hrun. split.
    + intros H. inversion H as [Ht]. apply app_inv_head in Ht. subst es.
      destruct Hes as [(Hf & _) | (_ & [(e & _ & He) | [Hp | Hd]])].
      * apply andb_false_iff in Hf. exact Hf.
      * discriminate He.
      * destruct Hp as (h & p & ps & e & _ & _ & He). discriminate He.
      * destruct Hd as (h & p & cfg & rest & _ & He & _). discriminate He.
    + intros H. destruct Hes as [(_ & ->) | (Ht & _)]; [reflexivity|].
      apply andb_true_iff in Ht. destruct Ht as (Hp & Hu).
      destruct H; congruence.
  - intros h Hh. unfold normalize_host. rewrite Hh. reflexivity.
  - intros s Hsb. unfold normalize_host.
    destruct s as [|c s]; [reflexivity|].
    cbn [truthy toString_call ToString]. rewrite Hsb. reflexivity.
  - intros s Hl. unfold normalize_host.
    destruct s as [|c s]; [reflexivity|].
    cbn [truthy toString_call ToString]. rewrite Hl. reflexivity.
  - intros s Hl. unfold normalize_host.
    destruct s as [|c s]; [reflexivity|].
    cbn [truthy toString_call ToString]. rewrite Hl. reflexivity.
Qed.

End ExecuteSqlFacts.


(** What that request does. *)
Example refused_request_run :
  execute_sql refused (fun _ => None) (fun _ => inr (JArr [])) (fun _ => None)
    5 sql_request started
  = Return tt
      {| vars := initial;
         trace :=
           [ NetConnect (lit "127.0.0.1") (JNum 4085);
             Respond 5 502
               (Failure (lit "Cannot reach 127.0.0.1:4085. Ensure SSH tunnel is connected for the selected environment and the local port is open. (connect ECONNREFUSED 127.0.0.1:4085)")) ] |}.
Proof. vm_compute. reflexivity. Qed.

(** The theorem at a request without a port. *)
Lemma incomplete_configuration_iff_witness :
  (lit "127.0.0.1" <> [] /\ negb (truthy (JStr (lit "127.0.0.1"))) = false) /\
  (execute_sql refused (fun _ => None) (fun _ => inr (JArr [])) (fun _ => None)
     5 sql_request_no_port started
     = Return tt {| vars := vars started;
                    trace := trace started
                             ++ [Respond 5 400 incomplete_configuration] |}
   <-> truthy (get (get (body_or_empty sql_request_no_port) "dbConfig") "port") = false
       \/ truthy (get (get (body_or_empty sql_request_no_port) "dbConfig") "user") = false) /\
  (forall h, truthy h = false -> normalize_host h = inr (lit "127.0.0.1")) /\
  (forall s, trim s = [] -> normalize_host (JStr s) = inr (lit "127.0.0.1")) /\
  (forall s, lower_equals (trim s) (lit "localhost") = true ->
             normalize_host (JStr s) = inr (lit "127.0.0.1")) /\
  (forall s, trim s = lit "::1" -> normalize_host (JStr s) = inr (lit "127.0.0.1")).
Proof.
  apply (@incomplete_configuration_iff refused (fun _ => None)
           (fun _ => inr (JArr [])) (fun _ => None)
           5 sql_request_no_port started (lit "127.0.0.1")).
  - reflexivity.
  - reflexivity.
  - reflexivity.
  - vm_compute. reflexivity.
  - vm_compute. reflexivity.
Defined.

End ServerFacts.

(* ===================================================================== *)
(** ** Further properties of the validator *)
(* ===================================================================== *)

Module ValidatorExtra.

Import JS Regex Validator RegexSpec ValidatorSpec ExtraSpec RegexFacts ValidatorFacts.
Local Open Scope N_scope.

Lemma test_semicolon_end_last init :
  test re_semicolon_end (init ++ [semicolon]) = true.
Proof.
  apply test_spec. exists init, [semicolon], (Some semicolon), [].
  split; [reflexivity|]. unfold re_semicolon_end.
  eapply m_cat; [apply m_chr; reflexivity|].
  eapply m_cat; [apply m_star_stop|apply m_eol].
Qed.

(** The validator accepts exactly the strings whose stripped text has
    the safe shape; nothing that is not a string is accepted. *)
Theorem accepted_exactly (query : JSValue) :
  isSafeSelectQuery query = true <->
  exists s, query = JStr s /\ safe_shape (stripped s).
Proof.
  split.
  - destruct query as [| | | | |s| |]; try discriminate. simpl.
    unfold isSafeSelectQuery_string. intros H. exists s. split; [reflexivity|].
    destruct (test re_select (stripped s)) eqn:Hsel; [|discriminate].
    destruct (test re_from (stripped s)) eqn:Hfrom; [|discriminate].
    destruct (test forbidden (stripped s)) eqn:Hforb; [discriminate|].
    simpl in H. unfold count_matches in H. rewrite count_semicolons in H.
    destruct (Nat.ltb_spec 1 (count_occ N.eq_dec (stripped s) semicolon))
      as [|Hle]; [discriminate|].
    split; [apply test_select; exact Hsel|].
    split; [apply test_from_keyword; exact Hfrom|].
    split.
    { intros w Hin Hc.
      assert (Ht : test forbidden (stripped s) = true)
        by (apply test_forbidden; exists w; split; assumption).
      congruence. }
    split; [exact Hle|].
    intros Hin. apply (count_occ_In N.eq_dec) in Hin.
    assert (Hone : count_occ N.eq_dec (stripped s) semicolon = 1%nat) by lia.
    rewrite Hone in H. simpl in H.
    destruct (test re_semicolon_end (stripped s)) eqn:Hend; [|discriminate].
    unfold stripped in *. apply test_semicolon_end. exact Hend.
  - intros (s & -> & Hsel & Hfrom & Hforb & Hle & Hlast). simpl.
    unfold isSafeSelectQuery_string.
    apply test_select in Hsel. apply test_from_keyword in Hfrom.
    rewrite Hsel, Hfrom. cbn [negb].
    destruct (test forbidden (stripped s)) eqn:Hf.
    { apply test_forbidden in Hf. destruct Hf as (w & Hin & Hc).
      exfalso. exact (Hforb w Hin Hc). }
    unfold count_matches. rewrite count_semicolons.
    destruct (Nat.ltb_spec 1 (count_occ N.eq_dec (stripped s) semicolon))
      as [Hlt|_]; [lia|].
    destruct (Nat.eqb_spec (count_occ N.eq_dec (stripped s) semicolon) 1)
      as [Hone|_]; [|reflexivity].
    cbn [andb].
    assert (Hin : In semicolon (stripped s))
      by (apply (count_occ_In N.eq_dec); lia).
    destruct (Hlast Hin) as (init & Hi). rewrite Hi.
    rewrite test_semicolon_end_last. reflexivity.
Qed.

(** *** What stripping leaves *)

Lemma star_greedy_answers (cs : cset) (f : jstring -> nat) s : forall p,
  exists r, star_greedy cs (fun _ rest => Some (f rest)) p s = Some (f r) /\
            (List.length r <= List.length s)%nat.
Proof.
  induction s as [|c s IH]; intros p; simpl.
  - exists []. auto.
  - destruct (cset_mem cs c).
    + destruct (IH (Some c)) as (r & -> & Hr). exists r.
      split; [reflexivity|cbn [List.length]; lia].
    + exists (c :: s). auto.
Qed.

(** [/--[^\n\r]*/] matches at a position exactly when two dashes start
    there, and then the match is not empty. *)
Lemma line_comment_at p rest :
  exists n, match_len re_line_comment p (dash :: dash :: rest) = Some (S n).
Proof.
  unfold match_len, re_line_comment. cbn [mt word lit cset_mem].
  change (cset_mem (CLit 45) dash) with true. cbn iota.
  destruct (star_greedy_answers (CNoneOf [10; 13])
              (fun r => (List.length (dash :: dash :: rest) - List.length r)%nat)
              rest (Some dash)) as (r & Hr & Hlen).
  exists (S (List.length rest - List.length r)).
  etransitivity; [exact Hr|]. f_equal. cbn [List.length]. lia.
Qed.

Lemma line_comment_only_at p s n :
  match_len re_line_comment p s = Some n -> exists rest, s = dash :: dash :: rest.
Proof.
  unfold match_len, re_line_comment.
  change (word (lit "--")) with (Cat (Chr (CLit 45)) (Cat (Chr (CLit 45)) Eps)).
  destruct s as [|c [|d rest]]; cbn [mt cset_mem]; try discriminate.
  - destruct (c =? 45) eqn:Hc; discriminate.
  - destruct (N.eqb_spec c 45) as [->|]; [|discriminate].
    destruct (N.eqb_spec d 45) as [->|]; [|discriminate]. eauto.
Qed.

Lemma has_line_comment_nil : ~ has_line_comment [].
Proof. intros (pre & post & H). destruct pre; discriminate H. Qed.

Lemma has_line_comment_cons c t :
  has_line_comment (c :: t) <->
  (c = dash /\ hd_error t = Some dash) \/ has_line_comment t.
Proof.
  split.
  - intros (pre & post & H). destruct pre as [|x pre]; simpl in H.
    + inversion H; subst. left. auto.
    + inversion H; subst. right. exists pre, post. reflexivity.
  - intros [(-> & H) | (pre & post & ->)].
    + destruct t as [|d t]; [discriminate|]. inversion H; subst.
      exists [], t. reflexivity.
    + exists (c :: pre), post. reflexivity.
Qed.

Lemma remove_line_comment_head p s :
  hd_error (remove_from re_line_comment p s 0) = Some dash -> hd_error s = Some dash.
Proof.
  destruct s as [|c s]; [discriminate|]. cbn [remove_from].
  destruct (match_len re_line_comment p (c :: s)) as [[|n]|] eqn:E;
    try (intros H; exact H).
  intros _. apply line_comment_only_at in E. destruct E as (rest & E).
  inversion E; subst. reflexivity.
Qed.

Lemma remove_line_comment_clean s : forall p skip,
  ~ has_line_comment (remove_from re_line_comment p s skip).
Proof.
  induction s as [|c s IH]; intros p skip.
  - apply has_line_comment_nil.
  - cbn [remove_from]. destruct skip as [|k]; [|apply IH].
    assert (Hcopy : ~ (c = dash /\ hd_error s = Some dash) ->
              ~ has_line_comment (c :: remove_from re_line_comment (Some c) s 0)).
    { intros Hno H. apply has_line_comment_cons in H. destruct H as [(Hc & Hh)|H].
      - apply Hno. split; [exact Hc|]. eapply remove_line_comment_head. exact Hh.
      - exact (IH _ _ H). }
    destruct (match_len re_line_comment p (c :: s)) as [[|n]|] eqn:E.
    + apply Hcopy. intros (-> & Hh). destruct s as [|d s]; [discriminate|].
      inversion Hh; subst. destruct (line_comment_at p s) as (n & Hn). congruence.
    + apply IH.
    + apply Hcopy. intros (-> & Hh). destruct s as [|d s]; [discriminate|].
      inversion Hh; subst. destruct (line_comment_at p s) as (n & Hn). congruence.
Qed.

Lemma trimStart_suffix s : exists a, s = a ++ trimStart s.
Proof.
  induction s as [|c s (a & IH)]; simpl.
  - exists []. reflexivity.
  - destruct (is_space c).
    + exists (c :: a). simpl. congruence.
    + exists []. reflexivity.
Qed.

Lemma trimEnd_prefix s : exists b, s = trimEnd s ++ b.
Proof.
  unfold trimEnd. destruct (trimStart_suffix (rev s)) as (a & Ha).
  exists (rev a). rewrite <- rev_app_distr, <- Ha, rev_involutive. reflexivity.
Qed.

Lemma trim_infix s : exists a b, s = a ++ trim s ++ b.
Proof.
  unfold trim. destruct (trimStart_suffix s) as (a & Ha).
  destruct (trimEnd_prefix (trimStart s)) as (b & Hb).
  exists a, b. rewrite <- Hb. exact Ha.
Qed.

Lemma trim_first s c rest : trim s = c :: rest -> is_space c = false.
Proof.
  unfold trim. intros H. destruct (trimEnd_prefix (trimStart s)) as (b & Hb).
  rewrite H in Hb. simpl in Hb. eapply trimStart_head. exact Hb.
Qed.

(** The text the checks run on holds no line comment: no [--] is left in
    it.  It neither starts nor ends with white space. *)
Theorem stripped_text_clean (query : jstring) :
  ~ has_line_comment (stripped query) /\
  (forall c rest, stripped query = c :: rest -> is_space c = false) /\
  (forall init c, stripped query = init ++ [c] -> is_space c = false).
Proof.
  unfold stripped. split; [|split].
  - intros (pre & post & H).
    destruct (trim_infix (remove_all re_line_comment
                            (remove_all re_block_comment query))) as (a & b & Hab).
    rewrite H in Hab. unfold remove_all in Hab.
    eapply remove_line_comment_clean. exists (a ++ pre), (post ++ b).
    rewrite Hab. rewrite <- !app_assoc. reflexivity.
  - intros c rest H. eapply trim_first. exact H.
  - intros init c H. eapply trim_last. exact H.
Qed.

Lemma trimStart_fixed s :
  (forall c rest, s = c :: rest -> is_space c = false) -> trimStart s = s.
Proof.
  destruct s as [|c s]; [reflexivity|]. intros H. simpl.
  rewrite (H c s eq_refl). reflexivity.
Qed.

Lemma trimEnd_fixed s :
  (forall init c, s = init ++ [c] -> is_space c = false) -> trimEnd s = s.
Proof.
  intros H. unfold trimEnd. rewrite trimStart_fixed; [apply rev_involutive|].
  intros c rest Hr. apply (H (rev rest)).
  rewrite <- (rev_involutive s), Hr. reflexivity.
Qed.

(** Trimming twice is trimming once. *)
Lemma trim_idempotent s : trim (trim s) = trim s.
Proof.
  unfold trim at 1. rewrite trimStart_fixed.
  - apply trimEnd_fixed. intros init c H. eapply trim_last. exact H.
  - intros c rest H. eapply trim_first. exact H.
Qed.

End ValidatorExtra.

(* ===================================================================== *)
(** ** Further properties of the handlers *)
(* ===================================================================== *)

Module ServerExtra.

Import JS Validator Server ServerSpec ExtraSpec ValidatorFacts ValidatorExtra ServerFacts.
Local Open Scope js_scope.

(** *** Execute SQL, phase by phase *)

Section ExecuteSqlExtra.

Variable net_connect : jstring -> JSValue -> option JsError.
Variable createConnection : DbConfig -> option JsError.
Variable execute : jstring -> JsError + JSValue.
Variable connection_end : nat -> option JsError.

Local Abbreviation execute_sql :=
  (Server.execute_sql net_connect createConnection execute connection_end).

(** The run of the handler on a query the validator does not accept. *)
Lemma rejected_query_run res body m :
  sent res (trace m) = false ->
  isSafeSelectQuery (get (body_or_empty body) "query") = false ->
  exists message,
    execute_sql res body m
    = Return tt {| vars := vars m;
                   trace := trace m ++ [Respond res 400 (Failure message)] |} /\
    message =
      if truthy (get (body_or_empty body) "query")
         && truthy (get (body_or_empty body) "dbConfig")
      then lit "Only single-statement SELECT queries are allowed."
      else lit "Missing query or dbConfig".
Proof.
  intros Hs Hsafe. destruct m as [v t]. cbn [vars trace] in *.
  unfold Server.execute_sql. fold (body_or_empty body). unfold try_catch at 1.
  destruct (truthy (get (body_or_empty body) "query")); cbn [negb orb andb].
  - destruct (truthy (get (body_or_empty body) "dbConfig")); cbn [negb orb andb].
    + rewrite Hsafe. cbn [negb]. rewrite respond_run by exact Hs. eauto.
    + rewrite respond_run by exact Hs. eauto.
  - rewrite respond_run by exact Hs. eauto.
Qed.

(** A request whose query is missing, is not a string, or is rejected by
    the validator is answered with a 400 and nothing else happens: no
    probe, no database connection, no statement. *)
Theorem rejected_query_goes_nowhere res body m :
  sent res (trace m) = false ->
  isSafeSelectQuery (get (body_or_empty body) "query") = false ->
  exists message,
    execute_sql res body m
    = Return tt {| vars := vars m;
                   trace := trace m ++ [Respond res 400 (Failure message)] |} /\
    message =
      if truthy (get (body_or_empty body) "query")
         && truthy (get (body_or_empty body) "dbConfig")
      then lit "Only single-statement SELECT queries are allowed."
      else lit "Missing query or dbConfig".
Proof.
  intros Hs Hsafe.
  destruct (rejected_query_run res body m Hs Hsafe) as (message & Hrun & Hmsg).
  exists message. split; [exact Hrun|exact Hmsg].
Qed.

(** Whatever the body and whatever the probe and the database client do,
    the handler returns, leaves the variables alone and answers its
    caller exactly once, as its last effect. *)
Theorem execute_sql_answers_once res body m :
  sent res (trace m) = false ->
  exists es code b,
    execute_sql res body m
    = Return tt {| vars := vars m;
                   trace := trace m ++ es ++ [Respond res code b] |} /\
    Forall (fun e => is_response e = false) es /\
    In code [200; 400; 500; 502]%N.
Proof.
  intros Hs. destruct m as [v t]. cbn [vars trace] in *.
  assert (Hearly : forall code b, In code [200; 400; 500; 502]%N ->
            execute_sql res body {| vars := v; trace := t |}
            = Return tt {| vars := v; trace := t ++ [Respond res code b] |} ->
            exists es code b,
              execute_sql res body {| vars := v; trace := t |}
              = Return tt {| vars := v; trace := t ++ es ++ [Respond res code b] |} /\
              Forall (fun e => is_response e = false) es /\
              In code [200; 400; 500; 502]%N).
  { intros code b Hc H. exists [], code, b. split; [exact H|]. split; [constructor|exact Hc]. }
  destruct (isSafeSelectQuery (get (body_or_empty body) "query")) eqn:Hsafe.
  2:{ destruct (@rejected_query_run res body {| vars := v; trace := t |} Hs Hsafe)
        as (msg & Hrun & _).
      eapply Hearly; [|exact Hrun]. simpl. auto. }
  destruct (truthy (get (body_or_empty body) "query")) eqn:Hq.
  2:{ eapply Hearly with (code := 400%N); [simpl; auto|].
      unfold Server.execute_sql. fold (body_or_empty body). unfold try_catch at 1.
      rewrite Hq. cbn [negb orb]. rewrite respond_run by exact Hs. reflexivity. }
  destruct (truthy (get (body_or_empty body) "dbConfig")) eqn:Hc.
  2:{ eapply Hearly with (code := 400%N); [simpl; auto|].
      unfold Server.execute_sql. fold (body_or_empty body). unfold try_catch at 1.
      rewrite Hq, Hc. cbn [negb orb]. rewrite respond_run by exact Hs. reflexivity. }
  destruct (normalize_host (get (get (body_or_empty body) "dbConfig") "host"))
    as [e|host] eqn:Hhost.
  { eapply Hearly with (code := 500%N); [simpl; auto|].
    unfold Server.execute_sql. fold (body_or_empty body). unfold try_catch at 1.
    rewrite Hq, Hc, Hsafe. cbn [negb orb].
    unfold bind at 1. rewrite Hhost. unfold lift at 1, throw at 1.
    rewrite respond_run by exact Hs. reflexivity. }
  rewrite (@execute_sql_checked_run net_connect createConnection execute
             connection_end res body v t host Hs Hq Hc Hsafe Hhost).
  unfold checked_effects, database_effects, query_effects.
  repeat match goal with
         | |- context [if ?c then _ else _] => destruct c
         | |- context [match ?x with inl _ => _ | inr _ => _ end] => destruct x
         | |- context [match ?x with Some _ => _ | None => _ end] => destruct x
         end;
    match goal with
    | |- exists es code b, Return tt {| vars := _; trace := _ ++ ?l |} = _ /\ _ =>
        exists (removelast l);
        match eval cbv [last] in (last l ConnectionEnd) with
        | Respond _ ?code ?b => exists code, b
        end
    end;
    (split; [reflexivity|split; [repeat constructor|simpl; auto 6]]).
Qed.

(** A request that passes the checks, over a tunnel that accepts the
    probe, with a database that accepts the connection, runs the query
    and closes: the caller gets the rows, after exactly one probe, one
    connection, one statement and one close. *)
Theorem query_success_returns_rows res body m host rows :
  sent res (trace m) = false ->
  passes_checks body host ->
  let dbConfig := get (body_or_empty body) "dbConfig" in
  let q := query_text (get (body_or_empty body) "query") in
  (exists port_s, ToString (get dbConfig "port") = inr port_s) ->
  net_connect host (get dbConfig "port") = None ->
  createConnection (connection_settings host dbConfig) = None ->
  execute q = inr rows ->
  connection_end (ends (trace m)) = None ->
  execute_sql res body m
  = Return tt
      {| vars := vars m;
         trace := trace m ++
           [ NetConnect host (get dbConfig "port");
             CreateConnection (connection_settings host dbConfig);
             Execute q; ConnectionEnd; Respond res 200 (Data rows) ] |}.
Proof.
  intros Hs (Hq & Hc & Hsafe & Hhost & Hport & Huser) dbConfig q
         (port_s & Hps) Hnet Hcreate Hexec Hend.
  destruct m as [v t]. cbn [vars trace] in *.
  rewrite (@execute_sql_checked_run net_connect createConnection execute
             connection_end res body v t host Hs Hq Hc Hsafe Hhost).
  subst dbConfig q.
  unfold checked_effects, database_effects, query_effects.
  rewrite Hport, Huser, Hps, Hnet, Hcreate, Hexec, Hend. reflexivity.
Qed.

(** Once the database connection is open, the statement is executed
    once and the connection is closed before the caller is answered,
    whatever happens: [connection.end()] is called once, or twice when
    its first call fails.  When the statement fails, the answer is a 500
    carrying the driver's message. *)
Theorem opened_connection_is_closed res body m host :
  sent res (trace m) = false ->
  passes_checks body host ->
  let dbConfig := get (body_or_empty body) "dbConfig" in
  let q := query_text (get (body_or_empty body) "query") in
  (exists port_s, ToString (get dbConfig "port") = inr port_s) ->
  net_connect host (get dbConfig "port") = None ->
  createConnection (connection_settings host dbConfig) = None ->
  exists k code b,
    execute_sql res body m
    = Return tt
        {| vars := vars m;
           trace := trace m ++
             NetConnect host (get dbConfig "port")
             :: CreateConnection (connection_settings host dbConfig)
             :: closes_then_answers res q k code b |} /\
    (k = 1 \/ k = 2)%nat /\
    (forall err, execute q = inl err ->
       code = 500%N /\
       b = Failure (message_or err (lit "Query execution failed"))) /\
    (forall rows, execute q = inr rows ->
       connection_end (ends (trace m)) = None ->
       code = 200%N /\ b = Data rows).
Proof.
  intros Hs (Hq & Hc & Hsafe & Hhost & Hport & Huser) dbConfig q
         (port_s & Hps) Hnet Hcreate.
  destruct m as [v t]. cbn [vars trace] in *.
  rewrite (@execute_sql_checked_run net_connect createConnection execute
             connection_end res body v t host Hs Hq Hc Hsafe Hhost).
  subst dbConfig q.
  unfold checked_effects, database_effects, query_effects, closes_then_answers.
  rewrite Hport, Huser, Hps, Hnet, Hcreate. cbn [negb orb].
  destruct (execute (query_text (get (body_or_empty body) "query"))) as [err|rows].
  - exists 1%nat. eexists. eexists. split; [reflexivity|].
    split; [auto|]. split.
    + intros err' H. inversion H; subst. auto.
    + intros rows H. discriminate H.
  - destruct (connection_end (ends t)) as [e|].
    + exists 2%nat. eexists. eexists. split; [reflexivity|].
      split; [auto|]. split; intros x H; [discriminate H|].
      intros H'. discriminate H'.
    + exists 1%nat. eexists. eexists. split; [reflexivity|].
      split; [auto|]. split; intros x H; [discriminate H|].
      intros _. inversion H; subst. auto.
Qed.

(** When the database refuses the connection, the caller gets a 500
    carrying the client's message, and no statement is executed. *)
Theorem refused_connection_runs_nothing res body m host e :
  sent res (trace m) = false ->
  passes_checks body host ->
  let dbConfig := get (body_or_empty body) "dbConfig" in
  (exists port_s, ToString (get dbConfig "port") = inr port_s) ->
  net_connect host (get dbConfig "port") = None ->
  createConnection (connection_settings host dbConfig) = Some e ->
  execute_sql res body m
  = Return tt
      {| vars := vars m;
         trace := trace m ++
           [ NetConnect host (get dbConfig "port");
             CreateConnection (connection_settings host dbConfig);
             Respond res 500
               (Failure (message_or e (lit "Unexpected server error"))) ] |}.
Proof.
  intros Hs (Hq & Hc & Hsafe & Hhost & Hport & Huser) dbConfig
         (port_s & Hps) Hnet Hcreate.
  destruct m as [v t]. cbn [vars trace] in *.
  rewrite (@execute_sql_checked_run net_connect createConnection execute
             connection_end res body v t host Hs Hq Hc Hsafe Hhost).
  subst dbConfig.
  unfold checked_effects, database_effects.
  rewrite Hport, Huser, Hps, Hnet, Hcreate. reflexivity.
Qed.

End ExecuteSqlExtra.

Lemma sql_request_passes : passes_checks sql_request (lit "127.0.0.1").
Proof. unfold passes_checks. repeat apply conj; vm_compute; reflexivity. Qed.

(** The theorem at a DROP statement. *)
Lemma rejected_query_goes_nowhere_witness :
  exists message,
    execute_sql reachable accepting returning_one_row closing 5 sql_drop_request started
    = Return tt {| vars := vars started;
                   trace := trace started ++ [Respond 5 400 (Failure message)] |} /\
    message =
      if truthy (get (body_or_empty sql_drop_request) "query")
         && truthy (get (body_or_empty sql_drop_request) "dbConfig")
      then lit "Only single-statement SELECT queries are allowed."
      else lit "Missing query or dbConfig".
Proof.
  apply (@rejected_query_goes_nowhere reachable accepting returning_one_row closing
           5 sql_drop_request started).
  - reflexivity.
  - vm_compute. reflexivity.
Defined.

(** The theorem at a request over a tunnel that is down. *)
Lemma execute_sql_answers_once_witness :
  exists es code b,
    execute_sql refused accepting returning_one_row closing 5 sql_request started
    = Return tt {| vars := vars started;
                   trace := trace started ++ es ++ [Respond 5 code b] |} /\
    Forall (fun e => is_response e = false) es /\
    In code [200; 400; 500; 502]%N.
Proof.
  apply (@execute_sql_answers_once refused accepting returning_one_row closing
           5 sql_request started).
  reflexivity.
Defined.

(** The theorem at a request that goes through. *)
Lemma query_success_returns_rows_witness :
  execute_sql reachable accepting returning_one_row closing 5 sql_request started
  = Return tt
      {| vars := vars started;
         trace := trace started ++
           [ NetConnect (lit "127.0.0.1") (get (get (body_or_empty sql_request) "dbConfig") "port");
             CreateConnection
               (connection_settings (lit "127.0.0.1")
                  (get (body_or_empty sql_request) "dbConfig"));
             Execute (query_text (get (body_or_empty sql_request) "query"));
             ConnectionEnd; Respond 5 200 (Data one_row) ] |}.
Proof.
  apply (@query_success_returns_rows reachable accepting returning_one_row closing
           5 sql_request started (lit "127.0.0.1") one_row).
  - reflexivity.
  - exact sql_request_passes.
  - eexists. vm_compute. reflexivity.
  - reflexivity.
  - reflexivity.
  - reflexivity.
  - reflexivity.
Defined.

(** The theorem at a statement the database rejects. *)
Lemma opened_connection_is_closed_witness :
  exists k code b,
    execute_sql reachable accepting unknown_table closing 5 sql_request started
    = Return tt
        {| vars := vars started;
           trace := trace started ++
             NetConnect (lit "127.0.0.1")
               (get (get (body_or_empty sql_request) "dbConfig") "port")
             :: CreateConnection
                  (connection_settings (lit "127.0.0.1")
                     (get (body_or_empty sql_request) "dbConfig"))
             :: closes_then_answers 5
                  (query_text (get (body_or_empty sql_request) "query")) k code b |} /\
    (k = 1 \/ k = 2)%nat /\
    (forall err,
       unknown_table (query_text (get (body_or_empty sql_request) "query")) = inl err ->
       code = 500%N /\
       b = Failure (message_or err (lit "Query execution failed"))) /\
    (forall rows,
       unknown_table (query_text (get (body_or_empty sql_request) "query")) = inr rows ->
       closing (ends (trace started)) = None ->
       code = 200%N /\ b = Data rows).
Proof.
  apply (@opened_connection_is_closed reachable accepting unknown_table closing
           5 sql_request started (lit "127.0.0.1")).
  - reflexivity.
  - exact sql_request_passes.
  - eexists. vm_compute. reflexivity.
  - reflexivity.
  - reflexivity.
Defined.

(** The theorem at a database that denies access. *)
Lemma refused_connection_runs_nothing_witness :
  execute_sql reachable access_denied returning_one_row closing 5 sql_request started
  = Return tt
      {| vars := vars started;
         trace := trace started ++
           [ NetConnect (lit "127.0.0.1")
               (get (get (body_or_empty sql_request) "dbConfig") "port");
             CreateConnection
               (connection_settings (lit "127.0.0.1")
                  (get (body_or_empty sql_request) "dbConfig"));
             Respond 5 500
               (Failure (message_or (Error (lit "Access denied for user 'app'@'localhost'"))
                           (lit "Unexpected server error"))) ] |}.
Proof.
  apply (@refused_connection_runs_nothing reachable access_denied returning_one_row
           closing 5 sql_request started (lit "127.0.0.1")
           (Error (lit "Access denied for user 'app'@'localhost'"))).
  - reflexivity.
  - exact sql_request_passes.
  - eexists. vm_compute. reflexivity.
  - reflexivity.
  - reflexivity.
Defined.

(** *** Host normalization *)

Lemma normalize_host_fixed x :
  trim x = x -> lower_equals x (lit "localhost") = false ->
  str_eqb x [] = false -> str_eqb x (lit "::1") = false ->
  normalize_host (JStr x) = inr x.
Proof.
  intros Ht H1 H2 H3. unfold normalize_host.
  assert (Hx : truthy (JStr x) = true) by (destruct x; [discriminate H2|reflexivity]).
  rewrite Hx. cbn [toString_call ToString]. rewrite Ht, H1, H2, H3. reflexivity.
Qed.

(** Normalization is idempotent: a host it returned is returned
    unchanged.  Such a host is trimmed and is neither "localhost" in any
    letter case nor "::1". *)
Theorem normalize_host_idempotent host h :
  normalize_host host = inr h ->
  normalize_host (JStr h) = inr h /\
  trim h = h /\
  lower_equals h (lit "localhost") = false /\
  str_eqb h (lit "::1") = false.
Proof.
  unfold normalize_host at 1.
  destruct (toString_call _) as [e|s0]; [discriminate|].
  intros H. inversion H as [Hh]; clear H.
  destruct (lower_equals (trim s0) (lit "localhost") || str_eqb (trim s0) []
            || str_eqb (trim s0) (lit "::1")) eqn:C.
  - repeat split; vm_compute; reflexivity.
  - apply orb_false_iff in C. destruct C as (C & C3).
    apply orb_false_iff in C. destruct C as (C1 & C2).
    split; [|split; [apply trim_idempotent|split; assumption]].
    apply normalize_host_fixed; try assumption. apply trim_idempotent.
Qed.

(** The theorem at a padded, mixed-case "localhost" and at a padded host
    name. *)
Lemma normalize_host_idempotent_witness :
  (normalize_host (JStr (lit "127.0.0.1")) = inr (lit "127.0.0.1") /\
   trim (lit "127.0.0.1") = lit "127.0.0.1" /\
   lower_equals (lit "127.0.0.1") (lit "localhost") = false /\
   str_eqb (lit "127.0.0.1") (lit "::1") = false) /\
  (normalize_host (JStr (lit "db.internal")) = inr (lit "db.internal") /\
   trim (lit "db.internal") = lit "db.internal" /\
   lower_equals (lit "db.internal") (lit "localhost") = false /\
   str_eqb (lit "db.internal") (lit "::1") = false).
Proof.
  split.
  - apply (@normalize_host_idempotent (JStr (lit "  LocalHost ")) (lit "127.0.0.1")).
    vm_compute. reflexivity.
  - apply (@normalize_host_idempotent (JStr (lit " db.internal  ")) (lit "db.internal")).
    vm_compute. reflexivity.
Defined.

(** *** Connect attempts *)

Lemma sent_teardown_effects res write_error v :
  sent res (teardown_effects write_error v) = false.
Proof.
  unfold teardown_effects. destruct (tunnelProcess v); [|reflexivity].
  unfold sent. cbn [existsb responds_on orb]. apply sent_delivered.
Qed.

Lemma own_property_nonempty env prof :
  own_property env envTunnel = Some prof -> truthy (JStr env) = true.
Proof. destruct env; [discriminate|reflexivity]. Qed.

(** POST /connect with an environment that converts to a key of the
    configuration: the slot is emptied and the login command started;
    nothing is answered yet. *)
Lemma connect_known_run write_error res body e prof v t :
  get body "env" = e -> truthy e = true ->
  envTunnel_lookup e = inr (Some (Configured prof)) ->
  connect write_error res body {| vars := v; trace := t |}
  = Return (Some (Known {| p_res := res; p_env := e; p_profile := prof |}))
      {| vars := after_teardown v;
         trace := (t ++ teardown_effects write_error v) ++ [Exec loginCommand] |}.
Proof.
  intros Henv Hne Hprof.
  assert (Hgo : forall v' t',
    match body with
    | JUndefined | JNull =>
        throw (TypeError (lit "Cannot destructure property 'env' of 'req.body' as it is undefined."))
    | _ =>
        if negb (truthy (get body "env")) then
          respond res 400 (Failure (lit "Invalid or missing environment specified.")) ;;
          ret None
        else
          o <- lift (envTunnel_lookup (get body "env")) ;;
          match o with
          | None =>
              respond res 400 (Failure (lit "Invalid or missing environment specified.")) ;;
              ret None
          | Some (Configured prof) =>
              emit (Exec loginCommand) ;;
              ret (Some (Known {| p_res := res; p_env := get body "env";
                                  p_profile := prof |}))
          | Some Inherited =>
              emit (Exec loginCommand) ;;
              ret (Some (Unconfigured res))
          end
    end {| vars := v'; trace := t' |}
    = Return (Some (Known {| p_res := res; p_env := e; p_profile := prof |}))
        {| vars := v'; trace := t' ++ [Exec loginCommand] |}).
  { intros v' t'.
    destruct body; try (cbn in Henv; subst e; discriminate Hne);
      rewrite Henv, Hne; cbn [negb]; rewrite Hprof; reflexivity. }
  unfold connect, teardown_effects, after_teardown. step_bind.
  unfold read at 1. cbn [vars]. destruct (tunnelProcess v) as [p|].
  - step_bind. step_bind. unfold emit at 1. cbn [vars trace].
    step_bind. rewrite clear_slot_run, broadcastStatus_run.
    unfold push. cbn [vars trace]. rewrite Hgo.
    rewrite <- !app_assoc. reflexivity.
  - step_bind. unfold ret at 1. rewrite Hgo. rewrite app_nil_r. reflexivity.
Qed.

Lemma connect_valid_run write_error res body env prof v t :
  get body "env" = JStr env -> own_property env envTunnel = Some prof ->
  connect write_error res body {| vars := v; trace := t |}
  = Return (Some (Known {| p_res := res; p_env := JStr env; p_profile := prof |}))
      {| vars := after_teardown v;
         trace := (t ++ teardown_effects write_error v) ++ [Exec loginCommand] |}.
Proof.
  intros Henv Hprof. apply connect_known_run.
  - exact Henv.
  - exact (own_property_nonempty _ Hprof).
  - unfold envTunnel_lookup, envTunnel_get. cbn [ToString]. rewrite Hprof.
    reflexivity.
Qed.

Lemma create_tunnel_run write_error isPortFree c statusStdout child v t :
  let chosen := choosePortForTunnel isPortFree (defaultLocalPort (p_profile c)) in
  create_tunnel write_error isPortFree c statusStdout child {| vars := v; trace := t |}
  = Return {| a_res := p_res c; a_env := p_env c; a_chosenPort := chosen;
              a_statusStdout := statusStdout |}
      {| vars := with_process (with_port v chosen) child;
         trace := (t ++ delivered write_error (with_port v chosen))
                  ++ [spawn_effect child chosen (p_profile c)] |}.
Proof.
  intros chosen. unfold create_tunnel. fold chosen.
  unfold bind at 1. unfold set_tunnelLocalPort, write.
  cbn [vars trace]. unfold bind at 1. rewrite broadcastStatus_run.
  unfold bind, emit, set_tunnelProcess, write, ret, push. cbn [vars trace].
  reflexivity.
Qed.

Lemma attempt_launch_run write_error isPortFree res body env prof
    loginStderr statusStdout statusStderr child v t :
  get body "env" = JStr env -> own_property env envTunnel = Some prof ->
  let chosen := choosePortForTunnel isPortFree (defaultLocalPort prof) in
  attempt write_error isPortFree res body false loginStderr
          false statusStdout statusStderr child {| vars := v; trace := t |}
  = Return (Some {| a_res := res; a_env := JStr env; a_chosenPort := chosen;
                    a_statusStdout := statusStdout |})
      {| vars := with_process (with_port (after_teardown v) chosen) child;
         trace := ((((t ++ teardown_effects write_error v) ++ [Exec loginCommand])
                    ++ [Exec statusCommand])
                   ++ delivered write_error (with_port (after_teardown v) chosen))
                  ++ [spawn_effect child chosen prof] |}.
Proof.
  intros Henv Hprof chosen. unfold attempt. step_bind.
  rewrite (connect_valid_run write_error res body v t Henv Hprof).
  step_bind. unfold login_callback. step_bind. unfold emit at 1. cbn [vars trace].
  unfold ret at 1. step_bind. unfold status_callback, ret at 1.
  step_bind. rewrite create_tunnel_run. reflexivity.
Qed.

(** A connect request for a known environment, with login and status
    commands that succeed and no subprocess event before the timer:
    the caller gets the success response with the chosen port, and
    nothing else; the slot then holds the new process, the environment
    and the port, and one process was spawned, for that port and the
    remote host of the environment.  A process found in the slot at the
    request was killed first. *)
Theorem connect_confirms write_error isPortFree res body env prof
    loginStderr statusStdout statusStderr child m :
  sent res (trace m) = false ->
  get body "env" = JStr env -> own_property env envTunnel = Some prof ->
  let chosen := choosePortForTunnel isPortFree (defaultLocalPort prof) in
  exists a m',
    confirmed_attempt write_error isPortFree res body false loginStderr
                      false statusStdout statusStderr child m
      = Return (Some a) m' /\
    vars m' = {| tunnelProcess := Some child; connectedEnv := JStr env;
                 tunnelLocalPort := Some chosen;
                 sseClients := sseClients (vars m) |} /\
    filter (responds_on res) (trace m')
      = [Respond res 200
           (ConnectSuccess statusStdout chosen (success_message env chosen))] /\
    filter (fun e => match e with Spawn _ _ _ => true | _ => false end)
           (skipn (List.length (trace m)) (trace m'))
      = [spawn_effect child chosen prof] /\
    filter (fun e => match e with Kill _ _ => true | _ => false end)
           (skipn (List.length (trace m)) (trace m'))
      = match tunnelProcess (vars m) with
        | Some p => [Kill p None]
        | None => []
        end.
Proof.
  intros Hs Henv Hprof chosen. destruct m as [v t]. cbn [vars trace] in *.
  unfold confirmed_attempt. step_bind.
  rewrite (attempt_launch_run write_error isPortFree res body loginStderr
             statusStdout statusStderr child v t Henv Hprof).
  fold chosen. step_bind.
  rewrite (@on_timer_unsent write_error _ env).
  2:{ cbn [a_res]. rewrite !sent_app, Hs, sent_teardown_effects, sent_delivered.
      reflexivity. }
  2:{ reflexivity. }
  unfold ret. eexists. eexists. split; [reflexivity|]. cbn [vars trace a_res
    a_statusStdout a_chosenPort].
  assert (Hd : forall w v0 f,
            (forall r s, f (SseWrite r s) = false) ->
            filter f (delivered w v0) = []).
  { intros w v0 f Hf. unfold delivered.
    induction (filter (write_ok w) (sseClients v0)) as [|r l IH]; simpl; [reflexivity|].
    rewrite Hf. exact IH. }
  split.
  { unfold with_env, with_process, with_port, after_teardown.
    destruct (tunnelProcess v); reflexivity. }
  split.
  { rewrite !filter_app. rewrite (filter_unsent res t Hs).
    rewrite (filter_unsent res _ (sent_teardown_effects res write_error v)).
    rewrite !Hd by reflexivity.
    cbn [filter responds_on app spawn_effect]. rewrite Nat.eqb_refl. reflexivity. }
  rewrite <- !app_assoc. rewrite skipn_app, skipn_all, Nat.sub_diag.
  cbn [skipn]. rewrite app_nil_l. split.
  - rewrite !filter_app, !Hd by reflexivity. unfold teardown_effects.
    destruct (tunnelProcess v); cbn [filter app spawn_effect];
      rewrite ?Hd by reflexivity; reflexivity.
  - rewrite !filter_app, !Hd by reflexivity. unfold teardown_effects.
    destruct (tunnelProcess v); cbn [filter app spawn_effect];
      rewrite ?Hd by reflexivity; reflexivity.
Qed.

(** When the login command fails, or the status command after it, the
    caller gets a 500 carrying the error output of the command, and the
    attempt stops there: no port is probed or published, nothing is
    spawned, and the variables stay as the request's tear-down left
    them. *)
Theorem failed_command_aborts write_error isPortFree res body env prof
    loginStderr statusError statusStdout statusStderr child m :
  sent res (trace m) = false ->
  get body "env" = JStr env -> own_property env envTunnel = Some prof ->
  attempt write_error isPortFree res body true loginStderr
          statusError statusStdout statusStderr child m
  = Return None
      {| vars := after_teardown (vars m);
         trace := (trace m ++ teardown_effects write_error (vars m))
                  ++ [Exec loginCommand; Respond res 500 (login_failed loginStderr)] |}
  /\
  attempt write_error isPortFree res body false loginStderr
          true statusStdout statusStderr child m
  = Return None
      {| vars := after_teardown (vars m);
         trace := (trace m ++ teardown_effects write_error (vars m))
                  ++ [Exec loginCommand; Exec statusCommand;
                      Respond res 500 (status_failed statusStderr)] |}.
Proof.
  intros Hs Henv Hprof. destruct m as [v t]. cbn [vars trace] in *.
  assert (Hs' : sent res ((t ++ teardown_effects write_error v) ++ [Exec loginCommand])
                = false)
    by (rewrite !sent_app, Hs, sent_teardown_effects; reflexivity).
  split.
  - unfold attempt. step_bind.
    rewrite (connect_valid_run write_error res body v t Henv Hprof).
    step_bind. unfold login_callback. step_bind. cbn [v_res p_res].
    rewrite respond_run by exact Hs'. unfold ret.
    rewrite <- !app_assoc. reflexivity.
  - unfold attempt. step_bind.
    rewrite (connect_valid_run write_error res body v t Henv Hprof).
    step_bind. unfold login_callback. step_bind. unfold emit at 1. cbn [vars trace].
    unfold ret at 1. step_bind. unfold status_callback. step_bind. cbn [v_res p_res].
    rewrite respond_run by (rewrite sent_app, Hs'; reflexivity).
    unfold ret. rewrite <- !app_assoc. reflexivity.
Qed.

(** The theorem for "uat1" while a tunnel for "sit" is up, with 4023
    occupied and 4024 free. *)
Lemma connect_confirms_witness :
  exists a m',
    confirmed_attempt (fun _ => None) (fun p => Z.eqb p 4024) 2 connect_uat1
                      false [] false (lit "> Profile URL: cardx.teleport.sh") []
                      child2 {| vars := tunnel_up; trace := [] |}
      = Return (Some a) m' /\
    vars m' = {| tunnelProcess := Some child2; connectedEnv := JStr (lit "uat1");
                 tunnelLocalPort :=
                   Some (choosePortForTunnel (fun p => Z.eqb p 4024)
                           (defaultLocalPort uat1_profile));
                 sseClients := sseClients tunnel_up |} /\
    filter (responds_on 2) (trace m')
      = [Respond 2 200
           (ConnectSuccess (lit "> Profile URL: cardx.teleport.sh")
              (choosePortForTunnel (fun p => Z.eqb p 4024) (defaultLocalPort uat1_profile))
              (success_message (lit "uat1")
                 (choosePortForTunnel (fun p => Z.eqb p 4024)
                    (defaultLocalPort uat1_profile))))] /\
    filter (fun e => match e with Spawn _ _ _ => true | _ => false end)
           (skipn (List.length (@nil Effect)) (trace m'))
      = [spawn_effect child2
           (choosePortForTunnel (fun p => Z.eqb p 4024) (defaultLocalPort uat1_profile))
           uat1_profile] /\
    filter (fun e => match e with Kill _ _ => true | _ => false end)
           (skipn (List.length (@nil Effect)) (trace m'))
      = match tunnelProcess tunnel_up with
        | Some p => [Kill p None]
        | None => []
        end.
Proof.
  apply (@connect_confirms (fun _ => None) (fun p => Z.eqb p 4024) 2 connect_uat1
           (lit "uat1") uat1_profile [] (lit "> Profile URL: cardx.teleport.sh") []
           child2 {| vars := tunnel_up; trace := [] |}).
  - reflexivity.
  - reflexivity.
  - reflexivity.
Defined.

(** What the witness chose and answered. *)
Example connect_uat1_port :
  choosePortForTunnel (fun p => Z.eqb p 4024) (defaultLocalPort uat1_profile) = 4024%Z
  /\ success_message (lit "uat1") 4024
     = lit "SSH tunnel for UAT1 environment initiated on port 4024.".
Proof. split; vm_compute; reflexivity. Qed.

(** The theorem for "sit" with a login that is refused. *)
Lemma failed_command_aborts_witness :
  attempt (fun _ => None) (fun _ => true) 1 connect_sit true (lit "access denied")
          false [] (lit "not logged in") child1 started
  = Return None
      {| vars := after_teardown (vars started);
         trace := (trace started ++ teardown_effects (fun _ => None) (vars started))
                  ++ [Exec loginCommand;
                      Respond 1 500 (login_failed (lit "access denied"))] |}
  /\
  attempt (fun _ => None) (fun _ => true) 1 connect_sit false (lit "access denied")
          true [] (lit "not logged in") child1 started
  = Return None
      {| vars := after_teardown (vars started);
         trace := (trace started ++ teardown_effects (fun _ => None) (vars started))
                  ++ [Exec loginCommand; Exec statusCommand;
                      Respond 1 500 (status_failed (lit "not logged in"))] |}.
Proof.
  apply (@failed_command_aborts (fun _ => None) (fun _ => true) 1 connect_sit
           (lit "sit") (p_profile pending_sit) (lit "access denied") false []
           (lit "not logged in") child1 started).
  - reflexivity.
  - reflexivity.
  - reflexivity.
Defined.

(** *** Responding once *)

Lemma sent_responses res t : sent res t = false <-> responses res t = [].
Proof.
  unfold sent, responses. induction t as [|e t IH]; simpl; [tauto|].
  destruct (responds_on res e); simpl; [split; discriminate|exact IH].
Qed.

Lemma responses_app res t u :
  responses res (t ++ u) = responses res t ++ responses res u.
Proof. apply filter_app. Qed.

Lemma responses_delivered res write_error v :
  responses res (delivered write_error v) = [].
Proof. apply sent_responses. apply sent_delivered. Qed.

(** One signal: what it adds to the responses of the attempt. *)
Lemma on_signal_responses write_error a s m :
  exists rs,
    responses (a_res a) (trace (final (on_signal write_error a s m)))
      = responses (a_res a) (trace m) ++ rs /\
    (sent (a_res a) (trace m) = true -> rs = []) /\
    (List.length rs <= 1)%nat /\
    (s = TimerFired ->
     forall m', on_signal write_error a s m = Return tt m' ->
     sent (a_res a) (trace m) = false -> List.length rs = 1%nat) /\
    (forall e m', on_signal write_error a s m = Throw e m' ->
       e = kill_of_null \/
       ((forall env, a_env a <> JStr env) /\ e = toUpperCase_error (a_env a))).
Proof.
  destruct m as [v t]. cbn [vars trace].
  destruct (sent (a_res a) t) eqn:Hs; destruct s as [|data| |]; cbn [on_signal].
  - rewrite on_error_run, Hs. cbn [final trace].
    exists []. rewrite !responses_app, responses_delivered, !app_nil_r.
    repeat split; auto; discriminate.
  - rewrite on_stderr_data_sent by exact Hs. cbn [final trace].
    exists []. rewrite !responses_app, responses_delivered, !app_nil_r.
    repeat split; auto; discriminate.
  - rewrite on_close_run. cbn [final trace].
    exists []. rewrite !responses_app, responses_delivered, !app_nil_r.
    repeat split; auto; discriminate.
  - rewrite on_timer_sent by exact Hs. cbn [final trace].
    exists []. rewrite !app_nil_r.
    repeat split; auto; discriminate.
  - rewrite on_error_run, Hs. cbn [final trace].
    rewrite !responses_app, responses_delivered, !app_nil_r.
    eexists. split; [reflexivity|]. cbn [responses filter responds_on].
    rewrite Nat.eqb_refl. repeat split; auto; discriminate.
  - destruct (tunnelProcess v) as [p|] eqn:Hp.
    + rewrite (@on_stderr_data_unsent write_error a data v t p Hs Hp).
      cbn [final trace].
      rewrite !responses_app, responses_delivered, !app_nil_r.
      eexists. split; [reflexivity|]. cbn [responses filter responds_on].
      rewrite Nat.eqb_refl. repeat split; auto; discriminate.
    + rewrite (on_stderr_data_null write_error a data v t Hs Hp).
      cbn [final trace]. exists []. rewrite app_nil_r.
      repeat split; auto; try discriminate.
      intros e m' H. inversion H; subst. left. reflexivity.
  - rewrite on_close_run. cbn [final trace].
    exists []. rewrite !responses_app, responses_delivered, !app_nil_r.
    repeat split; auto; discriminate.
  - assert (Hcase : (exists env, a_env a = JStr env) \/
                    (forall env, a_env a <> JStr env)).
    { destruct (a_env a); try (right; intros env H; discriminate H).
      left. eexists. reflexivity. }
    destruct Hcase as [(env & Henv) | Hodd].
    + rewrite (@on_timer_unsent write_error a env v t Hs Henv). cbn [final trace].
      rewrite !responses_app, responses_delivered, !app_nil_r.
      eexists. split; [reflexivity|]. cbn [responses filter responds_on].
      rewrite Nat.eqb_refl. repeat split; auto; discriminate.
    + rewrite (on_timer_odd write_error a v t Hs Hodd).
      cbn [final trace]. exists []. rewrite app_nil_r.
      repeat split; auto; try discriminate.
      intros e m' H. inversion H; subst. right. split; [exact Hodd|reflexivity].
Qed.

Lemma on_signals_responses write_error a ss : forall m,
  (List.length (responses (a_res a) (trace m)) <= 1)%nat ->
  let r := on_signals write_error a ss m in
  (List.length (responses (a_res a) (trace m))
   <= List.length (responses (a_res a) (trace (final r))) <= 1)%nat /\
  (forall m', r = Return tt m' -> existsb is_timer ss = true ->
     List.length (responses (a_res a) (trace m')) = 1%nat) /\
  (forall e m', r = Throw e m' ->
     e = kill_of_null \/
     ((forall env, a_env a <> JStr env) /\ e = toUpperCase_error (a_env a))).
Proof.
  induction ss as [|s ss IH]; intros m Hle; cbn zeta.
  - unfold on_signals. cbn [for_each final ret]. split; [lia|].
    split; [discriminate|]. intros e m' H. discriminate H.
  - destruct (@on_signal_responses write_error a s m)
      as (rs & Hrs & Hsent & Hlen & Htimer & Hthrow).
    assert (Hone : (List.length (responses (a_res a) (trace m) ++ rs) <= 1)%nat).
    { destruct (sent (a_res a) (trace m)) eqn:Hs.
      - rewrite (Hsent eq_refl), app_nil_r. exact Hle.
      - apply sent_responses in Hs. rewrite Hs. exact Hlen. }
    unfold on_signals. cbn [for_each]. unfold bind.
    destruct (on_signal write_error a s m) as [[] m1|e m1] eqn:Hrun.
    + cbn [final] in Hrs. fold (on_signals write_error a ss m1).
      rewrite <- Hrs in Hone.
      assert (Hm1 : (List.length (responses (a_res a) (trace m))
                     <= List.length (responses (a_res a) (trace m1)))%nat)
        by (rewrite Hrs, length_app; lia).
      destruct (IH m1 Hone) as (Hmono & Hret & Hthr).
      split; [lia|].
      split; [|exact Hthr].
      intros m' Hm' Hex. cbn [existsb] in Hex.
      destruct (existsb is_timer ss) eqn:Hss; [apply Hret; auto|].
      rewrite orb_false_r in Hex. destruct s; try discriminate Hex.
      pose proof (Htimer eq_refl m1 eq_refl) as Hfresh.
      assert (H1 : List.length (responses (a_res a) (trace m1)) = 1%nat).
      { rewrite Hrs. destruct (sent (a_res a) (trace m)) eqn:Hs.
        - rewrite (Hsent eq_refl), app_nil_r.
          destruct (responses (a_res a) (trace m)) as [|x l] eqn:Hr.
          + apply sent_responses in Hr. congruence.
          + simpl in *. lia.
        - rewrite length_app, (Hfresh eq_refl).
          apply sent_responses in Hs. rewrite Hs. reflexivity. }
      rewrite Hm' in Hmono. cbn [final] in Hmono. lia.
    + cbn [final] in *. split.
      { rewrite Hrs, length_app. rewrite length_app in Hone. lia. }
      split; [discriminate|].
      intros e' m' H. inversion H; subst. eapply Hthrow. reflexivity.
Qed.

(** After the launch, whatever subprocess events and timer reach the
    handlers of an attempt, in whatever order and number, its caller is
    answered at most once; exactly once as soon as the timer has fired
    and the run went through; and no handler ever tries to answer a
    second time.  A handler can raise two exceptions only: the one of
    the error-stream handler finding the slot empty, and the one of the
    timer calling [env.toUpperCase()] on an environment that is no
    string (which, for the truthy environment of a launched attempt, is
    "env.toUpperCase is not a function"). *)
Theorem attempt_answers_once write_error a ss m :
  sent (a_res a) (trace m) = false ->
  (List.length (responses (a_res a)
                  (trace (final (on_signals write_error a ss m)))) <= 1)%nat /\
  (forall m', on_signals write_error a ss m = Return tt m' ->
     existsb is_timer ss = true ->
     List.length (responses (a_res a) (trace m')) = 1%nat) /\
  (forall e m', on_signals write_error a ss m = Throw e m' ->
     e = kill_of_null \/
     ((forall env, a_env a <> JStr env) /\ e = toUpperCase_error (a_env a))) /\
  (truthy (a_env a) = true -> toUpperCase_error (a_env a) = no_toUpperCase).
Proof.
  intros Hs. apply sent_responses in Hs.
  destruct (@on_signals_responses write_error a ss m) as (H1 & H2 & H3).
  - rewrite Hs. simpl. lia.
  - split; [lia|]. split; [assumption|]. split; [assumption|].
    destruct (a_env a); try reflexivity; discriminate.
Qed.

(** The theorem at a fresh attempt for "sit": data on the error stream,
    then the exit, then the timer. *)
Lemma attempt_answers_once_witness :
  (List.length (responses (a_res attempt1)
                  (trace (final (on_signals (fun _ => None) attempt1
                                   [StderrData (lit "denied"); Closed; TimerFired]
                                   {| vars := with_env tunnel_up JNull; trace := [] |}))))
   <= 1)%nat /\
  (forall m', on_signals (fun _ => None) attempt1
                [StderrData (lit "denied"); Closed; TimerFired]
                {| vars := with_env tunnel_up JNull; trace := [] |} = Return tt m' ->
     existsb is_timer [StderrData (lit "denied"); Closed; TimerFired] = true ->
     List.length (responses (a_res attempt1) (trace m')) = 1%nat) /\
  (forall e m', on_signals (fun _ => None) attempt1
                  [StderrData (lit "denied"); Closed; TimerFired]
                  {| vars := with_env tunnel_up JNull; trace := [] |} = Throw e m' ->
     e = kill_of_null \/
     ((forall env, a_env attempt1 <> JStr env) /\
      e = toUpperCase_error (a_env attempt1))) /\
  (truthy (a_env attempt1) = true ->
   toUpperCase_error (a_env attempt1) = no_toUpperCase).
Proof.
  apply (@attempt_answers_once (fun _ => None) attempt1
           [StderrData (lit "denied"); Closed; TimerFired]
           {| vars := with_env tunnel_up JNull; trace := [] |}).
  reflexivity.
Defined.

(** *** Disconnect, subscription, status *)

Lemma added_app v t v' es :
  added {| vars := v; trace := t |} {| vars := v'; trace := t ++ es |} = es.
Proof.
  unfold added. cbn [trace]. rewrite skipn_app, skipn_all, Nat.sub_diag.
  reflexivity.
Qed.

Lemma filter_delivered f write_error v :
  (forall r s, f (SseWrite r s) = false) -> filter f (delivered write_error v) = [].
Proof.
  intros Hf. unfold delivered.
  induction (filter (write_ok write_error) (sseClients v)) as [|r l IH];
    simpl; [reflexivity|]. rewrite Hf. exact IH.
Qed.

(** A disconnect call sends SIGTERM to the process in the slot, if there
    is one, and to nothing else; it runs the logout command exactly
    once; and it never touches the local port or the observer set, nor
    the environment when no process was in the slot. *)
Theorem disconnect_touches write_error res error m :
  sent res (trace m) = false ->
  exists m',
    disconnect_call write_error res error m = Return tt m' /\
    filter is_kill (added m m')
      = match tunnelProcess (vars m) with
        | Some p => [Kill p (Some (lit "SIGTERM"))]
        | None => []
        end /\
    filter is_exec (added m m') = [Exec logoutCommand] /\
    tunnelLocalPort (vars m') = tunnelLocalPort (vars m) /\
    sseClients (vars m') = sseClients (vars m) /\
    (tunnelProcess (vars m) = None -> vars m' = vars m).
Proof.
  intros Hs. destruct m as [v t]. cbn [vars trace] in *.
  eexists. split; [apply disconnect_call_run; exact Hs|].
  rewrite <- !app_assoc. rewrite added_app. cbn [vars].
  rewrite !filter_app, !filter_delivered by reflexivity.
  unfold disconnect_effects.
  destruct (tunnelProcess v) eqn:Hp; cbn [filter is_kill is_exec app];
    rewrite ?filter_delivered by reflexivity;
    repeat split; try reflexivity; discriminate.
Qed.

Lemma disconnect_touches_witness :
  exists m',
    disconnect_call (fun _ => None) 3 true {| vars := tunnel_up; trace := [] |}
      = Return tt m' /\
    filter is_kill (added {| vars := tunnel_up; trace := [] |} m')
      = match tunnelProcess tunnel_up with
        | Some p => [Kill p (Some (lit "SIGTERM"))]
        | None => []
        end /\
    filter is_exec (added {| vars := tunnel_up; trace := [] |} m')
      = [Exec logoutCommand] /\
    tunnelLocalPort (vars m') = tunnelLocalPort tunnel_up /\
    sseClients (vars m') = sseClients tunnel_up /\
    (tunnelProcess tunnel_up = None -> vars m' = tunnel_up).
Proof.
  apply (@disconnect_touches (fun _ => None) 3 true
           {| vars := tunnel_up; trace := [] |}).
  reflexivity.
Defined.

Lemma events_run_ok write_error res v t :
  write_error res = None ->
  events write_error res {| vars := v; trace := t |}
  = Return tt
      {| vars := {| tunnelProcess := tunnelProcess v; connectedEnv := connectedEnv v;
                    tunnelLocalPort := tunnelLocalPort v;
                    sseClients := set_add res (sseClients v) |};
         trace := t ++ [SseWrite res (getCurrentStatus v)] |}.
Proof.
  intros Hw. unfold events, sse_write, set_add. rewrite Hw.
  unfold bind, read, emit, set_sseClients, write. cbn [vars trace].
  reflexivity.
Qed.

Lemma set_add_in res l r : In r (set_add res l) <-> r = res \/ In r l.
Proof.
  unfold set_add. destruct (existsb (Nat.eqb res) l) eqn:E.
  - split; [auto|]. intros [->|H]; [|exact H].
    apply existsb_exists in E. destruct E as (x & Hx & Hr).
    apply Nat.eqb_eq in Hr. subst. exact Hx.
  - rewrite in_app_iff. simpl. split; [intros [H|[H|[]]]; auto|].
    intros [->|H]; auto.
Qed.

Lemma set_add_nodup res l : NoDup l -> NoDup (set_add res l).
Proof.
  intros H. unfold set_add. destruct (existsb (Nat.eqb res) l) eqn:E; [exact H|].
  apply NoDup_app; [exact H|repeat constructor; simpl; tauto|].
  intros x Hx [<-|[]].
  assert (Ht : existsb (Nat.eqb res) l = true)
    by (apply existsb_exists; exists res; split; [exact Hx|apply Nat.eqb_refl]).
  congruence.
Qed.

Lemma filter_other_absent (res : Res) (l : list Res) :
  ~ In res l -> filter (fun r : nat => negb (Nat.eqb r res)) l = l.
Proof.
  induction l as [|x l IH]; simpl; [reflexivity|]. intros H.
  destruct (Nat.eqb_spec x res) as [->|_]; [exfalso; apply H; auto|].
  simpl. rewrite IH; [reflexivity|]. intros Hin. apply H. auto.
Qed.

(** Subscribing to the event stream: when the first write goes through,
    the subscriber receives the current snapshot and joins the observer
    set, which keeps its other members and stays free of duplicates
    (subscribing twice counts once); nothing else changes.  When the
    write throws, the exception leaves the handler and the subscriber is
    not added. *)
Theorem subscription write_error res m :
  (write_error res = None ->
   exists m',
     events write_error res m = Return tt m' /\
     added m m' = [SseWrite res (getCurrentStatus (vars m))] /\
     (forall r, In r (sseClients (vars m')) <-> r = res \/ In r (sseClients (vars m))) /\
     (NoDup (sseClients (vars m)) -> NoDup (sseClients (vars m'))) /\
     (In res (sseClients (vars m)) -> vars m' = vars m) /\
     getCurrentStatus (vars m') = getCurrentStatus (vars m)) /\
  (forall e, write_error res = Some e -> events write_error res m = Throw e m).
Proof.
  destruct m as [v t]. split.
  - intros Hw. eexists. split; [apply events_run_ok; exact Hw|].
    rewrite added_app. split; [reflexivity|]. cbn [vars sseClients].
    split; [apply set_add_in|]. split; [apply set_add_nodup|].
    split; [|reflexivity].
    intros Hin. unfold set_add.
    assert (Ht : existsb (Nat.eqb res) (sseClients v) = true)
      by (apply existsb_exists; exists res; split; [exact Hin|apply Nat.eqb_refl]).
    rewrite Ht. destruct v; reflexivity.
  - intros e He. unfold events, sse_write. rewrite He. reflexivity.
Qed.

Lemma subscription_witness :
  (exists m',
     events (flaky 2) 7 (observed [1; 2]) = Return tt m' /\
     added (observed [1; 2]) m' = [SseWrite 7 (getCurrentStatus (vars (observed [1; 2])))] /\
     (forall r, In r (sseClients (vars m')) <->
                r = 7%nat \/ In r (sseClients (vars (observed [1; 2])))) /\
     (NoDup (sseClients (vars (observed [1; 2]))) -> NoDup (sseClients (vars m'))) /\
     (In 7%nat (sseClients (vars (observed [1; 2]))) -> vars m' = vars (observed [1; 2])) /\
     getCurrentStatus (vars m') = getCurrentStatus (vars (observed [1; 2]))) /\
  events (flaky 2) 2 (observed [1; 2])
    = Throw (Error (lit "write after end")) (observed [1; 2]).
Proof.
  split.
  - apply (proj1 (subscription (flaky 2) 7 (observed [1; 2]))). reflexivity.
  - apply (proj2 (subscription (flaky 2) 2 (observed [1; 2]))). reflexivity.
Defined.

(** A subscriber that was not a member and then closes its stream
    leaves the variables exactly as they were. *)
Theorem subscribe_then_close write_error res m :
  write_error res = None -> ~ In res (sseClients (vars m)) ->
  exists m',
    (events write_error res ;; events_close res) m = Return tt m' /\
    vars m' = vars m /\
    added m m' = [SseWrite res (getCurrentStatus (vars m))].
Proof.
  intros Hw Hin. destruct m as [v t]. cbn [vars] in *.
  unfold bind. rewrite events_run_ok by exact Hw.
  unfold events_close, bind, read, set_sseClients, write. cbn [vars trace sseClients
    tunnelProcess connectedEnv tunnelLocalPort].
  eexists. split; [reflexivity|]. rewrite added_app. split; [|reflexivity].
  cbn [vars]. unfold set_add.
  destruct (existsb (Nat.eqb res) (sseClients v)) eqn:E.
  - exfalso. apply Hin. apply existsb_exists in E. destruct E as (x & Hx & Hr).
    apply Nat.eqb_eq in Hr. subst. exact Hx.
  - cbv iota. rewrite filter_app. destruct v as [p e port l].
    cbn [sseClients tunnelProcess connectedEnv tunnelLocalPort] in *. f_equal.
    transitivity (l ++ []); [|apply app_nil_r]. f_equal.
    + exact (@filter_other_absent res l Hin).
    + cbn [filter]. rewrite Nat.eqb_refl. reflexivity.
Qed.

Lemma subscribe_then_close_witness :
  exists m',
    (events (fun _ => None) 7 ;; events_close 7) (observed [1; 2]) = Return tt m' /\
    vars m' = vars (observed [1; 2]) /\
    added (observed [1; 2]) m'
      = [SseWrite 7 (getCurrentStatus (vars (observed [1; 2])))].
Proof.
  apply (@subscribe_then_close (fun _ => None) 7 (observed [1; 2])).
  - reflexivity.
  - simpl. intros [H|[H|[]]]; discriminate H.
Defined.

(** After the exit event of the subprocess, whatever the state before, a
    status request is answered with the disconnected snapshot: no
    environment, no process id, no local port. *)
Theorem status_after_exit write_error a res m :
  sent res (trace m) = false ->
  exists m',
    (on_close write_error a ;; status res) m = Return tt m' /\
    responses res (trace m') = [Respond res 200 (StatusBody disconnected_status)] /\
    vars m' = torn_down (vars m).
Proof.
  intros Hs. destruct m as [v t]. cbn [vars trace] in *.
  unfold bind. rewrite on_close_run. unfold status, bind, read. cbn [vars].
  rewrite respond_run by (rewrite sent_app, Hs, sent_delivered; reflexivity).
  eexists. split; [reflexivity|]. cbn [vars trace]. split; [|reflexivity].
  rewrite !responses_app, responses_delivered.
  apply sent_responses in Hs. rewrite Hs.
  cbn [responses filter responds_on app]. rewrite Nat.eqb_refl. reflexivity.
Qed.

Lemma status_after_exit_witness :
  exists m',
    (on_close (fun _ => None) attempt1 ;; status 9)
      {| vars := tunnel_up; trace := [] |} = Return tt m' /\
    responses 9 (trace m') = [Respond 9 200 (StatusBody disconnected_status)] /\
    vars m' = torn_down tunnel_up.
Proof.
  apply (@status_after_exit (fun _ => None) attempt1 9
           {| vars := tunnel_up; trace := [] |}).
  reflexivity.
Defined.

(** *** The command line of the tunnel *)

Lemma spaceless_app a b : spaceless (a ++ b) = spaceless a && spaceless b.
Proof. apply forallb_app. Qed.

Lemma spaceless_uint d : spaceless (lit (NilEmpty.string_of_uint d)) = true.
Proof. induction d; simpl; auto. Qed.

Lemma spaceless_digits n : spaceless (digits n) = true.
Proof.
  unfold digits, NilZero.string_of_uint.
  destruct (N.to_uint (Z.to_N n)); try reflexivity; apply spaceless_uint.
Qed.

Lemma spaceless_incl a b : incl a b -> spaceless b = true -> spaceless a = true.
Proof.
  unfold spaceless. intros H Hb. apply forallb_forall. intros x Hx.
  apply (proj1 (forallb_forall _ _) Hb). apply H, Hx.
Qed.

Lemma strip_zeros_incl l : incl (strip_zeros l) l.
Proof.
  induction l as [|c l IH]; [apply incl_refl|]. cbn [strip_zeros].
  destruct (c =? 48)%N; [apply incl_tl, IH|apply incl_refl].
Qed.

Lemma spaceless_zeros n : spaceless (zeros n) = true.
Proof. unfold zeros. induction (Z.to_nat n); simpl; auto. Qed.

Lemma spaceless_format ds n : spaceless ds = true -> spaceless (format ds n) = true.
Proof.
  intros H. unfold format.
  destruct ((Z.of_nat (List.length ds) <=? n)%Z && (n <=? 21)%Z).
  { rewrite spaceless_app, H, spaceless_zeros. reflexivity. }
  destruct ((0 <? n)%Z && (n <=? 21)%Z).
  { rewrite <- (firstn_skipn (Z.to_nat n) ds), spaceless_app in H.
    apply andb_true_iff in H. destruct H as (Hf & Hs).
    rewrite !spaceless_app, Hf, Hs. reflexivity. }
  destruct ((-6 <? n)%Z && (n <=? 0)%Z).
  { rewrite !spaceless_app, H, spaceless_zeros. reflexivity. }
  assert (Hex : spaceless ((if (n - 1 <? 0)%Z then lit "e-" else lit "e+")
                           ++ digits (Z.abs (n - 1))) = true).
  { rewrite spaceless_app, spaceless_digits.
    destruct (n - 1 <? 0)%Z; reflexivity. }
  destruct ds as [|d [|d' rest]]; [reflexivity| |].
  - change (spaceless ([d] ++ (if (n - 1 <? 0)%Z then lit "e-" else lit "e+")
                       ++ digits (Z.abs (n - 1))) = true).
    rewrite spaceless_app, H, Hex. reflexivity.
  - change (spaceless ([d] ++ lit "." ++ (d' :: rest)
                       ++ (if (n - 1 <? 0)%Z then lit "e-" else lit "e+")
                       ++ digits (Z.abs (n - 1))) = true).
    change (d :: d' :: rest) with ([d] ++ d' :: rest) in H.
    rewrite spaceless_app in H. apply andb_true_iff in H. destruct H as (Hd & Hr).
    rewrite spaceless_app, Hd. rewrite spaceless_app.
    rewrite (spaceless_app (d' :: rest)), Hr, Hex. reflexivity.
Qed.

Lemma spaceless_show_double x : spaceless (show_double x) = true.
Proof.
  unfold show_double.
  destruct (shortest _ _ x _ 1 17) as [c k].
  apply spaceless_format.
  apply spaceless_incl with (b := digits c); [|apply spaceless_digits].
  intros d Hd. apply in_rev in Hd. apply strip_zeros_incl in Hd.
  apply in_rev in Hd. exact Hd.
Qed.

Lemma spaceless_show_number m e : spaceless (show_number m e) = true.
Proof.
  unfold show_number. destruct (number_value m e) as [x|].
  - destruct (fst x =? 0)%Z; [reflexivity|].
    rewrite spaceless_app, spaceless_show_double.
    destruct (m <? 0)%Z; reflexivity.
  - rewrite spaceless_app. destruct (m <? 0)%Z; reflexivity.
Qed.

Lemma spaceless_show_Z n : spaceless (show_Z n) = true.
Proof. apply spaceless_show_number. Qed.

Lemma split_space_word w rest :
  spaceless w = true ->
  split_space (w ++ 32%N :: rest) = w :: split_space rest.
Proof.
  induction w as [|c w IH]; intros H; [reflexivity|].
  simpl in H. apply andb_true_iff in H. destruct H as (Hc & Hw).
  cbn [app split_space]. apply negb_true_iff in Hc. rewrite Hc, (IH Hw).
  reflexivity.
Qed.

Lemma split_space_last w : spaceless w = true -> split_space w = [w].
Proof.
  induction w as [|c w IH]; intros H; [reflexivity|].
  simpl in H. apply andb_true_iff in H. destruct H as (Hc & Hw).
  cbn [split_space]. apply negb_true_iff in Hc. rewrite Hc, (IH Hw).
  reflexivity.
Qed.

Lemma known_profile env prof :
  own_property env envTunnel = Some prof ->
  spaceless (remoteHost prof) = true /\
  In (defaultLocalPort prof) [4085; 4023; 4022]%Z.
Proof.
  unfold envTunnel. cbn [own_property].
  destruct (str_eqb env (lit "sit")).
  { intros H. inversion H; subst. split; [reflexivity|simpl; auto]. }
  destruct (str_eqb env (lit "uat1")).
  { intros H. inversion H; subst. split; [reflexivity|simpl; auto]. }
  destruct (str_eqb env (lit "uat2")).
  { intros H. inversion H; subst. split; [reflexivity|simpl; auto]. }
  discriminate.
Qed.

Lemma split_tunnel_command chosenPort host :
  spaceless host = true ->
  split_space (sshTunnelCommand chosenPort host)
  = lit "tsh" :: tunnel_args chosenPort host.
Proof.
  intros Hh. unfold sshTunnelCommand, tunnel_args.
  change (lit "tsh ssh -N -L " ++ show_Z chosenPort ++ lit ":" ++ host
          ++ lit ":4000 devops@cdx-sit-nonprod-pci-acn-bastion-host")
    with (lit "tsh" ++ 32%N :: lit "ssh" ++ 32%N :: lit "-N" ++ 32%N :: lit "-L"
          ++ 32%N :: show_Z chosenPort ++ lit ":" ++ host
          ++ lit ":4000" ++ 32%N :: lit "devops@cdx-sit-nonprod-pci-acn-bastion-host").
  rewrite !split_space_word by reflexivity.
  replace (show_Z chosenPort ++ lit ":" ++ host ++ lit ":4000"
           ++ 32%N :: lit "devops@cdx-sit-nonprod-pci-acn-bastion-host")
    with ((show_Z chosenPort ++ lit ":" ++ host ++ lit ":4000")
          ++ 32%N :: lit "devops@cdx-sit-nonprod-pci-acn-bastion-host")
    by (rewrite <- !app_assoc; reflexivity).
  rewrite split_space_word.
  - rewrite split_space_last by reflexivity. reflexivity.
  - rewrite !spaceless_app, spaceless_show_Z, Hh. reflexivity.
Qed.

Lemma chosen_port_in_range (isPortFree : Z -> bool) (d : Z) :
  (d <= choosePortForTunnel isPortFree d <= d + 50)%Z.
Proof.
  unfold choosePortForTunnel. rewrite scan_find.
  destruct (find isPortFree (range d)) as [p|] eqn:E; [|lia].
  apply find_some in E. destruct E as (Hin & _). unfold range in Hin.
  apply in_map_iff in Hin. destruct Hin as (i & <- & Hi).
  apply in_seq in Hi. lia.
Qed.

(** For each environment of the configuration, the launch starts
    exactly one process: [tsh] with the arguments [ssh -N -L
    port:remoteHost:4000 devops@bastion], where the port is the chosen
    one, at most 50 above the preferred port of the environment. *)
Theorem tunnel_command_line write_error isPortFree env c statusStdout child m :
  own_property env envTunnel = Some (p_profile c) ->
  exists a m',
    create_tunnel write_error isPortFree c statusStdout child m = Return a m' /\
    (defaultLocalPort (p_profile c) <= a_chosenPort a
     <= defaultLocalPort (p_profile c) + 50)%Z /\
    filter is_spawn (added m m')
      = [Spawn child (lit "tsh")
           (tunnel_args (a_chosenPort a) (remoteHost (p_profile c)))] /\
    filter is_kill (added m m') = [].
Proof.
  intros Hprof. destruct m as [v t].
  destruct (known_profile _ Hprof) as (Hhost & _).
  eexists. eexists. split; [apply create_tunnel_run|].
  cbn [a_chosenPort]. split; [apply chosen_port_in_range|].
  rewrite <- app_assoc, added_app.
  rewrite !filter_app, !filter_delivered by reflexivity.
  unfold spawn_effect. rewrite (@split_tunnel_command _ _ Hhost).
  split; reflexivity.
Qed.

Lemma tunnel_command_line_witness :
  exists a m',
    create_tunnel (fun _ => None) (fun p => Z.eqb p 4088) pending_sit [] child1 started
      = Return a m' /\
    (defaultLocalPort (p_profile pending_sit) <= a_chosenPort a
     <= defaultLocalPort (p_profile pending_sit) + 50)%Z /\
    filter is_spawn (added started m')
      = [Spawn child1 (lit "tsh")
           (tunnel_args (a_chosenPort a) (remoteHost (p_profile pending_sit)))] /\
    filter is_kill (added started m') = [].
Proof.
  apply (@tunnel_command_line (fun _ => None) (fun p => Z.eqb p 4088) (lit "sit")
           pending_sit [] child1 started).
  reflexivity.
Defined.

(** *** The port of the control server *)

Lemma isPortFree_legal listening p :
  (0 <= p <= 65535)%Z -> isPortFree listening p = inr (listening p).
Proof.
  intros H. unfold isPortFree.
  destruct (Z.leb_spec 0 p); [|lia]. destruct (Z.leb_spec p 65535); [|lia].
  reflexivity.
Qed.

Lemma isPortFree_illegal listening p :
  (p < 0 \/ 65535 < p)%Z -> isPortFree listening p = inl (bad_port (show_Z p)).
Proof.
  intros H. unfold isPortFree.
  destruct (Z.leb_spec 0 p); destruct (Z.leb_spec p 65535); try reflexivity; lia.
Qed.

Lemma first_free_find listening ps :
  Forall (fun p => 0 <= p <= 65535)%Z ps ->
  first_free listening ps
  = inr (match find listening ps with Some p => p | None => 0%Z end).
Proof.
  induction 1 as [|p ps Hp _ IH]; cbn [first_free find]; [reflexivity|].
  rewrite (isPortFree_legal listening Hp).
  destruct (listening p); [reflexivity|exact IH].
Qed.

Lemma candidates_range c :
  In c candidates <-> (3100 <= c <= 3110 \/ 3001 <= c <= 3009)%Z.
Proof.
  unfold candidates. rewrite in_app_iff, !in_map_iff. split.
  - intros [(i & <- & Hi)|(i & <- & Hi)]; apply in_seq in Hi; lia.
  - intros [H|H]; [left|right]; exists (Z.to_nat c);
      (split; [lia|apply in_seq; lia]).
Qed.

Lemma first_free_candidates listening :
  first_free listening candidates
  = inr (match find listening candidates with Some p => p | None => 0%Z end).
Proof.
  apply first_free_find. apply Forall_forall. intros c Hc.
  apply candidates_range in Hc. lia.
Qed.

(** The first free candidate, or 0: never 3000; 0 only when all twenty
    are taken; otherwise a candidate that was found free. *)
Lemma fallback_port listening :
  let p := match find listening candidates with Some c => c | None => 0%Z end in
  p <> 3000%Z /\
  (p = 0%Z -> forall c, In c candidates -> listening c = false) /\
  (p <> 0%Z ->
   (3100 <= p <= 3110 \/ 3001 <= p <= 3009)%Z /\ listening p = true).
Proof.
  cbn zeta. destruct (find listening candidates) as [p|] eqn:E.
  - apply find_some in E. destruct E as (Hin & Hfree).
    pose proof (proj1 (candidates_range _) Hin) as Hr.
    split; [lia|]. split; [intros H0; lia|]. auto.
  - split; [discriminate|]. split.
    + intros _ c Hc. exact (find_none _ _ E c Hc).
    + intros H. contradiction.
Qed.

(** [choosePort] is rejected exactly when the configured port is no
    integer, or an integer below 0 or above 65535: [listen] throws on
    it.  Otherwise it resolves, and never to 3000: to the configured
    port when that is a legal port other than 0 and 3000 and was found
    free, and else to the first free one of 3100..3110, 3001..3009, or
    to 0 (any port the system picks) when all twenty are taken. *)
Theorem choosePort_result envPort envPortFree (listening : Z -> bool) :
  let fallback :=
    match find listening candidates with Some c => c | None => 0%Z end in
  ((exists e, choosePort envPort envPortFree listening = inl e) <->
   (exists printed, envPort = PortOther printed) \/
   (exists q, envPort = PortInt q /\ (q < 0 \/ 65535 < q)%Z)) /\
  (forall p,
     choosePort envPort envPortFree listening = inr p ->
     p <> 3000%Z /\
     (p = 0%Z -> forall c, In c candidates -> listening c = false) /\
     (p <> 0%Z ->
      (envPort = PortInt p /\ envPortFree = true) \/
      ((3100 <= p <= 3110 \/ 3001 <= p <= 3009)%Z /\ listening p = true))) /\
  (forall q,
     envPort = PortInt q -> (1 <= q <= 65535)%Z -> q <> 3000%Z ->
     envPortFree = true ->
     choosePort envPort envPortFree listening = inr q) /\
  (envPort = PortUnset \/ envPort = PortInt 0 \/ envPort = PortInt 3000 \/
   (exists q, envPort = PortInt q /\ (1 <= q <= 65535)%Z /\ envPortFree = false) ->
   choosePort envPort envPortFree listening = inr fallback).
Proof.
  cbn zeta. pose proof (fallback_port listening) as Hc. cbn zeta in Hc.
  destruct Hc as (H3000 & Hzero & Hnonzero).
  assert (Hfallback : forall p,
            @inr JsError Z
              (match find listening candidates with Some c => c | None => 0%Z end)
            = inr p ->
            p <> 3000%Z /\
            (p = 0%Z -> forall c, In c candidates -> listening c = false) /\
            (p <> 0%Z ->
             (envPort = PortInt p /\ envPortFree = true) \/
             ((3100 <= p <= 3110 \/ 3001 <= p <= 3009)%Z /\ listening p = true))).
  { intros p H. inversion H; subst p. auto. }
  unfold choosePort. destruct envPort as [|q|printed].
  - rewrite first_free_candidates. split; [|split; [|split]].
    + split; [intros (e & H); discriminate H|].
      intros [(pr & H)|(q & H & _)]; discriminate H.
    + exact Hfallback.
    + intros q H. discriminate H.
    + reflexivity.
  - rewrite first_free_candidates.
    destruct (Z.eqb_spec q 0) as [->|Hq0]; cbn [negb andb].
    { split; [|split; [|split]].
      - split; [intros (e & H); discriminate H|].
        intros [(pr & H)|(q & H & Hq)]; [discriminate H|].
        inversion H; subst. lia.
      - exact Hfallback.
      - intros q H Hq. inversion H; subst. lia.
      - reflexivity. }
    destruct (Z.eqb_spec q 3000) as [->|Hq3]; cbn [negb andb].
    { split; [|split; [|split]].
      - split; [intros (e & H); discriminate H|].
        intros [(pr & H)|(q & H & Hq)]; [discriminate H|].
        inversion H; subst. lia.
      - exact Hfallback.
      - intros q H _ Hq. inversion H; subst. contradiction.
      - reflexivity. }
    destruct (Z_lt_le_dec q 0) as [Hneg|Hpos].
    { rewrite isPortFree_illegal by lia. split; [|split; [|split]].
      - split; [intros _; right; exists q; auto|].
        intros _. eexists. reflexivity.
      - intros p H. discriminate H.
      - intros q' H Hq'. inversion H; subst. lia.
      - intros [H|[H|[H|(q' & H & Hq' & _)]]]; try discriminate H;
          inversion H; subst; try contradiction; lia. }
    destruct (Z_lt_le_dec 65535 q) as [Hbig|Hsmall].
    { rewrite isPortFree_illegal by lia. split; [|split; [|split]].
      - split; [intros _; right; exists q; auto|].
        intros _. eexists. reflexivity.
      - intros p H. discriminate H.
      - intros q' H Hq'. inversion H; subst. lia.
      - intros [H|[H|[H|(q' & H & Hq' & _)]]]; try discriminate H;
          inversion H; subst; try contradiction; lia. }
    rewrite isPortFree_legal by lia. destruct envPortFree.
    + split; [|split; [|split]].
      * split; [intros (e & H); discriminate H|].
        intros [(pr & H)|(q' & H & Hq')]; [discriminate H|].
        inversion H; subst. lia.
      * intros p H. inversion H; subst p.
        split; [exact Hq3|]. split; [contradiction|]. intros _. left. auto.
      * intros q' H _ _ _. inversion H; subst. reflexivity.
      * intros [H|[H|[H|(q' & H & _ & Hf)]]]; try discriminate H;
          try discriminate Hf; inversion H; subst; congruence.
    + split; [|split; [|split]].
      * split; [intros (e & H); discriminate H|].
        intros [(pr & H)|(q' & H & Hq')]; [discriminate H|].
        inversion H; subst. lia.
      * exact Hfallback.
      * intros q' _ _ _ H. discriminate H.
      * reflexivity.
  - split; [|split; [|split]].
    + split; [intros _; left; exists printed; reflexivity|].
      intros _. eexists. reflexivity.
    + intros p H. discriminate H.
    + intros q H. discriminate H.
    + intros [H|[H|[H|(q & H & _)]]]; discriminate H.
Qed.

(** With PORT=70000 the server never comes up: [choosePort] is
    rejected.  With PORT=8080 free it listens there, and with PORT
    unset and 3100 taken, on 3101. *)
Example choosePort_samples :
  (exists e, choosePort (PortInt 70000) true (fun _ => true) = inl e) /\
  choosePort (PortInt 8080) true (fun _ => true) = inr 8080%Z /\
  choosePort PortUnset true (fun p => negb (p =? 3100)%Z) = inr 3101%Z.
Proof.
  split; [eexists; vm_compute; reflexivity|]. split; vm_compute; reflexivity.
Qed.

(** *** POST /sso-login *)

(** The login launcher answers exactly once and never touches the
    tunnel: with 200 when the terminal was spawned, and with 500 and the
    message of the exception (or a fixed text when that is empty) when
    the spawn threw, in which case nothing was spawned. *)
Theorem sso_login_answers spawned res m :
  sent res (trace m) = false ->
  sso_login spawned res m
  = Return tt
      {| vars := vars m;
         trace := trace m ++
           match spawned with
           | inr child =>
               [ Spawn child (lit "cmd.exe") psArgs;
                 Respond res 200
                   (Success (lit "Opened a new PowerShell window for SSO login.")) ]
           | inl e =>
               [ Respond res 500
                   (Failure (match error_message e with
                             | [] => lit "Failed to launch terminal"
                             | msg => msg
                             end)) ]
           end |}.
Proof.
  intros Hs. destruct m as [v t]. cbn [vars trace] in *.
  unfold sso_login, try_catch. destruct spawned as [e|child].
  - unfold bind, lift, throw. rewrite respond_run by exact Hs. reflexivity.
  - unfold bind at 1. unfold lift, ret at 1. unfold bind at 1.
    unfold emit at 1. cbn [vars trace].
    rewrite respond_run by (rewrite sent_app, Hs; reflexivity).
    rewrite <- app_assoc. reflexivity.
Qed.

Lemma sso_login_answers_witness :
  sso_login (inl (Error (lit "spawn cmd.exe ENOENT"))) 4
            {| vars := tunnel_up; trace := [] |}
  = Return tt
      {| vars := tunnel_up;
         trace := [] ++
           [ Respond 4 500
               (Failure (match error_message (Error (lit "spawn cmd.exe ENOENT")) with
                         | [] => lit "Failed to launch terminal"
                         | msg => msg
                         end)) ] |}.
Proof.
  apply (@sso_login_answers (inl (Error (lit "spawn cmd.exe ENOENT"))) 4
           {| vars := tunnel_up; trace := [] |}).
  reflexivity.
Defined.

(** *** Launch failures and odd environments *)

(** Data on the error stream, or a spawn error, before the timer: the
    caller gets the failure (with the captured text for the error
    stream), the slot is emptied, and the timer that fires afterwards
    neither answers nor records the environment. *)
Theorem launch_failure_reported write_error a m :
  sent (a_res a) (trace m) = false ->
  (forall data p, tunnelProcess (vars m) = Some p ->
     exists m',
       (on_stderr_data write_error a data ;; on_timer write_error a) m = Return tt m' /\
       responses (a_res a) (trace m') = [Respond (a_res a) 500 (launch_failed data)] /\
       filter is_kill (added m m') = [Kill p None] /\
       vars m' = torn_down (vars m)) /\
  (exists m',
     (on_error write_error a ;; on_timer write_error a) m = Return tt m' /\
     responses (a_res a) (trace m') = [Respond (a_res a) 500 spawn_failed] /\
     filter is_kill (added m m') = [] /\
     vars m' = torn_down (vars m)).
Proof.
  intros Hs. destruct m as [v t]. cbn [vars trace] in *.
  pose proof (proj1 (sent_responses _ _) Hs) as Hr.
  split.
  - intros data p Hp. unfold bind.
    rewrite (@on_stderr_data_unsent write_error a data v t p Hs Hp).
    rewrite on_timer_sent
      by (rewrite !sent_app; cbn [sent existsb responds_on];
          rewrite Nat.eqb_refl, !orb_true_r; reflexivity).
    eexists. split; [reflexivity|]. cbn [vars trace].
    rewrite !responses_app, responses_delivered, Hr.
    rewrite <- !app_assoc, added_app, filter_app, filter_delivered by reflexivity.
    cbn [responses filter responds_on is_kill app]. rewrite Nat.eqb_refl.
    repeat split; reflexivity.
  - unfold bind. rewrite on_error_run, Hs.
    rewrite on_timer_sent
      by (rewrite !sent_app; cbn [sent existsb responds_on];
          rewrite Nat.eqb_refl, !orb_true_r; reflexivity).
    eexists. split; [reflexivity|]. cbn [vars trace].
    rewrite !responses_app, responses_delivered, Hr.
    rewrite <- !app_assoc, added_app, filter_app, filter_delivered by reflexivity.
    cbn [responses filter responds_on is_kill app]. rewrite Nat.eqb_refl.
    repeat split; reflexivity.
Qed.

Lemma launch_failure_reported_witness :
  (forall data p, tunnelProcess (with_env tunnel_up JNull) = Some p ->
     exists m',
       (on_stderr_data (fun _ => None) attempt1 data ;; on_timer (fun _ => None) attempt1)
         {| vars := with_env tunnel_up JNull; trace := [] |} = Return tt m' /\
       responses (a_res attempt1) (trace m')
         = [Respond (a_res attempt1) 500 (launch_failed data)] /\
       filter is_kill (added {| vars := with_env tunnel_up JNull; trace := [] |} m')
         = [Kill p None] /\
       vars m' = torn_down (with_env tunnel_up JNull)) /\
  (exists m',
     (on_error (fun _ => None) attempt1 ;; on_timer (fun _ => None) attempt1)
       {| vars := with_env tunnel_up JNull; trace := [] |} = Return tt m' /\
     responses (a_res attempt1) (trace m') = [Respond (a_res attempt1) 500 spawn_failed] /\
     filter is_kill (added {| vars := with_env tunnel_up JNull; trace := [] |} m') = [] /\
     vars m' = torn_down (with_env tunnel_up JNull)).
Proof.
  apply (@launch_failure_reported (fun _ => None) attempt1
           {| vars := with_env tunnel_up JNull; trace := [] |}).
  reflexivity.
Defined.

(** An environment that is not a string but prints as a known key (the
    array ["sit"], say) passes the check of the request: login, status
    and launch go ahead and a process is spawned.  The timer then throws
    on [env.toUpperCase()] before it records or answers anything, so the
    caller of that attempt is never answered, while the process stays in
    the slot. *)
Theorem odd_environment_is_never_confirmed write_error isPortFree res body e prof
    loginStderr statusStdout statusStderr child m :
  sent res (trace m) = false ->
  get body "env" = e -> truthy e = true -> (forall s, e <> JStr s) ->
  envTunnel_lookup e = inr (Some (Configured prof)) ->
  exists m',
    confirmed_attempt write_error isPortFree res body false loginStderr
                      false statusStdout statusStderr child m
      = Throw no_toUpperCase m' /\
    responses res (trace m') = [] /\
    filter is_spawn (added m m')
      = [spawn_effect child (choosePortForTunnel isPortFree (defaultLocalPort prof)) prof] /\
    tunnelProcess (vars m') = Some child /\
    connectedEnv (vars m') = connectedEnv (after_teardown (vars m)).
Proof.
  intros Hs Henv Hne Hodd Hprof. destruct m as [v t]. cbn [vars trace] in *.
  unfold confirmed_attempt, attempt. step_bind. step_bind.
  rewrite (connect_known_run write_error res body v t Henv Hne Hprof).
  step_bind. unfold login_callback. step_bind. unfold emit at 1. cbn [vars trace].
  unfold ret at 1. step_bind. unfold status_callback, ret at 1.
  step_bind. rewrite create_tunnel_run. unfold ret at 1. cbn [p_profile p_res p_env].
  unfold on_timer. step_bind. step_bind. rewrite headersSent_run. cbn [a_res a_env].
  assert (Hfresh : forall x y,
            sent res (((((t ++ teardown_effects write_error v) ++ [Exec loginCommand])
                        ++ [Exec statusCommand]) ++ delivered write_error x)
                      ++ [spawn_effect child y prof]) = false).
  { intros x y. rewrite !sent_app, Hs, sent_teardown_effects, sent_delivered.
    reflexivity. }
  rewrite Hfresh. cbn [negb].
  assert (Hthrow : forall (k : jstring -> M unit),
            match e with
            | JStr env => k env
            | JUndefined =>
                throw (TypeError (lit "Cannot read properties of undefined (reading 'toUpperCase')"))
            | JNull =>
                throw (TypeError (lit "Cannot read properties of null (reading 'toUpperCase')"))
            | _ => throw no_toUpperCase
            end
            = throw no_toUpperCase).
  { intros k. destruct e; try reflexivity; try discriminate Hne.
    exfalso. eapply Hodd. reflexivity. }
  rewrite Hthrow. unfold throw. eexists. split; [reflexivity|]. cbn [vars trace].
  split; [apply sent_responses; apply Hfresh|].
  rewrite <- !app_assoc, added_app.
  rewrite !filter_app, !filter_delivered by reflexivity.
  split.
  - unfold teardown_effects. destruct (tunnelProcess v); cbn [filter is_spawn app];
      rewrite ?filter_delivered by reflexivity; reflexivity.
  - split; reflexivity.
Qed.

Lemma odd_environment_is_never_confirmed_witness :
  exists m',
    confirmed_attempt (fun _ => None) (fun _ => true) 1 connect_sit_array
                      false [] false [] [] child1 started
      = Throw no_toUpperCase m' /\
    responses 1 (trace m') = [] /\
    filter is_spawn (added started m')
      = [spawn_effect child1
           (choosePortForTunnel (fun _ => true)
              (defaultLocalPort (p_profile pending_sit)))
           (p_profile pending_sit)] /\
    tunnelProcess (vars m') = Some child1 /\
    connectedEnv (vars m') = connectedEnv (after_teardown (vars started)).
Proof.
  apply (@odd_environment_is_never_confirmed (fun _ => None) (fun _ => true) 1
           connect_sit_array (JArr [JStr (lit "sit")]) (p_profile pending_sit)
           [] [] [] child1 started).
  - reflexivity.
  - reflexivity.
  - reflexivity.
  - intros s H. discriminate H.
  - vm_compute. reflexivity.
Defined.

(** *** Inherited names as environment *)

Lemma connect_inherited_run write_error res body env v t :
  get body "env" = JStr env -> envTunnel_get env = Some Inherited ->
  connect write_error res body {| vars := v; trace := t |}
  = Return (Some (Unconfigured res))
      {| vars := after_teardown v;
         trace := (t ++ teardown_effects write_error v) ++ [Exec loginCommand] |}.
Proof.
  intros Henv Hget.
  assert (Hne : truthy (JStr env) = true)
    by (destruct env; [discriminate Hget|reflexivity]).
  assert (Hgo : forall v' t',
    match body with
    | JUndefined | JNull =>
        throw (TypeError (lit "Cannot destructure property 'env' of 'req.body' as it is undefined."))
    | _ =>
        if negb (truthy (get body "env")) then
          respond res 400 (Failure (lit "Invalid or missing environment specified.")) ;;
          ret None
        else
          o <- lift (envTunnel_lookup (get body "env")) ;;
          match o with
          | None =>
              respond res 400 (Failure (lit "Invalid or missing environment specified.")) ;;
              ret None
          | Some (Configured prof) =>
              emit (Exec loginCommand) ;;
              ret (Some (Known {| p_res := res; p_env := get body "env";
                                  p_profile := prof |}))
          | Some Inherited =>
              emit (Exec loginCommand) ;;
              ret (Some (Unconfigured res))
          end
    end {| vars := v'; trace := t' |}
    = Return (Some (Unconfigured res))
        {| vars := v'; trace := t' ++ [Exec loginCommand] |}).
  { intros v' t'. destruct body; try discriminate Henv.
    rewrite Henv, Hne. cbn [negb]. unfold envTunnel_lookup. cbn [ToString].
    rewrite Hget. reflexivity. }
  unfold connect, teardown_effects, after_teardown. step_bind.
  unfold read at 1. cbn [vars]. destruct (tunnelProcess v) as [p|].
  - step_bind. step_bind. unfold emit at 1. cbn [vars trace].
    step_bind. rewrite clear_slot_run, broadcastStatus_run.
    unfold push. cbn [vars trace]. rewrite Hgo.
    rewrite <- !app_assoc. reflexivity.
  - step_bind. unfold ret at 1. rewrite Hgo. rewrite app_nil_r. reflexivity.
Qed.

(** An environment that names a member [envTunnel] inherits from
    [Object.prototype] ("constructor", "toString", "__proto__", ...)
    passes the check of the request like a configured one: a process in
    the slot is killed and the login command is started.  When the login
    fails, the caller gets the 500 of a failed login.  When login and
    status succeed, the asynchronous block throws before it publishes a
    port or spawns anything, and the caller is never answered; the
    variables stay as the tear-down left them. *)
Theorem inherited_environment_passes write_error isPortFree res body env
    loginStderr statusStdout statusStderr child m :
  sent res (trace m) = false ->
  get body "env" = JStr env -> In env (map lit inherited_names) ->
  attempt write_error isPortFree res body true loginStderr
          false statusStdout statusStderr child m
  = Return None
      {| vars := after_teardown (vars m);
         trace := (trace m ++ teardown_effects write_error (vars m))
                  ++ [Exec loginCommand; Respond res 500 (login_failed loginStderr)] |}
  /\
  exists e,
    attempt write_error isPortFree res body false loginStderr
            false statusStdout statusStderr child m
    = Throw e
        {| vars := after_teardown (vars m);
           trace := (trace m ++ teardown_effects write_error (vars m))
                    ++ [Exec loginCommand; Exec statusCommand] |}.
Proof.
  intros Hs Henv Hin. destruct m as [v t]. cbn [vars trace] in *.
  assert (Hget : envTunnel_get env = Some Inherited).
  { cbn [map inherited_names] in Hin.
    repeat (destruct Hin as [<-|Hin]; [vm_compute; reflexivity|]).
    destruct Hin. }
  assert (Hs' : sent res ((t ++ teardown_effects write_error v) ++ [Exec loginCommand])
                = false)
    by (rewrite !sent_app, Hs, sent_teardown_effects; reflexivity).
  split.
  - unfold attempt. step_bind.
    rewrite (connect_inherited_run write_error res body v t Henv Hget).
    step_bind. unfold login_callback. step_bind. cbn [v_res].
    rewrite respond_run by exact Hs'. unfold ret.
    rewrite <- !app_assoc. reflexivity.
  - eexists. unfold attempt. step_bind.
    rewrite (connect_inherited_run write_error res body v t Henv Hget).
    step_bind. unfold login_callback. step_bind. unfold emit at 1. cbn [vars trace].
    unfold ret at 1. step_bind. unfold status_callback, ret at 1.
    step_bind. unfold create_tunnel_unconfigured, throw.
    rewrite <- !app_assoc. reflexivity.
Qed.

(** The theorem at a request for "constructor" while a tunnel is up: the
    running tunnel is killed, and the caller is left without answer. *)
Lemma inherited_environment_passes_witness :
  attempt (fun _ => None) (fun _ => true) 2 connect_constructor true (lit "denied")
          false [] [] child2 {| vars := tunnel_up; trace := [] |}
  = Return None
      {| vars := after_teardown tunnel_up;
         trace := ([] ++ teardown_effects (fun _ => None) tunnel_up)
                  ++ [Exec loginCommand; Respond 2 500 (login_failed (lit "denied"))] |}
  /\
  exists e,
    attempt (fun _ => None) (fun _ => true) 2 connect_constructor false (lit "denied")
            false [] [] child2 {| vars := tunnel_up; trace := [] |}
    = Throw e
        {| vars := after_teardown tunnel_up;
           trace := ([] ++ teardown_effects (fun _ => None) tunnel_up)
                    ++ [Exec loginCommand; Exec statusCommand] |}.
Proof.
  apply (@inherited_environment_passes (fun _ => None) (fun _ => true) 2
           connect_constructor (lit "constructor") (lit "denied") [] [] child2
           {| vars := tunnel_up; trace := [] |}).
  - reflexivity.
  - reflexivity.
  - left. reflexivity.
Defined.

End ServerExtra.
